(** * Zipper: store-only ZIP / USTAR archive builders

  A shallow embedding of the archive builders of the repository
  (the entries-based builder [src/zip.js], the parts-based builder
  [src/src/zip.js], the TAR builder [src/tar.js] and the experimental
  streaming builder) together with the properties stated about them.

  Conventions of the embedding.
  - A JavaScript number that the code only ever uses as an integer is a
    [Z]; the 32-bit conversions that the bit operators perform are
    written out ([ToInt32], [ToUint32]).
  - A [Uint8Array] is a [list Z] whose elements lie in [0, 256); a store
    into it reduces the stored number modulo 256.
  - A JavaScript string is the list of its UTF-16 code units.
  - A [Date] is the record of its local-time fields. *)

From Stdlib Require Import ZArith List Lia Bool String Ascii.
From Stdlib Require Import Permutation.
Import ListNotations.
Local Open Scope Z_scope.

(** ** JavaScript integers, typed arrays and strings *)

Module JS.

Definition ToInt32 (x : Z) : Z := (x + 2 ^ 31) mod 2 ^ 32 - 2 ^ 31.
Definition ToUint32 (x : Z) : Z := x mod 2 ^ 32.

(** [a ^ b], [a & b], [a | b] *)
Definition xor (a b : Z) : Z := Z.lxor (ToInt32 a) (ToInt32 b).
Definition and (a b : Z) : Z := Z.land (ToInt32 a) (ToInt32 b).
Definition or (a b : Z) : Z := Z.lor (ToInt32 a) (ToInt32 b).
(** [a >>> n], [a >> n], [a << n] *)
Definition ushr (a n : Z) : Z := Z.shiftr (ToUint32 a) (n mod 32).
Definition shr (a n : Z) : Z := Z.shiftr (ToInt32 a) (n mod 32).
Definition shl (a n : Z) : Z := ToInt32 (Z.shiftl (ToInt32 a) (n mod 32)).

(** A [Uint8Array]; [u8] is the conversion applied by a store. *)
Definition Uint8Array := list Z.
Definition u8 (x : Z) : Z := x mod 256.
Definition is_byte (b : Z) : Prop := 0 <= b < 256.
Definition is_byteb (b : Z) : bool := (0 <=? b) && (b <? 256).
Definition is_bytes (bs : Uint8Array) : Prop := Forall is_byte bs.
Definition len {A} (l : list A) : Z := Z.of_nat (List.length l).

(** [a[i]] read in a numeric context: [undefined] behaves as [0] under
    the bit operators (ToInt32 of NaN is 0). *)
Definition index (a : list Z) (i : Z) : Z :=
  if i <? 0 then 0 else nth (Z.to_nat i) a 0.

(** A string is the list of its UTF-16 code units. *)
Definition jsstring := list Z.
Definition lit (s : string) : jsstring :=
  map (fun c => Z.of_nat (nat_of_ascii c)) (list_ascii_of_string s).

Definition str_eqb (a b : jsstring) : bool :=
  if list_eq_dec Z.eq_dec a b then true else false.

(** [s.startsWith(p)] *)
Fixpoint startsWith (s p : jsstring) : bool :=
  match p, s with
  | [], _ => true
  | _ :: _, [] => false
  | c :: p', d :: s' => (c =? d) && startsWith s' p'
  end.

(** [s.endsWith("/")] *)
Definition endsWithSlash (s : jsstring) : bool :=
  match rev s with
  | c :: _ => c =? 47
  | [] => false
  end.

(** [s.substr(0, n)] *)
Definition substr0 (s : jsstring) (n : nat) : jsstring := firstn n s.

(** The regular-expression replacements and [trim] that the builders
    apply to paths. *)

(** [.replace(/[\x00-\x19\x7F]/, '')]: without the [g] flag only the
    first match is removed. *)
Definition is_control (c : Z) : bool :=
  ((0 <=? c) && (c <=? 0x19)) || (c =? 0x7F).

Fixpoint removeFirstControl (s : jsstring) : jsstring :=
  match s with
  | [] => []
  | c :: r => if is_control c then r else c :: removeFirstControl r
  end.

(** [.replace(/\/+/g, '/')] *)
Definition headIsSlash (s : jsstring) : bool :=
  match s with
  | c :: _ => c =? 47
  | [] => false
  end.

Fixpoint collapseSlashes (s : jsstring) : jsstring :=
  match s with
  | [] => []
  | c :: r =>
      if (c =? 47) && headIsSlash r then collapseSlashes r
      else c :: collapseSlashes r
  end.

(** [.trim()]: white space and line terminators of ECMAScript. *)
Definition is_space (c : Z) : bool :=
  existsb (Z.eqb c)
    [0x09; 0x0A; 0x0B; 0x0C; 0x0D; 0x20; 0xA0; 0x1680;
     0x2000; 0x2001; 0x2002; 0x2003; 0x2004; 0x2005; 0x2006; 0x2007;
     0x2008; 0x2009; 0x200A; 0x2028; 0x2029; 0x202F; 0x205F; 0x3000;
     0xFEFF].

Fixpoint trimStart (s : jsstring) : jsstring :=
  match s with
  | [] => []
  | c :: r => if is_space c then trimStart r else s
  end.

Definition trim (s : jsstring) : jsstring :=
  rev (trimStart (rev (trimStart s))).

(** [.replace(/^\//, '')] and [.replace(/\/$/, '')] *)
Definition stripLeadingSlash (s : jsstring) : jsstring :=
  match s with
  | c :: r => if c =? 47 then r else s
  | [] => []
  end.

Definition stripTrailingSlash (s : jsstring) : jsstring :=
  rev (stripLeadingSlash (rev s)).

(** [n.toString(radix)] for an integer [n]; digits beyond 9 are the
    letters a-z.  The number of binary digits of [n] bounds the number of
    digits in any radix, which is what the recursion counts down. *)
Definition digit (d : Z) : Z := if d <? 10 then 48 + d else 87 + d.

Fixpoint digits (fuel : nat) (radix n : Z) (acc : jsstring) : jsstring :=
  match fuel with
  | O => acc
  | S fuel' =>
      let acc' := digit (n mod radix) :: acc in
      if n / radix =? 0 then acc' else digits fuel' radix (n / radix) acc'
  end.

Definition toStringRadix (radix n : Z) : jsstring :=
  if n <? 0
  then 45 :: digits (S (Z.to_nat (Z.log2 (- n)))) radix (- n) []
  else digits (S (Z.to_nat (Z.log2 n))) radix n [].

(** [arr.join(sep)] *)
Fixpoint join (sep : jsstring) (l : list jsstring) : jsstring :=
  match l with
  | [] => []
  | [x] => x
  | x :: rest => x ++ sep ++ join sep rest
  end.

(** The JavaScript values that reach the builders.  Numbers are the
    integer-valued ones; [VView] is an integer typed array other than a
    [Uint8Array], [VArray] an [Array] of integers, [VObject] any other
    object. *)
Inductive jsval : Type :=
| VUndefined
| VNull
| VBool (b : bool)
| VNum (n : Z)
| VStr (s : jsstring)
| VUint8Array (bytes : Uint8Array)
| VArrayBuffer (bytes : Uint8Array)
| VView (elements : list Z)
| VArray (elements : list Z)
| VObject.

(** Truthiness, as tested by [!v] and [v || d]. *)
Definition truthy (v : jsval) : bool :=
  match v with
  | VUndefined | VNull => false
  | VBool b => b
  | VNum n => negb (n =? 0)
  | VStr s => negb (str_eqb s [])
  | _ => true
  end.

(** [String(v)] *)
Definition ToString (v : jsval) : jsstring :=
  match v with
  | VUndefined => lit "undefined"
  | VNull => lit "null"
  | VBool true => lit "true"
  | VBool false => lit "false"
  | VNum n => toStringRadix 10 n
  | VStr s => s
  | VUint8Array l | VView l | VArray l =>
      join (lit ",") (map (toStringRadix 10) l)
  | VArrayBuffer _ => lit "[object ArrayBuffer]"
  | VObject => lit "[object Object]"
  end.

(** A [Date], as the builders read it: its local-time fields
    ([getMonth] counts from 0). *)
Record Date : Type := mkDate {
  getFullYear : Z;
  getMonth : Z;
  getDate : Z;
  getHours : Z;
  getMinutes : Z;
  getSeconds : Z
}.

(** [new Date(0)] depends on the time zone of the host and is a
    parameter wherever it is used.  The setters store their arguments;
    the carry into neighbouring fields that JavaScript performs when an
    argument is out of range (a day past the end of the month, an hour of
    24 or more) is not modelled. *)
Definition setFullYear (d : Date) (year month day : Z) : Date :=
  mkDate year month day (getHours d) (getMinutes d) (getSeconds d).
Definition setHours (d : Date) (hours : Z) : Date :=
  mkDate (getFullYear d) (getMonth d) (getDate d) hours
         (getMinutes d) (getSeconds d).
Definition setMinutes (d : Date) (minutes : Z) : Date :=
  mkDate (getFullYear d) (getMonth d) (getDate d) (getHours d)
         minutes (getSeconds d).
Definition setSeconds (d : Date) (seconds : Z) : Date :=
  mkDate (getFullYear d) (getMonth d) (getDate d) (getHours d)
         (getMinutes d) seconds.

(** The system clock: the successive readings of [new Date()]. *)
Definition Clock := nat -> Date.

End JS.

(** ** Checksum engine *)

Module Crc.
Import JS.

(** [CRC_TABLE] of [bytesToCrc32] in src/zip.js. *)
Definition CRC_TABLE : list Z := [
  0x00000000; 0x77073096; 0xee0e612c; 0x990951ba; 0x076dc419; 0x706af48f;
  0xe963a535; 0x9e6495a3; 0x0edb8832; 0x79dcb8a4; 0xe0d5e91e; 0x97d2d988;
  0x09b64c2b; 0x7eb17cbd; 0xe7b82d07; 0x90bf1d91; 0x1db71064; 0x6ab020f2;
  0xf3b97148; 0x84be41de; 0x1adad47d; 0x6ddde4eb; 0xf4d4b551; 0x83d385c7;
  0x136c9856; 0x646ba8c0; 0xfd62f97a; 0x8a65c9ec; 0x14015c4f; 0x63066cd9;
  0xfa0f3d63; 0x8d080df5; 0x3b6e20c8; 0x4c69105e; 0xd56041e4; 0xa2677172;
  0x3c03e4d1; 0x4b04d447; 0xd20d85fd; 0xa50ab56b; 0x35b5a8fa; 0x42b2986c;
  0xdbbbc9d6; 0xacbcf940; 0x32d86ce3; 0x45df5c75; 0xdcd60dcf; 0xabd13d59;
  0x26d930ac; 0x51de003a; 0xc8d75180; 0xbfd06116; 0x21b4f4b5; 0x56b3c423;
  0xcfba9599; 0xb8bda50f; 0x2802b89e; 0x5f058808; 0xc60cd9b2; 0xb10be924;
  0x2f6f7c87; 0x58684c11; 0xc1611dab; 0xb6662d3d; 0x76dc4190; 0x01db7106;
  0x98d220bc; 0xefd5102a; 0x71b18589; 0x06b6b51f; 0x9fbfe4a5; 0xe8b8d433;
  0x7807c9a2; 0x0f00f934; 0x9609a88e; 0xe10e9818; 0x7f6a0dbb; 0x086d3d2d;
  0x91646c97; 0xe6635c01; 0x6b6b51f4; 0x1c6c6162; 0x856530d8; 0xf262004e;
  0x6c0695ed; 0x1b01a57b; 0x8208f4c1; 0xf50fc457; 0x65b0d9c6; 0x12b7e950;
  0x8bbeb8ea; 0xfcb9887c; 0x62dd1ddf; 0x15da2d49; 0x8cd37cf3; 0xfbd44c65;
  0x4db26158; 0x3ab551ce; 0xa3bc0074; 0xd4bb30e2; 0x4adfa541; 0x3dd895d7;
  0xa4d1c46d; 0xd3d6f4fb; 0x4369e96a; 0x346ed9fc; 0xad678846; 0xda60b8d0;
  0x44042d73; 0x33031de5; 0xaa0a4c5f; 0xdd0d7cc9; 0x5005713c; 0x270241aa;
  0xbe0b1010; 0xc90c2086; 0x5768b525; 0x206f85b3; 0xb966d409; 0xce61e49f;
  0x5edef90e; 0x29d9c998; 0xb0d09822; 0xc7d7a8b4; 0x59b33d17; 0x2eb40d81;
  0xb7bd5c3b; 0xc0ba6cad; 0xedb88320; 0x9abfb3b6; 0x03b6e20c; 0x74b1d29a;
  0xead54739; 0x9dd277af; 0x04db2615; 0x73dc1683; 0xe3630b12; 0x94643b84;
  0x0d6d6a3e; 0x7a6a5aa8; 0xe40ecf0b; 0x9309ff9d; 0x0a00ae27; 0x7d079eb1;
  0xf00f9344; 0x8708a3d2; 0x1e01f268; 0x6906c2fe; 0xf762575d; 0x806567cb;
  0x196c3671; 0x6e6b06e7; 0xfed41b76; 0x89d32be0; 0x10da7a5a; 0x67dd4acc;
  0xf9b9df6f; 0x8ebeeff9; 0x17b7be43; 0x60b08ed5; 0xd6d6a3e8; 0xa1d1937e;
  0x38d8c2c4; 0x4fdff252; 0xd1bb67f1; 0xa6bc5767; 0x3fb506dd; 0x48b2364b;
  0xd80d2bda; 0xaf0a1b4c; 0x36034af6; 0x41047a60; 0xdf60efc3; 0xa867df55;
  0x316e8eef; 0x4669be79; 0xcb61b38c; 0xbc66831a; 0x256fd2a0; 0x5268e236;
  0xcc0c7795; 0xbb0b4703; 0x220216b9; 0x5505262f; 0xc5ba3bbe; 0xb2bd0b28;
  0x2bb45a92; 0x5cb36a04; 0xc2d7ffa7; 0xb5d0cf31; 0x2cd99e8b; 0x5bdeae1d;
  0x9b64c2b0; 0xec63f226; 0x756aa39c; 0x026d930a; 0x9c0906a9; 0xeb0e363f;
  0x72076785; 0x05005713; 0x95bf4a82; 0xe2b87a14; 0x7bb12bae; 0x0cb61b38;
  0x92d28e9b; 0xe5d5be0d; 0x7cdcefb7; 0x0bdbdf21; 0x86d3d2d4; 0xf1d4e242;
  0x68ddb3f8; 0x1fda836e; 0x81be16cd; 0xf6b9265b; 0x6fb077e1; 0x18b74777;
  0x88085ae6; 0xff0f6a70; 0x66063bca; 0x11010b5c; 0x8f659eff; 0xf862ae69;
  0x616bffd3; 0x166ccf45; 0xa00ae278; 0xd70dd2ee; 0x4e048354; 0x3903b3c2;
  0xa7672661; 0xd06016f7; 0x4969474d; 0x3e6e77db; 0xaed16a4a; 0xd9d65adc;
  0x40df0b66; 0x37d83bf0; 0xa9bcae53; 0xdebb9ec5; 0x47b2cf7f; 0x30b5ffe9;
  0xbdbdf21c; 0xcabac28a; 0x53b39330; 0x24b4a3a6; 0xbad03605; 0xcdd70693;
  0x54de5729; 0x23d967bf; 0xb3667a2e; 0xc4614ab8; 0x5d681b02; 0x2a6f2b94;
  0xb40bbe37; 0xc30c8ea1; 0x5a05df1b; 0x2d02ef8d
].

(** [Zipper._CRC_TABLE] of src/src/zip.js. *)
Definition Zipper_CRC_TABLE : list Z := [
  0; 1996959894; 3993919788; 2567524794; 124634137; 1886057615; 3915621685; 2657392035; 249268274; 2044508324;
  3772115230; 2547177864; 162941995; 2125561021; 3887607047; 2428444049; 498536548; 1789927666; 4089016648; 2227061214;
  450548861; 1843258603; 4107580753; 2211677639; 325883990; 1684777152; 4251122042; 2321926636; 335633487; 1661365465;
  4195302755; 2366115317; 997073096; 1281953886; 3579855332; 2724688242; 1006888145; 1258607687; 3524101629; 2768942443;
  901097722; 1119000684; 3686517206; 2898065728; 853044451; 1172266101; 3705015759; 2882616665; 651767980; 1373503546;
  3369554304; 3218104598; 565507253; 1454621731; 3485111705; 3099436303; 671266974; 1594198024; 3322730930; 2970347812;
  795835527; 1483230225; 3244367275; 3060149565; 1994146192; 31158534; 2563907772; 4023717930; 1907459465; 112637215;
  2680153253; 3904427059; 2013776290; 251722036; 2517215374; 3775830040; 2137656763; 141376813; 2439277719; 3865271297;
  1802195444; 476864866; 2238001368; 4066508878; 1812370925; 453092731; 2181625025; 4111451223; 1706088902; 314042704;
  2344532202; 4240017532; 1658658271; 366619977; 2362670323; 4224994405; 1303535960; 984961486; 2747007092; 3569037538;
  1256170817; 1037604311; 2765210733; 3554079995; 1131014506; 879679996; 2909243462; 3663771856; 1141124467; 855842277;
  2852801631; 3708648649; 1342533948; 654459306; 3188396048; 3373015174; 1466479909; 544179635; 3110523913; 3462522015;
  1591671054; 702138776; 2966460450; 3352799412; 1504918807; 783551873; 3082640443; 3233442989; 3988292384; 2596254646;
  62317068; 1957810842; 3939845945; 2647816111; 81470997; 1943803523; 3814918930; 2489596804; 225274430; 2053790376;
  3826175755; 2466906013; 167816743; 2097651377; 4027552580; 2265490386; 503444072; 1762050814; 4150417245; 2154129355;
  426522225; 1852507879; 4275313526; 2312317920; 282753626; 1742555852; 4189708143; 2394877945; 397917763; 1622183637;
  3604390888; 2714866558; 953729732; 1340076626; 3518719985; 2797360999; 1068828381; 1219638859; 3624741850; 2936675148;
  906185462; 1090812512; 3747672003; 2825379669; 829329135; 1181335161; 3412177804; 3160834842; 628085408; 1382605366;
  3423369109; 3138078467; 570562233; 1426400815; 3317316542; 2998733608; 733239954; 1555261956; 3268935591; 3050360625;
  752459403; 1541320221; 2607071920; 3965973030; 1969922972; 40735498; 2617837225; 3943577151; 1913087877; 83908371;
  2512341634; 3803740692; 2075208622; 213261112; 2463272603; 3855990285; 2094854071; 198958881; 2262029012; 4057260610;
  1759359992; 534414190; 2176718541; 4139329115; 1873836001; 414664567; 2282248934; 4279200368; 1711684554; 285281116;
  2405801727; 4167216745; 1634467795; 376229701; 2685067896; 3608007406; 1308918612; 956543938; 2808555105; 3495958263;
  1231636301; 1047427035; 2932959818; 3654703836; 1088359270; 936918000; 2847714899; 3736837829; 1202900863; 817233897;
  3183342108; 3401237130; 1404277552; 615818150; 3134207493; 3453421203; 1423857449; 601450431; 3009837614; 3294710456;
  1567103746; 711928724; 3020668471; 3272380065; 1510334235; 755167117
].

(** One iteration of the loop body
    [crc = (crc >>> 8) ^ TABLE[(crc ^ bytes[i]) & 0xFF]]. *)
Definition crc_update (table : list Z) (crc byte : Z) : Z :=
  xor (ushr crc 8) (index table (and (xor crc byte) 0xFF)).

(** The loop of [bytesToCrc32], started from an accumulator. *)
Definition crc_loop (table : list Z) (crc : Z) (bytes : Uint8Array) : Z :=
  fold_left (crc_update table) bytes crc.

(** The closing expression [(crc ^ (-1)) >>> 0]. *)
Definition crc_finish (crc : Z) : Z := ushr (xor crc (-1)) 0.

(** [bytesToCrc32] of src/zip.js. *)
Definition bytesToCrc32 (bytes : Uint8Array) : Z :=
  crc_finish (crc_loop CRC_TABLE (-1) bytes).

(** [Zipper.bytesToCrc32] of src/src/zip.js. *)
Definition Zipper_bytesToCrc32 (bytes : Uint8Array) : Z :=
  crc_finish (crc_loop Zipper_CRC_TABLE (-1) bytes).

(** *** The reference: bit-serial reflected CRC-32

    Written after the specification's words: polynomial 0xEDB88320,
    register initialised to all ones, every input byte xor-ed into the
    low end of the register and shifted out in eight steps, result
    complemented. *)
Definition POLY : Z := 0xEDB88320.

Definition bit_step (c : Z) : Z :=
  if Z.odd c then Z.lxor (Z.shiftr c 1) POLY else Z.shiftr c 1.

Definition bit_steps (n : nat) (c : Z) : Z := Nat.iter n bit_step c.

Definition ref_byte (c b : Z) : Z := bit_steps 8 (Z.lxor c b).

Definition crc32_ref (bytes : list Z) : Z :=
  Z.lxor (fold_left ref_byte bytes 0xFFFFFFFF) 0xFFFFFFFF.

(** The table that the reference induces: entry [k] is the register
    after shifting out the byte [k]. *)
Definition ref_table : list Z :=
  map (fun k => bit_steps 8 (Z.of_nat k)) (seq 0 256).

End Crc.


(** ** Field codecs shared by the builders

    [numberToBytes] is the same function in src/zip.js, src/tar.js and
    (as [Zipper.numberToBytes]) in src/src/zip.js; [stringToBytes] with
    its optional length is the one of src/zip.js and src/tar.js. *)

Module Codec.
Import JS.

(** [numberToBytes(n, len)]: least significant byte first. *)
Fixpoint numberToBytes (n : Z) (len : nat) : Uint8Array :=
  match len with
  | O => []
  | S len' => u8 (and n 0xFF) :: numberToBytes (shr n 8) len'
  end.

(** [stringToBytes(str, len)]: reading past the end of the string gives
    NaN, which a [Uint8Array] stores as 0. *)
Definition stringToBytes (str : jsstring) (len : option nat) : Uint8Array :=
  let n := match len with Some n => n | None => List.length str end in
  map (fun i => match nth_error str i with
                | Some c => u8 c
                | None => 0
                end) (seq 0 n).

(** The unsigned number that a little-endian field holds. *)
Definition le_value (bytes : Uint8Array) : Z :=
  fold_right (fun b acc => b + 256 * acc) 0 bytes.

(** [parts.reduce((total, part) => total + part.length, 0)] of
    src/src/zip.js: the number of bytes in a list of segments. *)
Definition totalLength (parts : list Uint8Array) : Z :=
  fold_left (fun total part => total + len part) parts 0.

(** [new Uint8Array(n)]: [n] zero bytes. *)
Definition zeros (n : nat) : Uint8Array := repeat 0 n.

End Codec.

(** ** The entries-based builder (src/zip.js) *)

Module ZipJs.
Import JS Codec.

(** The [Error]s the builder throws, one constructor per message. *)
Inductive error : Type :=
| PathEmpty               (* 'path is empty' *)
| PathTooLong             (* 'path exceeds maximum of 65535 characters.' *)
| PathExists              (* 'path already exists.' *)
| CollidesWithFolder      (* 'path collides with an existing folder.' *)
| ParentCollidesWithFile  (* 'path parent folder collides with an existing file.' *)
| BadData                 (* 'Data must be one of the following: ...' *)
| DataTooLarge            (* 'data exceeds maximum size of 4294967295 bytes' *)
| CommentTooLong.         (* 'Comment exceeds maximum of 65535 characters.' *)

Inductive outcome (A : Type) : Type :=
| Return (a : A)
| Throw (e : error).
Arguments Return {A} a.
Arguments Throw {A} e.

Record entry : Type := mkEntry { path : jsstring; data : Uint8Array }.

(** The object state: [this._entries]. *)
Record Zipper : Type := mkZipper { _entries : list entry }.

(** *** Path normalisation *)

(** The chain of replacements at the head of [addEntry]. *)
Definition normalizePath (p : jsval) : jsstring :=
  stripTrailingSlash
    (stripLeadingSlash
       (trim (collapseSlashes (removeFirstControl (ToString p))))).

(** *** Look-ups *)

(** [getFile]: the first entry whose path is [p]. *)
Definition getFile (z : Zipper) (p : jsstring) : option entry :=
  find (fun e => str_eqb (path e) p) (_entries z).

Definition hasFile (z : Zipper) (p : jsstring) : bool :=
  match getFile z p with Some _ => true | None => false end.

(** [getFolder]: the first entry whose path starts with [p + '/']. *)
Definition getFolder (z : Zipper) (p : jsstring) : option entry :=
  find (fun e => startsWith (path e) (p ++ [47])) (_entries z).

Definition hasFolder (z : Zipper) (p : jsstring) : bool :=
  match getFolder z p with Some _ => true | None => false end.

Definition getFiles (z : Zipper) : list jsstring := map path (_entries z).

Definition count (z : Zipper) : Z := len (_entries z).

(** [s.split('/')] *)
Fixpoint split (s : jsstring) : list jsstring :=
  match s with
  | [] => [[]]
  | c :: r =>
      if c =? 47 then [] :: split r
      else match split r with
           | h :: t => (c :: h) :: t
           | [] => [[c]]
           end
  end.

(** [getFolderPathsFromPath]: "my/file/here.txt" gives ["my", "my/file"]. *)
Definition getFolderPathsFromPath (p : jsstring) : list jsstring :=
  let arr := if str_eqb p [] then [] else split p in
  map (fun i => join [47] (firstn i arr)) (seq 1 (List.length arr - 1)).

(** *** Payload coercion: the [instanceof] / [typeof] chain *)

Definition coerceData (d : jsval) : outcome Uint8Array :=
  match d with
  | VUint8Array b => Return b
  | VStr s => Return (stringToBytes s None)
  | VArrayBuffer b => Return b
  | VView l => Return (map u8 l)
  | VArray l => Return (map u8 l)
  | _ => if negb (truthy d) then Return [] else Throw BadData
  end.

(** *** [addEntry]

    The result pairs what the call returns or throws with the object
    state it leaves behind. *)
Definition addEntry (z : Zipper) (p d : jsval) : outcome Z * Zipper :=
  let p := normalizePath p in
  if len p =? 0 then (Throw PathEmpty, z)
  else if len p >? 0xFFFF then (Throw PathTooLong, z)
  else if hasFile z p then (Throw PathExists, z)
  else if hasFolder z p then (Throw CollidesWithFolder, z)
  else if existsb (hasFile z) (getFolderPathsFromPath p)
       then (Throw ParentCollidesWithFile, z)
  else match coerceData d with
       | Throw e => (Throw e, z)
       | Return b =>
           if len b >? 0xFFFFFFFF then (Throw DataTooLarge, z)
           else let z' := mkZipper (_entries z ++ [mkEntry p b]) in
                (Return (len (_entries z')), z')
       end.

(** The path checks of [addEntry], in the order in which it makes them,
    on a normalised path: [true] when none throws. *)
Definition pathAccepted (z : Zipper) (p : jsstring) : bool :=
  negb (len p =? 0)
  && negb (len p >? 0xFFFF)
  && negb (hasFile z p)
  && negb (hasFolder z p)
  && negb (existsb (hasFile z) (getFolderPathsFromPath p)).

(** *** Field codecs *)

(** [validateComment(str)] *)
Definition validateComment (str : jsval) : outcome jsstring :=
  match str with
  | VUndefined | VNull => Return []
  | _ =>
      let str := ToString str in
      if len str >? 0xFFFF then Throw CommentTooLong else Return str
  end.

(** [concatArrays(a, b, ...)] *)
Definition concatArrays (args : list Uint8Array) : Uint8Array :=
  List.concat args.

(** *** Computations that read the clock and may throw *)

Definition M (A : Type) : Type := Clock -> nat -> outcome (A * nat).

Definition ret {A} (a : A) : M A := fun _ t => Return (a, t).

Definition bind {A B} (m : M A) (k : A -> M B) : M B :=
  fun clk t =>
    match m clk t with
    | Return (a, t') => k a clk t'
    | Throw e => Throw e
    end.

Definition lift {A} (o : outcome A) : M A :=
  fun _ t =>
    match o with
    | Return a => Return (a, t)
    | Throw e => Throw e
    end.

(** [new Date()] *)
Definition newDate : M Date := fun clk t => Return (clk t, S t).

Notation "x <- m ;; k" := (bind m (fun x => k))
  (at level 61, m at next level, right associativity).

(** [dateToBytes(date)]: four bytes, time then date. *)
Definition dateToBytes (date : option Date) : M Uint8Array :=
  date <- match date with
          | Some d => ret d      (* new Date(date) *)
          | None => newDate      (* new Date() *)
          end ;;
  let h := getHours date in
  let m := getMinutes date in
  let s := getSeconds date in
  let year := getFullYear date - 1980 in
  let month := getMonth date + 1 in
  let day := getDate date in
  ret (map u8
         [ shl h 3 + shr m 3;
           and (shl m 5) 0xFF + shr s 1;
           shl year 1 + shr month 3;
           and (shl month 5) 0xFF + day ]).

(** *** Header codecs *)

(** The properties of the [options] object of [getLocalFileHeader]. *)
Record lfh_options : Type := mkLfh {
  lfh_checksum : Z;
  lfh_size : Z;
  lfh_path : jsstring;
  lfh_date : option Date
}.

(** [options.path || 'untitled'] *)
Definition pathOrUntitled (p : jsstring) : jsstring :=
  if str_eqb p [] then lit "untitled" else p.

Definition getLocalFileHeader (options : lfh_options) : M Uint8Array :=
  let checksum := lfh_checksum options in
  let size := lfh_size options in
  let path := pathOrUntitled (lfh_path options) in
  let date := lfh_date options in
  let extra : jsstring := [] in
  dateBytes <- dateToBytes date ;;
  ret (concatArrays
         [ [0x50; 0x4b; 0x03; 0x04];
           [0x0a; 0x00];
           [0; 0];
           [0; 0];
           dateBytes;
           numberToBytes checksum 4;
           numberToBytes size 4;
           numberToBytes size 4;
           numberToBytes (len path) 2;
           numberToBytes (len extra) 2;
           stringToBytes path None;
           stringToBytes extra None ]).

(** The properties of the [options] object of
    [getCentralDirectoryHeader]; [cdh_comment] is [VUndefined] when the
    caller sets none. *)
Record cdh_options : Type := mkCdh {
  cdh_date : option Date;
  cdh_checksum : Z;
  cdh_size : Z;
  cdh_path : jsstring;
  cdh_comment : jsval;
  cdh_offset : Z
}.

(** [v || ''] *)
Definition orEmpty (v : jsval) : jsval := if truthy v then v else VStr [].

Definition getCentralDirectoryHeader (options : cdh_options) : M Uint8Array :=
  let date := cdh_date options in
  let checksum := cdh_checksum options in
  let size := cdh_size options in
  let path := pathOrUntitled (cdh_path options) in
  let extra : jsstring := [] in
  comment <- lift (validateComment (orEmpty (cdh_comment options))) ;;
  let offset := cdh_offset options in
  dateBytes <- dateToBytes date ;;
  ret (concatArrays
         [ [0x50; 0x4b; 0x01; 0x02];
           [0x1e; 0x03];
           [0x0a; 0x00];
           [0; 0];
           [0; 0];
           dateBytes;
           numberToBytes checksum 4;
           numberToBytes size 4;
           numberToBytes size 4;
           numberToBytes (len path) 2;
           numberToBytes (len extra) 2;
           numberToBytes (len comment) 2;
           [0; 0];
           [0; 0];
           [0x00; 0x00; 0xa4; 0x81];
           numberToBytes offset 4;
           stringToBytes path None;
           stringToBytes extra None;
           stringToBytes comment None ]).

Record eocd_options : Type := mkEocd {
  eocd_entries : Z;
  eocd_cdSize : Z;
  eocd_cdOffset : Z;
  eocd_comment : jsstring
}.

Definition getEOCDHeader (options : eocd_options) : Uint8Array :=
  let entries := eocd_entries options in
  let cdSize := eocd_cdSize options in
  let cdOffset := eocd_cdOffset options in
  let comment := eocd_comment options in
  concatArrays
    [ [0x50; 0x4b; 0x05; 0x06];
      [0; 0];
      [0; 0];
      numberToBytes entries 2;
      numberToBytes entries 2;
      numberToBytes cdSize 4;
      numberToBytes cdOffset 4;
      numberToBytes (len comment) 2;
      stringToBytes comment None ].

(** *** [_pack] *)

(** The variables of the loop of [_pack]. *)
Record packing : Type := mkPacking {
  parts : list Uint8Array;
  cd : list Uint8Array;
  offset : Z;
  cdSize : Z
}.

(** One iteration of the loop. *)
Definition packEntry (e : entry) (st : packing) : M packing :=
  let checksum := Crc.bytesToCrc32 (data e) in
  localHeader <- getLocalFileHeader
                   (mkLfh checksum (len (data e)) (path e) None) ;;
  cdHeader <- getCentralDirectoryHeader
                (mkCdh None checksum (len (data e)) (path e) VUndefined
                       (offset st)) ;;
  ret (mkPacking (parts st ++ [localHeader; data e])
                 (cd st ++ [cdHeader])
                 (offset st + (len localHeader + len (data e)))
                 (cdSize st + len cdHeader)).

Fixpoint packLoop (es : list entry) (st : packing) : M packing :=
  match es with
  | [] => ret st
  | e :: es' => st' <- packEntry e st ;; packLoop es' st'
  end.

(** [_pack(options)]; of [options] only the [comment] property is read
    ([VUndefined] when it is absent or [options] is). *)
Definition _pack (z : Zipper) (comment : jsval) : M (list Uint8Array) :=
  comment <- lift (validateComment (orEmpty comment)) ;;
  st <- packLoop (_entries z) (mkPacking [] [] 0 0) ;;
  let eocd := getEOCDHeader
                (mkEocd (len (cd st)) (cdSize st) (offset st) comment) in
  ret (parts st ++ cd st ++ [eocd]).

(** *** Closed forms

    What the header builders return when the clock reads [date], and the
    loop of [_pack] with the clock read at each header. *)
Definition dosBytes (date : Date) : Uint8Array :=
  map u8
    [ shl (getHours date) 3 + shr (getMinutes date) 3;
      and (shl (getMinutes date) 5) 0xFF + shr (getSeconds date) 1;
      shl (getFullYear date - 1980) 1 + shr (getMonth date + 1) 3;
      and (shl (getMonth date + 1) 5) 0xFF + getDate date ].

Definition localFileHeaderAt (date : Date) (e : entry) : Uint8Array :=
  let checksum := Crc.bytesToCrc32 (data e) in
  let size := len (data e) in
  let path := pathOrUntitled (path e) in
  [0x50; 0x4b; 0x03; 0x04; 0x0a; 0x00; 0; 0; 0; 0]
  ++ dosBytes date
  ++ numberToBytes checksum 4
  ++ numberToBytes size 4
  ++ numberToBytes size 4
  ++ numberToBytes (len path) 2
  ++ numberToBytes 0 2
  ++ stringToBytes path None.

Definition centralDirectoryHeaderAt (date : Date) (e : entry) (offset : Z)
    : Uint8Array :=
  let checksum := Crc.bytesToCrc32 (data e) in
  let size := len (data e) in
  let path := pathOrUntitled (path e) in
  [0x50; 0x4b; 0x01; 0x02; 0x1e; 0x03; 0x0a; 0x00; 0; 0; 0; 0]
  ++ dosBytes date
  ++ numberToBytes checksum 4
  ++ numberToBytes size 4
  ++ numberToBytes size 4
  ++ numberToBytes (len path) 2
  ++ numberToBytes 0 2
  ++ numberToBytes 0 2
  ++ [0; 0; 0; 0; 0x00; 0x00; 0xa4; 0x81]
  ++ numberToBytes offset 4
  ++ stringToBytes path None.

Fixpoint packedFrom (clk : Clock) (t : nat) (es : list entry) (st : packing)
    : packing :=
  match es with
  | [] => st
  | e :: es' =>
      let localHeader := localFileHeaderAt (clk t) e in
      let cdHeader := centralDirectoryHeaderAt (clk (S t)) e (offset st) in
      packedFrom clk (S (S t)) es'
        (mkPacking (parts st ++ [localHeader; data e])
                   (cd st ++ [cdHeader])
                   (offset st + (len localHeader + len (data e)))
                   (cdSize st + len cdHeader))
  end.

(** [p] is a folder that the path [q] implies: [q] goes on after [p]
    with a separator. *)
Definition isFolderOf (p q : jsstring) : Prop :=
  exists rest, q = p ++ [47] ++ rest.

(** The two collision errors. *)
Definition isCollision (e : error) : Prop :=
  e = CollidesWithFolder \/ e = ParentCollidesWithFile.

(** The variables of the loop before its first iteration. *)
Definition packing0 : packing := mkPacking [] [] 0 0.

(** The offset field of a central directory header: bytes 42 to 45. *)
Definition cdOffsetField (header : Uint8Array) : Z :=
  le_value (firstn 4 (skipn 42 header)).

End ZipJs.


(** ** The parts-based builder (src/src/zip.js) *)

Module ZipParts.
Import JS Codec.

(** The object state: [this._parts] (a header and a data segment per
    entry) and [this._cd] (a central directory header per entry). *)
Record Zipper : Type := mkZipper {
  _parts : list Uint8Array;
  _cd : list Uint8Array
}.

Definition empty : Zipper := mkZipper [] [].

(** *** Static helpers *)

(** [Zipper.bytesToString] *)
Definition bytesToString (bytes : Uint8Array) : jsstring :=
  map (fun b => b mod 2 ^ 16) bytes.

(** [Zipper.stringToBytes] *)
Definition stringToBytes (str : jsstring) : Uint8Array := map u8 str.

(** [Zipper.bytesToNumber]: the loop runs from the last byte down to the
    first. *)
Definition bytesToNumber (bytes : Uint8Array) : Z :=
  fold_right (fun b n => shl n 8 + and b 0xFF) 0 bytes.

(** [bytes.subarray(begin, end)] *)
Definition subarray (bytes : Uint8Array) (b e : nat) : Uint8Array :=
  firstn (e - b) (skipn b bytes).

(** [Zipper.dateToBytes] *)
Definition dateToBytes (date : Date) : Uint8Array :=
  let day := getDate date in
  let month := getMonth date + 1 in
  let year := getFullYear date - 1980 in
  let n := shl year 9 + shl month 5 + day in
  numberToBytes n 2.

(** [Zipper.timeToBytes]; [Math.floor(x * 0.5)] of an integer [x] is
    [x / 2] rounded down. *)
Definition timeToBytes (date : Date) : Uint8Array :=
  let h := getHours date in
  let m := getMinutes date in
  let s := getSeconds date / 2 in
  let n := shl h 11 + shl m 5 + s in
  numberToBytes n 2.

(** The calendar values the format can hold. *)
Definition dos_valid (date : Date) : Prop :=
  1980 <= getFullYear date <= 2107 /\
  0 <= getMonth date <= 11 /\
  1 <= getDate date <= 31 /\
  0 <= getHours date <= 23 /\
  0 <= getMinutes date <= 59 /\
  0 <= getSeconds date <= 59.

Section Decoders.
(** The local-time reading of [new Date(0)]. *)
Variable epoch : Date.

(** [Zipper.bytesToDate] *)
Definition bytesToDate (bytes : Uint8Array) : Date :=
  let n := bytesToNumber bytes in
  let day := and n 31 in
  let month := and (shr n 5) 15 - 1 in
  let year := and (shr n 9) 127 + 1980 in
  let d := epoch in
  setFullYear d year month day.

(** [Zipper.bytesToTime] *)
Definition bytesToTime (bytes : Uint8Array) : Date :=
  let n := bytesToNumber bytes in
  let seconds := and n 31 * 2 in
  let minutes := and (shr n 5) 63 in
  let hours := and (shr n 11) 31 in
  let d := epoch in
  let d := setHours d hours in
  let d := setMinutes d minutes in
  setSeconds d seconds.

End Decoders.

(** *** Methods *)

(** [getNames]: the names are decoded from the central directory. *)
Definition getNames (z : Zipper) : list jsstring :=
  map (fun bytes =>
         let filenameLength := bytesToNumber (subarray bytes 28 30) in
         bytesToString
           (subarray bytes 46 (Z.to_nat (46 + filenameLength))))
      (_cd z).

Definition count (z : Zipper) : Z := len (_cd z).

(** The conversion of [data] to a [Uint8Array]; [None] is the final
    [else] branch, which warns and skips. *)
Definition coerceData (d : jsval) : option Uint8Array :=
  match d with
  | VUint8Array b => Some b
  | VStr s => Some (stringToBytes s)
  | VArrayBuffer b => Some b
  | VView l => Some (map u8 l)
  | VArray l => Some (map u8 l)
  | _ => if negb (truthy d) then Some [] else None
  end.

(** The local file header built by [_addEntry]. *)
Definition localHeader (date : Date) (filename : jsstring)
    (data : Uint8Array) : Uint8Array :=
  let checksum := Crc.Zipper_bytesToCrc32 data in
  let extraField : jsstring := [] in
  let timeBytes := timeToBytes date in
  let dateBytes := dateToBytes date in
  let checksumBytes := numberToBytes checksum 4 in
  let sizeBytes := numberToBytes (len data) 4 in
  let filenameLengthBytes := numberToBytes (len filename) 2 in
  let extraFieldLengthBytes := numberToBytes (len extraField) 2 in
  let filenameBytes := stringToBytes filename in
  let extraFieldBytes := stringToBytes extraField in
  map u8
    ([0x50; 0x4b; 0x03; 0x04;
      0x0a; 0x00;
      0x00; 0x00;
      0x00; 0x00]
     ++ timeBytes
     ++ dateBytes
     ++ checksumBytes
     ++ sizeBytes
     ++ sizeBytes
     ++ filenameLengthBytes
     ++ extraFieldLengthBytes
     ++ filenameBytes
     ++ extraFieldBytes).

(** The central directory header built by [_addEntry]. *)
Definition cdHeader (date : Date) (filename : jsstring)
    (data : Uint8Array) (isFolder : bool) (offset : Z) : Uint8Array :=
  let checksum := Crc.Zipper_bytesToCrc32 data in
  let extraField : jsstring := [] in
  let fileComment : jsstring := [] in
  let timeBytes := timeToBytes date in
  let dateBytes := dateToBytes date in
  let checksumBytes := numberToBytes checksum 4 in
  let sizeBytes := numberToBytes (len data) 4 in
  let filenameLengthBytes := numberToBytes (len filename) 2 in
  let extraFieldLengthBytes := numberToBytes (len extraField) 2 in
  let filenameBytes := stringToBytes filename in
  let extraFieldBytes := stringToBytes extraField in
  let diskStartBytes := numberToBytes 0 2 in
  let offsetBytes := numberToBytes offset 4 in
  let externalBytes :=
    if isFolder then [0x10; 0x00; 0xed; 0x41] else [0x00; 0x00; 0xa4; 0x81] in
  let fileCommentBytes := stringToBytes fileComment in
  let fileCommentLengthBytes := numberToBytes (len fileCommentBytes) 2 in
  map u8
    ([0x50; 0x4b; 0x01; 0x02;
      0x1e; 0x03;
      0x0a; 0x00;
      0x00; 0x00;
      0x00; 0x00]
     ++ timeBytes
     ++ dateBytes
     ++ checksumBytes
     ++ sizeBytes
     ++ sizeBytes
     ++ filenameLengthBytes
     ++ extraFieldLengthBytes
     ++ fileCommentLengthBytes
     ++ diskStartBytes
     ++ [0x00; 0x00]
     ++ externalBytes
     ++ offsetBytes
     ++ filenameBytes
     ++ extraFieldBytes
     ++ fileCommentBytes).

(** The three replacements at the head of [_addEntry]. *)
Definition normalizeFilename (filename : jsstring) : jsstring :=
  stripTrailingSlash (stripLeadingSlash (collapseSlashes filename)).

(** [_addEntry(filename, data, isFolder)]; [now] is what [new Date()]
    returns when the call reaches it.  Every rejected call warns on the
    console and returns the unchanged count.  The result is the returned
    count and the object state after the call. *)
Definition _addEntry (z : Zipper) (now : Date) (filename data : jsval)
    (isFolder : bool) : Z * Zipper :=
  match filename with
  | VStr filename =>
      let filename := normalizeFilename filename in
      if len filename =? 0 then (len (_cd z), z)
      else
        let filename :=
          if isFolder && negb (endsWithSlash filename)
          then filename ++ [47] else filename in
        if len filename >? 0xFF then (len (_cd z), z)
        else if existsb (str_eqb filename) (getNames z) then (len (_cd z), z)
        else match coerceData data with
             | None => (len (_cd z), z)
             | Some data =>
                 if len data >? 0xFFFFFFFF then (len (_cd z), z)
                 else
                   let date := now in
                   let offset := totalLength (_parts z) in
                   let z' :=
                     mkZipper
                       (_parts z ++ [localHeader date filename data; data])
                       (_cd z ++ [cdHeader date filename data isFolder offset])
                   in (len (_cd z'), z')
             end
  | _ => (len (_cd z), z)
  end.

(** The filename checks of [_addEntry] for a file, on a normalised
    name: [true] when the call is not skipped for its name. *)
Definition filenameAccepted (z : Zipper) (filename : jsstring) : bool :=
  negb (len filename =? 0)
  && negb (len filename >? 0xFF)
  && negb (existsb (str_eqb filename) (getNames z)).

(** [_getEOCD(comment)] *)
Definition coerceComment (comment : jsval) : jsstring :=
  if negb (truthy comment) then []
  else match comment with
       | VStr s => if len s >? 65535 then substr0 s (Z.to_nat 65535) else s
       | _ => []
       end.

Definition _getEOCD (z : Zipper) (comment : jsval) : Uint8Array :=
  let comment := coerceComment comment in
  let numEntries := len (_cd z) in
  let cdSize := totalLength (_cd z) in
  let cdOffset := totalLength (_parts z) in
  let numEntriesBytes := numberToBytes numEntries 2 in
  let cdSizeBytes := numberToBytes cdSize 4 in
  let cdOffsetBytes := numberToBytes cdOffset 4 in
  let commentLengthBytes := numberToBytes (len comment) 2 in
  let commentBytes := stringToBytes comment in
  map u8
    ([0x50; 0x4b; 0x05; 0x06;
      0x00; 0x00;
      0x00; 0x00]
     ++ numEntriesBytes
     ++ numEntriesBytes
     ++ cdSizeBytes
     ++ cdOffsetBytes
     ++ commentLengthBytes
     ++ commentBytes).

Definition addFolder (z : Zipper) (now : Date) (path : jsval) : Z * Zipper :=
  _addEntry z now path VNull true.

Definition addFile (z : Zipper) (now : Date) (path data : jsval)
    : Z * Zipper :=
  _addEntry z now path data false.

(** [pop]: [Array.prototype.pop] leaves an empty array empty. *)
Definition pop (z : Zipper) : Z * Zipper :=
  let cd := removelast (_cd z) in
  let parts := removelast (removelast (_parts z)) in
  (len cd, mkZipper parts cd).

(** [toUint8Array(comment)]: every part is copied to its offset in a
    fresh array. *)
Definition toUint8Array (z : Zipper) (comment : jsval) : Uint8Array :=
  let parts := _parts z ++ _cd z ++ [_getEOCD z comment] in
  List.concat parts.

(** The calls a client can make, with the clock reading and arguments of
    each, and the state they lead to. *)
Inductive call : Type :=
| AddFile (now : Date) (path data : jsval)
| AddFolder (now : Date) (path : jsval)
| Pop.

Definition run_call (z : Zipper) (c : call) : Z * Zipper :=
  match c with
  | AddFile now p d => addFile z now p d
  | AddFolder now p => addFolder z now p
  | Pop => pop z
  end.

Definition run (z : Zipper) (cs : list call) : Zipper :=
  fold_left (fun z c => snd (run_call z c)) cs z.

(** *** The entries behind a state

    What an accepted call of [_addEntry] contributes: its clock reading,
    the stored filename, the converted data, the folder flag and the
    offset it computed.  [partsOf] and [cdOf] are the segments such
    entries leave in [_parts] and [_cd]. *)
Record registered : Type := mkRegistered {
  r_date : Date;
  r_filename : jsstring;
  r_data : Uint8Array;
  r_isFolder : bool;
  r_offset : Z
}.

Definition partsOf (es : list registered) : list Uint8Array :=
  flat_map (fun e => [localHeader (r_date e) (r_filename e) (r_data e);
                      r_data e]) es.

Definition cdOf (es : list registered) : list Uint8Array :=
  map (fun e => cdHeader (r_date e) (r_filename e) (r_data e)
                         (r_isFolder e) (r_offset e)) es.

Definition holds (z : Zipper) (es : list registered) : Prop :=
  _parts z = partsOf es /\ _cd z = cdOf es.

(** Every entry's offset is the number of bytes of the parts before
    it. *)
Definition cumulative (es : list registered) : Prop :=
  forall i e, nth_error es i = Some e ->
              r_offset e = totalLength (partsOf (firstn i es)).

(** The offset field of a central directory header: bytes 42 to 45. *)
Definition cdOffsetField (header : Uint8Array) : Z :=
  le_value (subarray header 42 46).

End ZipParts.


(** ** The TAR builder (src/tar.js) *)

Module Tar.
Import JS Codec.

(** [sumOfArrays(a, b, ...)] *)
Definition sumOfArrays (args : list Uint8Array) : Z :=
  fold_left (fun sum arr => fold_left Z.add arr sum) args 0.

(** [str.substr(str.length - n)] *)
Definition lastChars (n : nat) (str : jsstring) : jsstring :=
  skipn (List.length str - n) str.

(** [getTarHeader(options)]; [seconds] stands for
    [Math.floor(Number(date) * 0.001)], the clock reading in seconds. *)
Definition getTarHeader (path : jsstring) (size seconds : Z) : Uint8Array :=
  let pathBytes := stringToBytes path (Some 100%nat) in
  let modeBytes := stringToBytes (lit "000644 ") (Some 8%nat) in
  let ownerBytes := stringToBytes (lit "000000 ") (Some 8%nat) in
  let groupBytes := stringToBytes (lit "000000 ") (Some 8%nat) in
  let sizeStr := lit "00000000000" ++ toStringRadix 10 size ++ lit " " in
  let sizeStr := lastChars 12 sizeStr in
  let sizeBytes := stringToBytes sizeStr (Some 12%nat) in
  let dateStr := lit "00000000000" ++ toStringRadix 8 seconds ++ lit " " in
  let dateStr := lastChars 12 dateStr in
  let dateBytes := stringToBytes dateStr (Some 12%nat) in
  let linkBytes := stringToBytes (lit "0") None in
  let linkPathBytes := stringToBytes [] (Some 100%nat) in
  let sum :=
    sumOfArrays
      [ pathBytes; modeBytes; ownerBytes; groupBytes; sizeBytes; dateBytes;
        [32; 32; 32; 32; 32; 32; 32; 32];
        linkBytes; linkPathBytes ] in
  let checksumStr := lit "000000" ++ toStringRadix 8 sum in
  let checksumStr := lastChars 6 checksumStr in
  let checksumBytes :=
    List.concat [stringToBytes checksumStr None; [0; 32]] in
  List.concat
    [ pathBytes; modeBytes; ownerBytes; groupBytes; sizeBytes; dateBytes;
      checksumBytes; linkBytes; linkPathBytes; zeros 255 ].

Record file : Type := mkFile { path : jsstring; data : Uint8Array }.

(** The object state: [this._files]. *)
Record Zipper : Type := mkZipper { _files : list file }.

(** [addFile(path, data)] stores its arguments as they are. *)
Definition addFile (z : Zipper) (p : jsstring) (d : Uint8Array)
    : Z * Zipper :=
  let z' := mkZipper (_files z ++ [mkFile p d]) in
  (len (_files z'), z').

(** The segments that one iteration of the loop of [_pack] pushes. *)
Definition packFile (seconds : Z) (f : file) : list Uint8Array :=
  let header := getTarHeader (path f) (len (data f)) seconds in
  let pad := 512 - len (data f) mod 512 in
  [header; data f] ++ (if pad >? 0 then [zeros (Z.to_nat pad)] else []).

(** [_pack(options)]; [clock t] is the reading, in seconds, of the
    [t]-th [new Date()]: each header reads the clock once. *)
Fixpoint packFrom (clock : nat -> Z) (t : nat) (fs : list file)
    : list Uint8Array :=
  match fs with
  | [] => []
  | f :: fs' => packFile (clock t) f ++ packFrom clock (S t) fs'
  end.

Definition _pack (clock : nat -> Z) (z : Zipper) : list Uint8Array :=
  packFrom clock 0 (_files z).

(** The data region of a file inside the segments of [packFile]: all
    that follows the header. *)
Definition dataRegion (seconds : Z) (f : file) : Uint8Array :=
  List.concat (tl (packFile seconds f)).

End Tar.


(** ** The experimental streaming builder *)

Module Stream.
Import JS.

Section Helpers.

(** The names that the stream class uses but does not define.

    Modelled from the spec: [CRC_TABLE] is the precomputed 256-entry
    table of the checksum engine, [numberToBytes] and [stringToBytes]
    the little-endian and byte-per-character encoders, [timeToBytes] and
    [dateToBytes] the MS-DOS packings. *)
Variable CRC_TABLE : list Z.
Variable numberToBytes : Z -> nat -> Uint8Array.
Variable stringToBytes : jsstring -> Uint8Array.
Variable timeToBytes : Date -> Uint8Array.
Variable dateToBytes : Date -> Uint8Array.

(** The object state: the chunks enqueued on [this.readable] so far,
    [this._totalBytes] and [this._cd]. *)
Record ZipperStream : Type := mkStream {
  enqueued : list Uint8Array;
  _totalBytes : Z;
  _cd : list Uint8Array
}.

Definition empty : ZipperStream := mkStream [] 0 [].

(** [_enqueue(chunk)], the controller being in place since the
    constructor. *)
Definition _enqueue (z : ZipperStream) (chunk : Uint8Array) : ZipperStream :=
  mkStream (enqueued z ++ [chunk]) (_totalBytes z + len chunk) (_cd z).

(** The variables of the read loop of [addStream]. *)
Record reading : Type := mkReading {
  crc : Z;
  fileLength : Z;
  i : Z;
  sink : ZipperStream
}.

(** The inner loop [while (i < fileLength) { crc = ...value[i]...; i++ }]:
    [i] keeps counting across chunks and indexes the current chunk. *)
Definition foldChunk (value : Uint8Array) (crc i fileLength : Z) : Z :=
  fold_left
    (fun crc k => Crc.crc_update CRC_TABLE crc (index value (i + Z.of_nat k)))
    (seq 0 (Z.to_nat (fileLength - i)))
    crc.

(** The outer loop over what [readStream.read()] delivers; the list is
    the sequence of chunks before [done].  A chunk that takes the length
    past 0xFFFFFFFF cancels the source and leaves the loop. *)
Fixpoint readLoop (chunks : list Uint8Array) (r : reading) : reading :=
  match chunks with
  | [] => r
  | value :: rest =>
      let fileLength := fileLength r + len value in
      if fileLength >? 0xFFFFFFFF
      then mkReading (crc r) fileLength (i r) (sink r)
      else
        let sink := _enqueue (sink r) value in
        let crc := foldChunk value (crc r) (i r) fileLength in
        let i := Z.max (i r) fileLength in
        readLoop rest (mkReading crc fileLength i sink)
  end.

(** The Data Descriptor that [addStream] enqueues. *)
Definition dataDescriptor (checksum fileLength : Z) : Uint8Array :=
  let checksumBytes := numberToBytes checksum 4 in
  let sizeBytes := numberToBytes fileLength 4 in
  map u8 ([0x50; 0x4b; 0x07; 0x08]
          ++ checksumBytes ++ sizeBytes ++ sizeBytes).

(** [addStream(filename, readStream)]; [None] stands for the calls that
    end without a count (the rejected ones). *)
Definition addStream (z : ZipperStream) (now : Date) (filename : jsval)
    (readStream : list Uint8Array) : option Z * ZipperStream :=
  match filename with
  | VStr filename =>
      let filename :=
        stripTrailingSlash (stripLeadingSlash (collapseSlashes filename)) in
      if len filename =? 0 then (None, z)
      else
        let offset := _totalBytes z in
        let currentDate := now in
        let extraField : jsstring := [] in
        let timeBytes := timeToBytes currentDate in
        let dateBytes := dateToBytes currentDate in
        let filenameLengthBytes := numberToBytes (len filename) 2 in
        let extraFieldLengthBytes := numberToBytes (len extraField) 2 in
        let filenameBytes := stringToBytes filename in
        let extraFieldBytes := stringToBytes extraField in
        let z :=
          _enqueue z
            (map u8
               ([0x50; 0x4b; 0x03; 0x04;
                 0x14; 0x00;
                 0x08; 0x00;
                 0x00; 0x00]
                ++ timeBytes
                ++ dateBytes
                ++ [0x00; 0x00; 0x00; 0x00;
                    0x00; 0x00; 0x00; 0x00;
                    0x00; 0x00; 0x00; 0x00]
                ++ filenameLengthBytes
                ++ extraFieldLengthBytes
                ++ filenameBytes
                ++ extraFieldBytes)) in
        let r := readLoop readStream (mkReading (-1) 0 0 z) in
        let z := sink r in
        if fileLength r >? 0xFFFFFFFF then (None, z)
        else
          let checksum := Crc.crc_finish (crc r) in
          let checksumBytes := numberToBytes checksum 4 in
          let sizeBytes := numberToBytes (fileLength r) 4 in
          let z := _enqueue z (dataDescriptor checksum (fileLength r)) in
          let fileComment : jsstring := [] in
          let diskStartBytes := numberToBytes 0 2 in
          let offsetBytes := numberToBytes offset 4 in
          let externalBytes := [0x00; 0x00; 0xa4; 0x81] in
          let fileCommentBytes := stringToBytes fileComment in
          let fileCommentLengthBytes :=
            numberToBytes (len fileCommentBytes) 2 in
          let cdHeader :=
            map u8
              ([0x50; 0x4b; 0x01; 0x02;
                0x2d; 0x03;
                0x14; 0x00;
                0x08; 0x00;
                0x00; 0x00]
               ++ timeBytes
               ++ dateBytes
               ++ checksumBytes
               ++ sizeBytes
               ++ sizeBytes
               ++ filenameLengthBytes
               ++ extraFieldLengthBytes
               ++ fileCommentLengthBytes
               ++ diskStartBytes
               ++ [0x00; 0x00]
               ++ externalBytes
               ++ offsetBytes
               ++ filenameBytes
               ++ extraFieldBytes
               ++ fileCommentBytes) in
          let z := mkStream (enqueued z) (_totalBytes z) (_cd z ++ [cdHeader]) in
          (Some (len (_cd z)), z)
  | _ => (None, z)
  end.

(** The comment that [finalise(comment)] writes: none for a falsy value
    or one that is not a string, the first 65535 characters of a longer
    string. *)
Definition finaliseComment (comment : jsval) : jsstring :=
  if negb (truthy comment) then []
  else
    match comment with
    | VStr s => if len s >? 65535 then firstn (Z.to_nat 65535) s else s
    | _ => []
    end.

(** [finalise(comment)]: the Central Directory records, then the End Of
    Central Directory record.  The closing of the controller leaves the
    three fields of the state as they are. *)
Definition finalise (z : ZipperStream) (comment : jsval) : ZipperStream :=
  let cdOffset := _totalBytes z in
  let numEntries := len (_cd z) in
  let '(z, cdSize) :=
    fold_left
      (fun '(z, cdSize) data => (_enqueue z data, cdSize + len data))
      (_cd z) (z, 0) in
  let comment := finaliseComment comment in
  let numEntriesBytes := numberToBytes numEntries 2 in
  let cdSizeBytes := numberToBytes cdSize 4 in
  let cdOffsetBytes := numberToBytes cdOffset 4 in
  let commentLengthBytes := numberToBytes (len comment) 2 in
  let commentBytes := stringToBytes comment in
  _enqueue z
    (map u8
       ([0x50; 0x4b; 0x05; 0x06;
         0x00; 0x00;
         0x00; 0x00]
        ++ numEntriesBytes
        ++ numEntriesBytes
        ++ cdSizeBytes
        ++ cdOffsetBytes
        ++ commentLengthBytes
        ++ commentBytes)).

End Helpers.

(** The stream class with the helpers of src/src/zip.js, whose names it
    uses, and the table of the checksum engine. *)
Definition addStreamWith :=
  addStream Crc.Zipper_CRC_TABLE Codec.numberToBytes ZipParts.stringToBytes
            ZipParts.timeToBytes ZipParts.dateToBytes.
Definition finaliseWith :=
  finalise Codec.numberToBytes ZipParts.stringToBytes.

(** The byte counter of the stream agrees with what was enqueued. *)
Definition accounted (z : ZipperStream) : Prop :=
  _totalBytes z = len (List.concat (enqueued z)).

(** The bytes that the read loop folds into the checksum when it starts
    a chunk with its counter at [i]: the elements [i], [i+1], ... of the
    chunk, as many as the chunk is long, [0] standing for a read past its
    end. *)
Fixpoint foldedBytes (i : Z) (chunks : list Uint8Array) : list Z :=
  match chunks with
  | [] => []
  | value :: rest =>
      map (fun k => index value (i + Z.of_nat k)) (seq 0 (List.length value))
      ++ foldedBytes (i + len value) rest
  end.

(** The CRC and size fields of a Data Descriptor: bytes 4-7 and 8-11. *)
Definition descriptorCrc (d : Uint8Array) : Z :=
  Codec.le_value (firstn 4 (skipn 4 d)).
Definition descriptorSize (d : Uint8Array) : Z :=
  Codec.le_value (firstn 4 (skipn 8 d)).

End Stream.


(** ** Notions used to state further properties *)

Module Notions.
Import JS Codec.

(** A string all of whose code units fit a byte. *)
Definition latin1 (s : jsstring) : Prop := Forall is_byte s.

(** The unsigned number in the [n]-byte field at position [pos] of a
    header. *)
Definition fieldAt (header : Uint8Array) (pos n : nat) : Z :=
  le_value (firstn n (skipn pos header)).

(** The MS-DOS time and date numbers of a calendar value. *)
Definition dosTime (d : Date) : Z :=
  getHours d * 2048 + getMinutes d * 32 + getSeconds d / 2.
Definition dosDate (d : Date) : Z :=
  (getFullYear d - 1980) * 512 + (getMonth d + 1) * 32 + getDate d.

End Notions.


(** ** The registry of src/zip.js over a sequence of calls *)

Module Registry.
Import JS ZipJs.

(** A sequence of [addEntry(path, data)] calls on one object; a call
    that throws is caught by the caller and the next one follows. *)
Definition addEntries (z : Zipper) (calls : list (jsval * jsval)) : Zipper :=
  fold_left (fun z c => snd (addEntry z (fst c) (snd c))) calls z.

(** What the checks of [addEntry] keep true of the entries. *)
Definition wellFormed (z : Zipper) : Prop :=
  NoDup (map path (_entries z)) /\
  (forall e, In e (_entries z) ->
             0 < len (path e) <= 0xFFFF /\ len (data e) <= 0xFFFFFFFF) /\
  (forall e1 e2, In e1 (_entries z) -> In e2 (_entries z) ->
                 ~ isFolderOf (path e1) (path e2)).

(** [t] is a run of consecutive characters of [s]. *)
Definition infix (t s : jsstring) : Prop :=
  exists x y, s = x ++ t ++ y.

(** [s] holds two separators in a row. *)
Definition hasDoubleSlash (s : jsstring) : Prop := infix [47; 47] s.

Fixpoint doubleSlashb (s : jsstring) : bool :=
  match s with
  | [] => false
  | c :: r => ((c =? 47) && headIsSlash r) || doubleSlashb r
  end.

End Registry.


(** ** Calls on the parts-based builder *)

Module PartsRun.
Import JS Codec ZipParts Notions.

(** The name under which [_addEntry] stores an entry: the normalised
    filename, with a separator after it for a folder. *)
Definition storedName (filename : jsstring) (isFolder : bool) : jsstring :=
  let n := normalizeFilename filename in
  if isFolder && negb (endsWithSlash n) then n ++ [47] else n.

(** A call whose filename, when it is a string, has only code units
    below 256. *)
Definition latin1Call (c : call) : Prop :=
  match c with
  | AddFile _ (VStr s) _ => latin1 s
  | AddFolder _ (VStr s) => latin1 s
  | _ => True
  end.

(** The names of the entries behind a state. *)
Definition namesOf (es : list registered) : list jsstring :=
  map r_filename es.

End PartsRun.


(** ** Reading the numeric fields of a TAR header *)

Module TarFields.
Import JS Codec.

(** The number that a string of digit characters denotes in a radix of
    at most ten. *)
Definition digitsValue (radix : Z) (chars : list Z) : Z :=
  fold_left (fun acc c => acc * radix + (c - 48)) chars 0.

(** The sum of the bytes of one array. *)
Definition sumBytes (bytes : Uint8Array) : Z := fold_left Z.add bytes 0.

End TarFields.


(** ** The folder listing of src/zip.js *)

Module Folders.
Import JS ZipJs.

(** A plain object used as a set of names is the list of its own keys in
    the order of their creation. *)
Definition hasKey (keys : list jsstring) (k : jsstring) : bool :=
  existsb (str_eqb k) keys.

(** [names[k] = 1] on an object created by [{}]: a key that is there
    keeps its place and a new one comes last.  The key [__proto__] is the
    accessor of [Object.prototype]: assigning a number through it changes
    nothing and creates no key. *)
Definition setKey (keys : list jsstring) (k : jsstring) : list jsstring :=
  if str_eqb k (lit "__proto__") then keys
  else if hasKey keys k then keys
  else keys ++ [k].

(** The array index that a key denotes: the canonical decimal string of
    an integer from 0 to 2^32 - 2. *)
Definition isDigit (c : Z) : bool := (48 <=? c) && (c <=? 57).

Definition arrayIndex (k : jsstring) : option Z :=
  match k with
  | [] => None
  | c :: r =>
      if forallb isDigit k
         && (negb (c =? 48) || (len r =? 0))
         && (len k <=? 10)
      then
        let n := fold_left (fun acc d => acc * 10 + (d - 48)) k 0 in
        if n <=? 4294967294 then Some n else None
      else None
  end.

Fixpoint insertIndex (k : Z * jsstring) (l : list (Z * jsstring))
    : list (Z * jsstring) :=
  match l with
  | [] => [k]
  | h :: t => if fst k <=? fst h then k :: l else h :: insertIndex k t
  end.

(** [Object.keys(o)]: the keys that are array indices in ascending
    numeric order, then the other keys in the order of their creation. *)
Definition objectKeys (keys : list jsstring) : list jsstring :=
  let indices :=
    flat_map (fun k => match arrayIndex k with
                       | Some n => [(n, k)]
                       | None => []
                       end) keys in
  let others :=
    filter (fun k => match arrayIndex k with
                     | Some _ => false
                     | None => true
                     end) keys in
  map snd (fold_right insertIndex [] indices) ++ others.

(** The object [names] when the two nested [forEach] loops of
    [getFolders] are done. *)
Definition folderNames (z : Zipper) : list jsstring :=
  fold_left
    (fun names file =>
       fold_left setKey (getFolderPathsFromPath (path file)) names)
    (_entries z) [].

(** [getFolders()] *)
Definition getFolders (z : Zipper) : list jsstring :=
  objectKeys (folderNames z).

End Folders.


(** * Properties *)

(** ** 32-bit conversions *)

Section Int32Facts.
Import JS.

Lemma lxor_mod_pow2 (a b n : Z) :
  0 <= n -> Z.lxor a b mod 2 ^ n = Z.lxor (a mod 2 ^ n) (b mod 2 ^ n).
Proof.
  intros Hn. rewrite <- !Z.land_ones by assumption.
  apply Z.bits_inj'. intros i Hi.
  rewrite Z.lxor_spec, !Z.land_spec, Z.lxor_spec.
  destruct (Z.testbit a i), (Z.testbit b i), (Z.testbit (Z.ones n) i); reflexivity.
Qed.

Lemma ToInt32_mod (x : Z) : ToInt32 x mod 2 ^ 32 = x mod 2 ^ 32.
Proof.
  unfold ToInt32.
  rewrite Zminus_mod, Zmod_mod, <- Zminus_mod.
  f_equal. ring.
Qed.

Lemma ToInt32_range (x : Z) : - 2 ^ 31 <= ToInt32 x < 2 ^ 31.
Proof.
  unfold ToInt32.
  pose proof (Z.mod_pos_bound (x + 2 ^ 31) (2 ^ 32) ltac:(lia)). lia.
Qed.

Lemma ToInt32_small (x : Z) : - 2 ^ 31 <= x < 2 ^ 31 -> ToInt32 x = x.
Proof.
  intros H. unfold ToInt32. rewrite Z.mod_small; lia.
Qed.

Lemma mod_mod_pow2 (x n m : Z) :
  0 <= n <= m -> (x mod 2 ^ m) mod 2 ^ n = x mod 2 ^ n.
Proof.
  intros H.
  apply Z.mod_mod_divide.
  exists (2 ^ (m - n)). rewrite <- Z.pow_add_r by lia. f_equal. lia.
Qed.

Lemma ToInt32_mod_pow2 (x n : Z) :
  0 <= n <= 32 -> ToInt32 x mod 2 ^ n = x mod 2 ^ n.
Proof.
  intros H. rewrite <- (mod_mod_pow2 (ToInt32 x) n 32) by assumption.
  rewrite ToInt32_mod. apply mod_mod_pow2. assumption.
Qed.

Lemma xor_ToUint32 (a b : Z) :
  ToUint32 (xor a b) = Z.lxor (ToUint32 a) (ToUint32 b).
Proof.
  unfold xor, ToUint32. rewrite lxor_mod_pow2 by lia.
  now rewrite !ToInt32_mod.
Qed.

Lemma and_0xFF (x : Z) : and x 0xFF = x mod 256.
Proof.
  unfold and. rewrite (ToInt32_small 0xFF) by lia.
  change 0xFF with (Z.ones 8). rewrite Z.land_ones by lia.
  apply (ToInt32_mod_pow2 x 8). lia.
Qed.

Lemma ushr_ToUint32 (a n : Z) : ushr a n = Z.shiftr (ToUint32 a) (n mod 32).
Proof. reflexivity. Qed.

End Int32Facts.

(** ** Checksum engine: the table-driven loop against the bit-serial
    reference *)

Section CrcFacts.
Import JS Crc.

Lemma lxor_range (a b n : Z) :
  0 <= n -> 0 <= a < 2 ^ n -> 0 <= b < 2 ^ n -> 0 <= Z.lxor a b < 2 ^ n.
Proof.
  intros Hn Ha Hb.
  assert (E : Z.lxor a b mod 2 ^ n = Z.lxor a b).
  { rewrite lxor_mod_pow2 by assumption. now rewrite !Z.mod_small. }
  rewrite <- E. apply Z.mod_pos_bound. apply Z.pow_pos_nonneg; lia.
Qed.

(** The shift register is linear over xor. *)
Lemma bit_step_lxor (x y : Z) :
  bit_step (Z.lxor x y) = Z.lxor (bit_step x) (bit_step y).
Proof.
  unfold bit_step.
  rewrite <- !Z.bit0_odd, Z.lxor_spec, Z.shiftr_lxor.
  set (p := Z.shiftr x 1). set (q := Z.shiftr y 1).
  destruct (Z.testbit x 0), (Z.testbit y 0); cbn [xorb];
    apply Z.bits_inj'; intros i _; rewrite ?Z.lxor_spec;
    destruct (Z.testbit p i), (Z.testbit q i), (Z.testbit POLY i);
    reflexivity.
Qed.

Lemma bit_steps_S (n : nat) (c : Z) :
  bit_steps (S n) c = bit_step (bit_steps n c).
Proof. reflexivity. Qed.

Lemma bit_steps_lxor (n : nat) (x y : Z) :
  bit_steps n (Z.lxor x y) = Z.lxor (bit_steps n x) (bit_steps n y).
Proof.
  induction n as [|n IH]; [reflexivity|].
  rewrite !bit_steps_S, IH. apply bit_step_lxor.
Qed.

Lemma bit_step_shiftl (y j : Z) :
  0 <= j -> bit_step (Z.shiftl y (j + 1)) = Z.shiftl y j.
Proof.
  intros Hj. unfold bit_step.
  rewrite <- Z.bit0_odd, Z.shiftl_spec_low by lia.
  rewrite Z.shiftr_shiftl_l by lia. f_equal. lia.
Qed.

Lemma bit_steps_shiftl (n : nat) (y j : Z) :
  0 <= j -> bit_steps n (Z.shiftl y (Z.of_nat n + j)) = Z.shiftl y j.
Proof.
  revert j. induction n as [|n IH]; intros j Hj.
  - reflexivity.
  - rewrite bit_steps_S.
    replace (Z.of_nat (S n) + j) with (Z.of_nat n + (j + 1)) by lia.
    rewrite IH by lia. apply bit_step_shiftl. assumption.
Qed.

(** A register value splits into its low byte and the rest. *)
Lemma split_low_byte (x : Z) :
  x = Z.lxor (x mod 256) (Z.shiftl (Z.shiftr x 8) 8).
Proof.
  apply Z.bits_inj'. intros i Hi.
  rewrite Z.lxor_spec. change 256 with (2 ^ 8).
  destruct (Z.ltb_spec i 8).
  - rewrite Z.mod_pow2_bits_low, Z.shiftl_spec_low by lia.
    now rewrite xorb_false_r.
  - rewrite Z.mod_pow2_bits_high, Z.shiftl_spec, Z.shiftr_spec by lia.
    cbn [xorb]. f_equal. lia.
Qed.

(** Shifting out one byte bit by bit is one table step. *)
Lemma ref_byte_table_step (c b : Z) :
  is_byte b ->
  ref_byte c b =
  Z.lxor (Z.shiftr c 8) (bit_steps 8 (Z.lxor c b mod 256)).
Proof.
  intros Hb. unfold ref_byte.
  rewrite (split_low_byte (Z.lxor c b)) at 1.
  rewrite bit_steps_lxor.
  rewrite (bit_steps_shiftl 8 _ 0) by lia.
  rewrite Z.shiftl_0_r, Z.shiftr_lxor.
  replace (Z.shiftr b 8) with 0.
  - rewrite Z.lxor_0_r. apply Z.lxor_comm.
  - rewrite Z.shiftr_div_pow2 by lia. symmetry. apply Z.div_small.
    unfold is_byte in Hb. change (2 ^ 8) with 256. lia.
Qed.

(** Both tables of the sources are the table the reference induces. *)
Lemma CRC_TABLE_ref : CRC_TABLE = ref_table.
Proof. vm_compute. reflexivity. Qed.

Lemma Zipper_CRC_TABLE_ref : Zipper_CRC_TABLE = ref_table.
Proof. vm_compute. reflexivity. Qed.

Lemma ref_table_index (k : Z) :
  0 <= k < 256 -> index ref_table k = bit_steps 8 k.
Proof.
  intros Hk. unfold index.
  destruct (Z.ltb_spec k 0); [lia|].
  unfold ref_table.
  rewrite (nth_indep _ 0 (bit_steps 8 (Z.of_nat 0)))
    by (rewrite length_map, length_seq; lia).
  rewrite (map_nth (fun k => bit_steps 8 (Z.of_nat k))).
  rewrite seq_nth by lia. f_equal. lia.
Qed.

Lemma ref_table_range (k : Z) : 0 <= index ref_table k < 2 ^ 32.
Proof.
  unfold index. destruct (k <? 0); [lia|].
  assert (H : forallb (fun t => (0 <=? t) && (t <? 2 ^ 32)) ref_table = true)
    by (vm_compute; reflexivity).
  rewrite forallb_forall in H.
  destruct (Nat.lt_ge_cases (Z.to_nat k) (List.length ref_table)) as [Hl|Hl].
  - specialize (H _ (nth_In ref_table 0 Hl)).
    apply andb_prop in H. destruct H as [H1 H2].
    apply Z.leb_le in H1. apply Z.ltb_lt in H2. lia.
  - rewrite nth_overflow by assumption. lia.
Qed.

(** One iteration of the JavaScript loop, read as an unsigned word, is
    one byte step of the reference. *)
Lemma crc_update_ref (crc b : Z) :
  is_byte b ->
  ToUint32 (crc_update ref_table crc b) = ref_byte (ToUint32 crc) b.
Proof.
  intros Hb. unfold crc_update.
  rewrite xor_ToUint32, and_0xFF.
  assert (Hidx : xor crc b mod 256 = Z.lxor (ToUint32 crc) b mod 256).
  { change 256 with (2 ^ 8).
    rewrite <- (mod_mod_pow2 (xor crc b) 8 32) by lia.
    fold (ToUint32 (xor crc b)). rewrite xor_ToUint32.
    unfold is_byte in Hb. unfold ToUint32 at 2. rewrite (Z.mod_small b) by lia.
    reflexivity. }
  rewrite Hidx.
  assert (Hr : 0 <= ToUint32 crc < 2 ^ 32)
    by (apply Z.mod_pos_bound; lia).
  assert (Hs : 0 <= Z.shiftr (ToUint32 crc) 8 < 2 ^ 32).
  { rewrite Z.shiftr_div_pow2 by lia. split.
    - apply Z.div_pos; lia.
    - apply Z.div_lt_upper_bound; lia. }
  unfold ushr. change (8 mod 32) with 8.
  unfold ToUint32 at 1. rewrite (Z.mod_small _ _ Hs).
  unfold ToUint32 at 2. rewrite (Z.mod_small _ _ (ref_table_range _)).
  rewrite ref_table_index by (apply Z.mod_pos_bound; lia).
  symmetry. apply ref_byte_table_step. assumption.
Qed.

Lemma crc_loop_ref (bytes : Uint8Array) (crc : Z) :
  is_bytes bytes ->
  ToUint32 (crc_loop ref_table crc bytes) =
  fold_left ref_byte bytes (ToUint32 crc).
Proof.
  intros Hbs. revert crc.
  induction Hbs as [|b bs Hb _ IH]; intros crc; [reflexivity|].
  unfold crc_loop in *. cbn [fold_left].
  rewrite IH, crc_update_ref by assumption. reflexivity.
Qed.

Lemma crc_finish_ref (crc : Z) :
  crc_finish crc = Z.lxor (ToUint32 crc) 0xFFFFFFFF.
Proof.
  unfold crc_finish, ushr. change (0 mod 32) with 0.
  rewrite Z.shiftr_0_r, xor_ToUint32. reflexivity.
Qed.

Lemma table_crc_ref (bytes : Uint8Array) :
  is_bytes bytes ->
  crc_finish (crc_loop ref_table (-1) bytes) = crc32_ref bytes.
Proof.
  intros Hbs. rewrite crc_finish_ref, crc_loop_ref by assumption.
  reflexivity.
Qed.

Lemma is_bytes_forallb (bs : Uint8Array) :
  forallb is_byteb bs = true -> is_bytes bs.
Proof.
  intros H. apply Forall_forall. intros b Hin.
  rewrite forallb_forall in H. specialize (H b Hin).
  unfold is_byteb in H. apply andb_prop in H. destruct H as [H1 H2].
  apply Z.leb_le in H1. apply Z.ltb_lt in H2. split; assumption.
Defined.

(** C1.  On every byte sequence both [bytesToCrc32] functions return the
    reflected CRC-32 of the sequence: the value of the bit-serial
    register with polynomial 0xEDB88320 that starts at all ones, takes in
    each byte and is complemented at the end.  The empty sequence gives
    0 and the ASCII bytes of "123456789" give 0xCBF43926. *)
Theorem bytesToCrc32_canonical (b : Uint8Array) :
  is_bytes b ->
  bytesToCrc32 b = crc32_ref b /\
  Zipper_bytesToCrc32 b = crc32_ref b /\
  bytesToCrc32 [] = 0 /\
  Zipper_bytesToCrc32 [] = 0 /\
  bytesToCrc32 (lit "123456789") = 0xCBF43926 /\
  Zipper_bytesToCrc32 (lit "123456789") = 0xCBF43926.
Proof.
  intros Hb. unfold bytesToCrc32, Zipper_bytesToCrc32.
  rewrite CRC_TABLE_ref, Zipper_CRC_TABLE_ref.
  rewrite (table_crc_ref b Hb).
  repeat split; vm_compute; reflexivity.
Qed.

Lemma bytesToCrc32_canonical_witness :
  is_bytes [0x5A; 0x49; 0x50] /\
  bytesToCrc32 [0x5A; 0x49; 0x50] = crc32_ref [0x5A; 0x49; 0x50].
Proof.
  assert (H : is_bytes [0x5A; 0x49; 0x50])
    by (apply is_bytes_forallb; reflexivity).
  split; [exact H|].
  exact (proj1 (bytesToCrc32_canonical [0x5A; 0x49; 0x50] H)).
Defined.

End CrcFacts.

(** ** Field codecs *)

Section CodecFacts.
Import JS Codec.

Lemma and_ones (x k : Z) :
  0 <= k <= 31 -> and x (Z.ones k) = x mod 2 ^ k.
Proof.
  intros Hk. unfold and.
  assert (Ho : 0 <= Z.ones k < 2 ^ 31).
  { rewrite Z.ones_equiv.
    assert (0 < 2 ^ k) by (apply Z.pow_pos_nonneg; lia).
    assert (2 ^ k <= 2 ^ 31) by (apply Z.pow_le_mono_r; lia). lia. }
  rewrite (ToInt32_small (Z.ones k)) by lia.
  rewrite Z.land_ones by lia. apply ToInt32_mod_pow2. lia.
Qed.

Lemma shr_small (x n : Z) :
  - 2 ^ 31 <= x < 2 ^ 31 -> 0 <= n < 32 -> shr x n = x / 2 ^ n.
Proof.
  intros Hx Hn. unfold shr.
  rewrite ToInt32_small, Z.mod_small by lia.
  apply Z.shiftr_div_pow2. lia.
Qed.

Lemma shl_small (x n : Z) :
  - 2 ^ 31 <= x < 2 ^ 31 -> 0 <= n < 32 -> - 2 ^ 31 <= x * 2 ^ n < 2 ^ 31 ->
  shl x n = x * 2 ^ n.
Proof.
  intros Hx Hn Hr. unfold shl.
  rewrite (ToInt32_small x), Z.mod_small by lia.
  rewrite Z.shiftl_mul_pow2 by lia. apply ToInt32_small. assumption.
Qed.

Lemma u8_and_0xFF (x : Z) : u8 (and x 0xFF) = ToInt32 x mod 256.
Proof.
  unfold u8, and. rewrite (ToInt32_small 0xFF) by lia.
  change 0xFF with (Z.ones 8). rewrite Z.land_ones by lia.
  apply Z.mod_mod. lia.
Qed.

Lemma numberToBytes_length (n : Z) (k : nat) :
  List.length (numberToBytes n k) = k.
Proof.
  revert n. induction k as [|k IH]; intros n; cbn [numberToBytes List.length].
  - reflexivity.
  - now rewrite IH.
Qed.

Lemma numberToBytes_is_bytes (n : Z) (k : nat) :
  is_bytes (numberToBytes n k).
Proof.
  revert n. induction k as [|k IH]; intros n; cbn [numberToBytes].
  - constructor.
  - constructor; [|apply IH].
    unfold is_byte, u8. apply Z.mod_pos_bound. lia.
Qed.

(** The bytes of [numberToBytes(n, k)] are the [k] low bytes of the
    two's complement form of [n] as a 32-bit integer. *)
Lemma numberToBytes_value (k : nat) (n : Z) :
  le_value (numberToBytes n k) = ToInt32 n mod 2 ^ (8 * Z.of_nat k).
Proof.
  revert n. induction k as [|k IH]; intros n.
  - cbn. now rewrite Z.mod_1_r.
  - cbn [numberToBytes le_value fold_right]. fold (le_value (numberToBytes (shr n 8) k)).
    rewrite IH, u8_and_0xFF.
    assert (Hq : shr n 8 = ToInt32 n / 256).
    { unfold shr. change (8 mod 32) with 8.
      rewrite Z.shiftr_div_pow2 by lia. reflexivity. }
    rewrite Hq.
    pose proof (ToInt32_range n) as Hr.
    rewrite (ToInt32_small (ToInt32 n / 256)).
    + replace (2 ^ (8 * Z.of_nat (S k))) with (256 * 2 ^ (8 * Z.of_nat k)).
      * rewrite Z.rem_mul_r; [reflexivity | lia | apply Z.pow_pos_nonneg; lia].
      * change 256 with (2 ^ 8). rewrite <- Z.pow_add_r by lia.
        f_equal. lia.
    + split.
      * apply Z.div_le_lower_bound; lia.
      * apply Z.div_lt_upper_bound; lia.
Qed.

(** Within the width of the field the value is the number itself,
    reduced to the width. *)
Lemma numberToBytes_4_value (n : Z) :
  le_value (numberToBytes n 4) = n mod 2 ^ 32.
Proof. rewrite numberToBytes_value. apply ToInt32_mod. Qed.

Lemma numberToBytes_2_value (n : Z) :
  le_value (numberToBytes n 2) = n mod 2 ^ 16.
Proof.
  rewrite numberToBytes_value. apply (ToInt32_mod_pow2 n 16). lia.
Qed.

Lemma le_value_2 (b0 b1 : Z) : le_value [b0; b1] = b0 + 256 * b1.
Proof. unfold le_value. cbn [fold_right]. lia. Qed.

(** [bytesToNumber] reads a two-byte field back. *)
Lemma bytesToNumber_2 (b0 b1 : Z) :
  is_byte b0 -> is_byte b1 -> ZipParts.bytesToNumber [b0; b1] = b0 + 256 * b1.
Proof.
  unfold is_byte. intros H0 H1.
  unfold ZipParts.bytesToNumber. cbn [fold_right].
  change 0xFF with (Z.ones 8). rewrite !and_ones by lia.
  change (2 ^ 8) with 256. rewrite (Z.mod_small b0), (Z.mod_small b1) by lia.
  rewrite (shl_small 0 8) by lia.
  rewrite Z.mul_0_l, Z.add_0_l.
  rewrite shl_small by lia. lia.
Qed.

Lemma bytesToNumber_numberToBytes_2 (n : Z) :
  0 <= n < 2 ^ 16 -> ZipParts.bytesToNumber (numberToBytes n 2) = n.
Proof.
  intros Hn.
  pose proof (numberToBytes_2_value n) as Hv.
  pose proof (numberToBytes_is_bytes n 2) as Hb.
  pose proof (numberToBytes_length n 2) as Hl.
  destruct (numberToBytes n 2) as [|b0 [|b1 [|b2 r]]]; try discriminate Hl.
  inversion Hb as [|? ? Hb0 Hb']; subst. inversion Hb' as [|? ? Hb1 _]; subst.
  rewrite bytesToNumber_2 by assumption.
  rewrite le_value_2 in Hv. rewrite Hv. apply Z.mod_small. assumption.
Qed.

(** Adding a field below a shifted one is or-ing it in. *)
Lemma add_shiftl_lor (a b k : Z) :
  0 <= k -> 0 <= b < 2 ^ k -> a * 2 ^ k + b = Z.lor (Z.shiftl a k) b.
Proof.
  intros Hk Hb. rewrite <- Z.shiftl_mul_pow2 by assumption.
  assert (Hl : Z.land (Z.shiftl a k) b = 0).
  { apply Z.bits_inj'. intros i Hi.
    rewrite Z.land_spec, Z.bits_0.
    destruct (Z.ltb_spec i k).
    - rewrite Z.shiftl_spec_low by assumption. reflexivity.
    - rewrite <- (Z.mod_small b (2 ^ k)) by assumption.
      rewrite Z.mod_pow2_bits_high by lia. apply andb_false_r. }
  rewrite Z.add_nocarry_lxor by assumption. apply Z.lxor_lor. assumption.
Qed.

Lemma pack3_lor (a b c k1 k2 : Z) :
  0 <= k2 <= k1 -> 0 <= b < 2 ^ (k1 - k2) -> 0 <= c < 2 ^ k2 ->
  a * 2 ^ k1 + b * 2 ^ k2 + c
  = Z.lor (Z.lor (Z.shiftl a k1) (Z.shiftl b k2)) c.
Proof.
  intros Hk Hb Hc.
  assert (E : 2 ^ k1 = 2 ^ (k1 - k2) * 2 ^ k2)
    by (rewrite <- Z.pow_add_r by lia; f_equal; lia).
  assert (P : 0 < 2 ^ k2) by (apply Z.pow_pos_nonneg; lia).
  assert (Hb2 : 0 <= b * 2 ^ k2 < 2 ^ k1) by (rewrite E; nia).
  rewrite (Z.shiftl_mul_pow2 b) by lia.
  rewrite <- (add_shiftl_lor a (b * 2 ^ k2) k1) by lia.
  replace (a * 2 ^ k1 + b * 2 ^ k2) with ((a * 2 ^ (k1 - k2) + b) * 2 ^ k2)
    by (rewrite E; ring).
  rewrite add_shiftl_lor by lia. rewrite Z.shiftl_mul_pow2 by lia.
  reflexivity.
Qed.

End CodecFacts.

(** ** MS-DOS date and time *)

Section DosDateTime.
Import JS Codec ZipParts.

Lemma dateToBytes_number (date : Date) :
  dos_valid date ->
  dateToBytes date =
  numberToBytes ((getFullYear date - 1980) * 512
                 + (getMonth date + 1) * 32 + getDate date) 2.
Proof.
  intros (Hy & Hm & Hd & _). unfold dateToBytes.
  rewrite !shl_small by lia. reflexivity.
Qed.

Lemma timeToBytes_number (date : Date) :
  dos_valid date ->
  timeToBytes date =
  numberToBytes (getHours date * 2048 + getMinutes date * 32
                 + getSeconds date / 2) 2.
Proof.
  intros (_ & _ & _ & Hh & Hm & Hs). unfold timeToBytes.
  rewrite !shl_small by lia. reflexivity.
Qed.

Ltac mask_fields :=
  change 31 with (Z.ones 5); change 15 with (Z.ones 4);
  change 63 with (Z.ones 6); change 127 with (Z.ones 7);
  rewrite !and_ones by lia.

(** C5.  For every calendar value with year 1980-2107, month 1-12
    ([getMonth] 0-11), day 1-31, hour 0-23, minute 0-59 and second 0-59,
    [dateToBytes] and [timeToBytes] write the two-byte fields
    ((year-1980)<<9)|(month<<5)|day and (hour<<11)|(minute<<5)|(second/2),
    and [bytesToDate] and [bytesToTime] read back the same year, month,
    day, hour and minute and the second rounded down to even. *)
Theorem dos_datetime_roundtrip (epoch date : Date) :
  dos_valid date ->
  le_value (dateToBytes date) =
    Z.lor (Z.lor (Z.shiftl (getFullYear date - 1980) 9)
                 (Z.shiftl (getMonth date + 1) 5))
          (getDate date) /\
  le_value (timeToBytes date) =
    Z.lor (Z.lor (Z.shiftl (getHours date) 11)
                 (Z.shiftl (getMinutes date) 5))
          (getSeconds date / 2) /\
  List.length (dateToBytes date) = 2%nat /\
  List.length (timeToBytes date) = 2%nat /\
  getFullYear (bytesToDate epoch (dateToBytes date)) = getFullYear date /\
  getMonth (bytesToDate epoch (dateToBytes date)) = getMonth date /\
  getDate (bytesToDate epoch (dateToBytes date)) = getDate date /\
  getHours (bytesToTime epoch (timeToBytes date)) = getHours date /\
  getMinutes (bytesToTime epoch (timeToBytes date)) = getMinutes date /\
  getSeconds (bytesToTime epoch (timeToBytes date))
    = 2 * (getSeconds date / 2).
Proof.
  intros Hv. pose proof Hv as (Hy & Hm & Hd & Hh & Hmi & Hs).
  rewrite (dateToBytes_number date Hv), (timeToBytes_number date Hv).
  set (y := getFullYear date) in *. set (m := getMonth date) in *.
  set (d := getDate date) in *. set (h := getHours date) in *.
  set (mi := getMinutes date) in *. set (sec := getSeconds date) in *.
  assert (Hs2 : 0 <= sec / 2 <= 29).
  { Z.div_mod_to_equations. lia. }
  set (s2 := sec / 2) in *. clearbody s2. clearbody y m d h mi sec.
  assert (Hnd : 0 <= (y - 1980) * 512 + (m + 1) * 32 + d < 2 ^ 16) by lia.
  assert (Hnt : 0 <= h * 2048 + mi * 32 + s2 < 2 ^ 16) by lia.
  unfold bytesToDate, bytesToTime.
  rewrite !bytesToNumber_numberToBytes_2 by assumption.
  rewrite !numberToBytes_2_value, !numberToBytes_length.
  rewrite !(Z.mod_small _ (2 ^ 16)) by assumption.
  rewrite !shr_small by lia.
  cbn [setFullYear setHours setMinutes setSeconds
       getFullYear getMonth getDate getHours getMinutes getSeconds].
  mask_fields.
  change (2 ^ 5) with 32. change (2 ^ 9) with 512. change (2 ^ 11) with 2048.
  change (2 ^ 4) with 16. change (2 ^ 6) with 64. change (2 ^ 7) with 128.
  assert (Ed5 : ((y - 1980) * 512 + (m + 1) * 32 + d) / 32
                = (y - 1980) * 16 + (m + 1)).
  { symmetry. apply (Z.div_unique _ 32 _ d); lia. }
  assert (Ed9 : ((y - 1980) * 512 + (m + 1) * 32 + d) / 512 = y - 1980).
  { symmetry. apply (Z.div_unique _ 512 _ ((m + 1) * 32 + d)); lia. }
  assert (Et5 : (h * 2048 + mi * 32 + s2) / 32 = h * 64 + mi).
  { symmetry. apply (Z.div_unique _ 32 _ s2); lia. }
  assert (Et11 : (h * 2048 + mi * 32 + s2) / 2048 = h).
  { symmetry. apply (Z.div_unique _ 2048 _ (mi * 32 + s2)); lia. }
  rewrite Ed5, Ed9, Et5, Et11.
  repeat split.
  - apply (pack3_lor (y - 1980) (m + 1) d 9 5); change (2 ^ (9 - 5)) with 16;
      change (2 ^ 5) with 32; lia.
  - apply (pack3_lor h mi s2 11 5); change (2 ^ (11 - 5)) with 64;
      change (2 ^ 5) with 32; lia.
  - Z.div_mod_to_equations. lia.
  - Z.div_mod_to_equations. lia.
  - Z.div_mod_to_equations. lia.
  - Z.div_mod_to_equations. lia.
  - Z.div_mod_to_equations. lia.
  - Z.div_mod_to_equations. lia.
Qed.

Lemma dos_datetime_roundtrip_witness :
  dos_valid (mkDate 2024 1 29 23 59 59) /\
  getDate (bytesToDate (mkDate 1970 0 1 10 0 0)
             (dateToBytes (mkDate 2024 1 29 23 59 59))) = 29 /\
  getSeconds (bytesToTime (mkDate 1970 0 1 10 0 0)
                (timeToBytes (mkDate 2024 1 29 23 59 59))) = 58.
Proof.
  assert (H : dos_valid (mkDate 2024 1 29 23 59 59))
    by (unfold dos_valid; cbn; lia).
  split; [exact H|].
  pose proof (dos_datetime_roundtrip (mkDate 1970 0 1 10 0 0)
                (mkDate 2024 1 29 23 59 59) H) as T.
  split; [apply T | etransitivity; [apply T | reflexivity]].
Defined.

End DosDateTime.

(** ** The TAR builder: padding of the data region *)

Section TarFacts.
Import JS Codec Tar.

Lemma len_app {A} (l1 l2 : list A) : len (l1 ++ l2) = len l1 + len l2.
Proof. unfold len. rewrite length_app. lia. Qed.

Lemma len_zeros (n : nat) : len (zeros n) = Z.of_nat n.
Proof. unfold len, zeros. now rewrite repeat_length. Qed.

Lemma tar_pad_positive (n : Z) : 0 < 512 - n mod 512 <= 512.
Proof. pose proof (Z.mod_pos_bound n 512 ltac:(lia)). lia. Qed.

Lemma lastChars_length (n : nat) (s t : jsstring) :
  List.length s = n -> List.length (lastChars n (s ++ t)) = n.
Proof.
  intros Hs. unfold lastChars. rewrite length_skipn, length_app. lia.
Qed.

Lemma stringToBytes_length (s : jsstring) (n : nat) :
  List.length (stringToBytes s (Some n)) = n.
Proof. unfold stringToBytes. now rewrite length_map, length_seq. Qed.

(** The header of [getTarHeader] is one 512-byte record. *)
Lemma getTarHeader_length (p : jsstring) (size seconds : Z) :
  List.length (getTarHeader p size seconds) = 512%nat.
Proof.
  unfold getTarHeader. cbn [List.concat].
  repeat rewrite length_app. rewrite !stringToBytes_length.
  unfold stringToBytes at 1. rewrite length_map, length_seq.
  rewrite (lastChars_length 6) by reflexivity.
  reflexivity.
Qed.

(** C8.  What [_pack] emits after the header of a file is the data
    followed by [512 - (length mod 512)] zero bytes: between 1 and 512 of
    them, never none.  The region is a multiple of 512 bytes long but,
    when the data length is itself a multiple of 512 (an empty file
    included), it is one whole block longer than the data. *)
Theorem tar_data_region_padding (seconds : Z) (f : file) :
  packFile seconds f
    = getTarHeader (path f) (len (data f)) seconds :: tl (packFile seconds f) /\
  List.length (getTarHeader (path f) (len (data f)) seconds) = 512%nat /\
  dataRegion seconds f
    = data f ++ zeros (Z.to_nat (512 - len (data f) mod 512)) /\
  len (dataRegion seconds f) = 512 * (len (data f) / 512 + 1) /\
  dataRegion seconds (mkFile (path f) []) = zeros 512 /\
  len (dataRegion seconds (mkFile (path f) (zeros 512))) = 1024.
Proof.
  assert (G : forall g, dataRegion seconds g
                = data g ++ zeros (Z.to_nat (512 - len (data g) mod 512))).
  { intros g. unfold dataRegion, packFile.
    pose proof (tar_pad_positive (len (data g))) as Hp.
    destruct (Z.gtb_spec (512 - len (data g) mod 512) 0) as [_|Hc]; [|lia].
    cbn [app tl List.concat]. now rewrite app_nil_r. }
  split; [reflexivity|]. split; [apply getTarHeader_length|].
  split; [apply G|]. split; [|split].
  - rewrite G, len_app, len_zeros.
    pose proof (tar_pad_positive (len (data f))).
    rewrite Z2Nat.id by lia.
    pose proof (Z.div_mod (len (data f)) 512 ltac:(lia)). lia.
  - rewrite G. reflexivity.
  - rewrite G. reflexivity.
Qed.

End TarFacts.

(** ** The parts-based builder: two parts and one record per entry *)

Section PartsInvariant.
Import JS Codec ZipParts.

Lemma partsOf_app (es1 es2 : list registered) :
  partsOf (es1 ++ es2) = partsOf es1 ++ partsOf es2.
Proof. unfold partsOf. apply flat_map_app. Qed.

Lemma cdOf_app (es1 es2 : list registered) :
  cdOf (es1 ++ es2) = cdOf es1 ++ cdOf es2.
Proof. unfold cdOf. apply map_app. Qed.

Lemma partsOf_length (es : list registered) :
  List.length (partsOf es) = (2 * List.length es)%nat.
Proof.
  induction es as [|e es IH]; [reflexivity|].
  cbn [partsOf flat_map app List.length] in *. fold (partsOf es).
  rewrite IH. lia.
Qed.

Lemma cdOf_length (es : list registered) :
  List.length (cdOf es) = List.length es.
Proof. unfold cdOf. apply length_map. Qed.

Lemma removelast_snoc {A} (l : list A) (x : A) : removelast (l ++ [x]) = l.
Proof. apply removelast_last. Qed.

Lemma removelast_snoc2 {A} (l : list A) (x y : A) :
  removelast (removelast (l ++ [x; y])) = l.
Proof.
  change (l ++ [x; y]) with (l ++ [x] ++ [y]).
  rewrite app_assoc, !removelast_last. reflexivity.
Qed.

Lemma partsOf_removelast (es : list registered) :
  partsOf (removelast es) = removelast (removelast (partsOf es)).
Proof.
  destruct es as [|e0 es0] using rev_ind; [reflexivity|].
  rewrite removelast_last, partsOf_app.
  cbn [partsOf flat_map app]. symmetry. apply removelast_snoc2.
Qed.

Lemma cdOf_removelast (es : list registered) :
  cdOf (removelast es) = removelast (cdOf es).
Proof.
  destruct es as [|e0 es0] using rev_ind; [reflexivity|].
  rewrite removelast_last, cdOf_app. cbn [cdOf map].
  symmetry. apply removelast_last.
Qed.

Lemma removelast_length {A} (l : list A) :
  List.length (removelast l) = (List.length l - 1)%nat.
Proof.
  destruct l as [|x l] using rev_ind; [reflexivity|].
  rewrite removelast_last, length_app. cbn. lia.
Qed.

(** An add either leaves the state as it is or appends one entry. *)
Lemma _addEntry_holds (z : Zipper) (es : list registered) (now : Date)
    (filename data : jsval) (isFolder : bool) :
  holds z es ->
  let r := _addEntry z now filename data isFolder in
  fst r = count (snd r) /\
  (snd r = z \/
   exists e, holds (snd r) (es ++ [e]) /\ r_date e = now /\
             r_isFolder e = isFolder /\
             r_offset e = totalLength (_parts z) /\
             coerceData data = Some (r_data e)).
Proof.
  intros [Hp Hc]. unfold _addEntry, count.
  destruct filename as [| | | |fname| | | | |];
    try (cbn [fst snd]; split; [reflexivity | left; reflexivity]).
  repeat match goal with
  | |- context [if ?b then _ else _] =>
      lazymatch b with
      | andb _ _ => fail
      | _ => destruct b;
             try (cbn [fst snd]; split; [reflexivity | left; reflexivity])
      end
  | |- context [match coerceData ?d with _ => _ end] =>
      let E := fresh "E" in
      destruct (coerceData d) eqn:E;
      try (cbn [fst snd]; split; [reflexivity | left; reflexivity])
  end.
  cbn [fst snd _cd _parts]. split; [reflexivity|]. right.
  match goal with
  | |- context [localHeader now ?f ?d] =>
      exists (mkRegistered now f d isFolder (totalLength (_parts z)))
  end.
  unfold holds. cbn [_parts _cd r_date r_isFolder r_offset r_data].
  rewrite partsOf_app, cdOf_app, Hp, Hc.
  repeat split; reflexivity.
Qed.

Lemma pop_holds (z : Zipper) (es : list registered) :
  holds z es -> holds (snd (pop z)) (removelast es).
Proof.
  intros [Hp Hc]. unfold pop, holds. cbn [snd _parts _cd].
  rewrite Hp, Hc, partsOf_removelast, cdOf_removelast. split; reflexivity.
Qed.

Lemma run_app (z : Zipper) (cs1 cs2 : list call) :
  run z (cs1 ++ cs2) = run (run z cs1) cs2.
Proof. unfold run. apply fold_left_app. Qed.

(** Every reachable state is the image of a list of entries. *)
Lemma run_holds (cs : list call) : exists es, holds (run empty cs) es.
Proof.
  induction cs as [|c cs IH] using rev_ind.
  - exists []. split; reflexivity.
  - destruct IH as [es Hes]. rewrite run_app.
    change (run (run empty cs) [c]) with (snd (run_call (run empty cs) c)).
    destruct c as [now p d | now p |]; cbn [run_call].
    + destruct (_addEntry_holds _ es now p d false Hes) as [_ [E | [e [He _]]]].
      * exists es. unfold addFile. rewrite E. exact Hes.
      * exists (es ++ [e]). exact He.
    + destruct (_addEntry_holds _ es now p VNull true Hes) as [_ [E | [e [He _]]]].
      * exists es. unfold addFolder. rewrite E. exact Hes.
      * exists (es ++ [e]). exact He.
    + exists (removelast es). apply pop_holds. exact Hes.
Qed.

(** C9.  In every state that a sequence of [addFile], [addFolder] and
    [pop] calls reaches from the empty archive, [_parts] holds a header
    and a data segment per entry and [_cd] one record per entry, so
    [_parts] is twice as long as [_cd] and [count] is the length of
    [_cd].  A further add leaves the state as it is (a rejected call) or
    appends one entry: two parts and one record.  A further [pop] removes
    the last record and the last two parts, which belong to the last
    entry; on the empty archive it removes nothing. *)
Theorem parts_cd_invariant (cs : list call) (c : call) :
  let z := run empty cs in
  let z' := snd (run_call z c) in
  exists es,
    holds z es /\
    len (_parts z) = 2 * len (_cd z) /\
    count z = len (_cd z) /\
    fst (run_call z c) = count z' /\
    match c with
    | Pop =>
        holds z' (removelast es) /\
        _cd z' = removelast (_cd z) /\
        _parts z' = removelast (removelast (_parts z)) /\
        count z' = Z.max 0 (count z - 1) /\
        len (_parts z') = Z.max 0 (len (_parts z) - 2)
    | _ =>
        z' = z \/
        exists e, holds z' (es ++ [e]) /\
                  count z' = count z + 1 /\
                  len (_parts z') = len (_parts z) + 2
    end.
Proof.
  intros z z'. destruct (run_holds cs) as [es Hes]. fold z in Hes.
  exists es. split; [exact Hes|].
  pose proof Hes as [Hp Hc].
  assert (Hlen : len (_parts z) = 2 * len (_cd z)).
  { unfold len. rewrite Hp, Hc, partsOf_length, cdOf_length. lia. }
  split; [exact Hlen|]. split; [reflexivity|].
  assert (Hadd : forall now p d f,
             let r := _addEntry z now p d f in
             fst r = count (snd r) /\
             (snd r = z \/
              exists e, holds (snd r) (es ++ [e]) /\
                        count (snd r) = count z + 1 /\
                        len (_parts (snd r)) = len (_parts z) + 2)).
  { intros now p d f r.
    destruct (_addEntry_holds z es now p d f Hes) as [Hf [E | [e [He _]]]].
    - split; [exact Hf | left; exact E].
    - split; [exact Hf|]. right. exists e. split; [exact He|].
      destruct He as [Hp' Hc']. fold r in Hp', Hc'.
      unfold count, len. rewrite Hp', Hc', Hp, Hc.
      rewrite !partsOf_length, !cdOf_length, !length_app. cbn. lia. }
  subst z'. destruct c as [now p d | now p |]; cbn [run_call].
  - apply Hadd.
  - apply Hadd.
  - split; [reflexivity|].
    split; [apply pop_holds; exact Hes|].
    unfold pop, count, len. cbn [snd _cd _parts].
    rewrite !removelast_length.
    repeat split; lia.
Qed.

End PartsInvariant.

(** ** Absent payloads *)

Section AbsentPayload.
Import JS Codec.

Lemma falsy_coerce_ZipJs (d : jsval) :
  truthy d = false -> ZipJs.coerceData d = ZipJs.Return [].
Proof.
  destruct d as [| |b|n|s|b|b|l|l|]; cbn; intros H; try discriminate H;
    try reflexivity.
  - now rewrite H.
  - now rewrite H.
  - unfold str_eqb in H. destruct (list_eq_dec Z.eq_dec s []) as [->|];
      [reflexivity | discriminate H].
Qed.

Lemma falsy_coerce_ZipParts (d : jsval) :
  truthy d = false -> ZipParts.coerceData d = Some [].
Proof.
  destruct d as [| |b|n|s|b|b|l|l|]; cbn; intros H; try discriminate H;
    try reflexivity.
  - now rewrite H.
  - now rewrite H.
  - unfold str_eqb in H. destruct (list_eq_dec Z.eq_dec s []) as [->|];
      [reflexivity | discriminate H].
Qed.

(** C10.  A falsy payload ([undefined], [null], [false], [0], the empty
    string) is not rejected: with a path that passes the path checks,
    [addEntry] of src/zip.js and [addFile] of src/src/zip.js register the
    entry with an empty byte buffer as its data, and the headers record
    the size 0. *)
Theorem absent_payload_registers_empty (d : jsval) :
  truthy d = false ->
  (forall z p,
      ZipJs.pathAccepted z (ZipJs.normalizePath p) = true ->
      ZipJs.addEntry z p d =
      (ZipJs.Return (ZipJs.count z + 1),
       ZipJs.mkZipper
         (ZipJs._entries z
          ++ [ZipJs.mkEntry (ZipJs.normalizePath p) []]))) /\
  (forall z now f,
      ZipParts.filenameAccepted z (ZipParts.normalizeFilename f) = true ->
      ZipParts.addFile z now (VStr f) d =
      (ZipParts.count z + 1,
       ZipParts.mkZipper
         (ZipParts._parts z
          ++ [ZipParts.localHeader now (ZipParts.normalizeFilename f) [];
              []])
         (ZipParts._cd z
          ++ [ZipParts.cdHeader now (ZipParts.normalizeFilename f) []
                false (totalLength (ZipParts._parts z))]))) /\
  (forall now f, ZipParts.subarray (ZipParts.localHeader now f []) 18 26
                 = [0; 0; 0; 0; 0; 0; 0; 0]).
Proof.
  intros Hd. split; [|split].
  - intros z p Hp. unfold ZipJs.pathAccepted in Hp.
    repeat (apply andb_prop in Hp; destruct Hp as [Hp ?]).
    repeat match goal with
           | H : negb _ = true |- _ => apply negb_true_iff in H
           end.
    unfold ZipJs.addEntry.
    repeat match goal with H : _ = false |- _ => rewrite H; clear H end.
    rewrite (falsy_coerce_ZipJs d Hd).
    change (len (@nil Z) >? 0xFFFFFFFF) with false. cbn iota.
    unfold ZipJs.count. cbn [ZipJs._entries]. rewrite len_app.
    reflexivity.
  - intros z now f Hf. unfold ZipParts.filenameAccepted in Hf.
    repeat (apply andb_prop in Hf; destruct Hf as [Hf ?]).
    repeat match goal with
           | H : negb _ = true |- _ => apply negb_true_iff in H
           end.
    unfold ZipParts.addFile, ZipParts._addEntry.
    fold (ZipParts.normalizeFilename f).
    cbn [andb].
    repeat match goal with H : _ = false |- _ => rewrite H; clear H end.
    rewrite (falsy_coerce_ZipParts d Hd).
    change (len (@nil Z) >? 0xFFFFFFFF) with false. cbn iota.
    unfold ZipParts.count. cbn [ZipParts._cd]. rewrite len_app.
    reflexivity.
  - intros now f. unfold ZipParts.localHeader.
    rewrite map_app.
    unfold ZipParts.timeToBytes, ZipParts.dateToBytes.
    unfold ZipParts.subarray.
    repeat match goal with
           | |- context [numberToBytes ?n 2] =>
               let b := fresh "b" in
               let E := fresh "E" in
               let L := fresh "L" in
               remember (numberToBytes n 2) as b eqn:E;
               assert (L : List.length b = 2%nat)
                 by (rewrite E; apply numberToBytes_length);
               clear E;
               destruct b as [|? [|? [|? ?]]]; try discriminate L; clear L
           end.
    reflexivity.
Qed.

Lemma absent_payload_registers_empty_witness :
  truthy VNull = false /\
  ZipJs.pathAccepted (ZipJs.mkZipper []) (ZipJs.normalizePath (VStr (lit "a.txt")))
    = true /\
  ZipJs.addEntry (ZipJs.mkZipper []) (VStr (lit "a.txt")) VNull
  = (ZipJs.Return 1,
     ZipJs.mkZipper [ZipJs.mkEntry (lit "a.txt") []]).
Proof.
  split; [reflexivity|]. split; [reflexivity|].
  exact (proj1 (absent_payload_registers_empty VNull eq_refl)
           (ZipJs.mkZipper []) (VStr (lit "a.txt")) eq_refl).
Defined.

End AbsentPayload.

(** ** The entries-based builder: [_pack] in closed form *)

Section PackFacts.
Import JS Codec ZipJs.

Lemma getLocalFileHeader_now (e : entry) (clk : Clock) (t : nat) :
  getLocalFileHeader
    (mkLfh (Crc.bytesToCrc32 (data e)) (len (data e)) (path e) None) clk t
  = Return (localFileHeaderAt (clk t) e, S t).
Proof.
  unfold getLocalFileHeader, dateToBytes, bind, newDate, ret.
  cbn [lfh_checksum lfh_size lfh_path lfh_date].
  unfold localFileHeaderAt, concatArrays, dosBytes.
  cbn [List.concat].
  change (stringToBytes [] None) with (@nil Z).
  rewrite ?app_nil_r. reflexivity.
Qed.

Lemma getCentralDirectoryHeader_now (e : entry) (off : Z) (clk : Clock)
    (t : nat) :
  getCentralDirectoryHeader
    (mkCdh None (Crc.bytesToCrc32 (data e)) (len (data e)) (path e)
           VUndefined off) clk t
  = Return (centralDirectoryHeaderAt (clk t) e off, S t).
Proof.
  unfold getCentralDirectoryHeader, dateToBytes, bind, newDate, ret, lift.
  cbn [cdh_checksum cdh_size cdh_path cdh_date cdh_comment cdh_offset
       orEmpty truthy validateComment].
  change (len (ToString (VStr [])) >? 0xFFFF) with false. cbn iota.
  unfold centralDirectoryHeaderAt, concatArrays, dosBytes.
  cbn [List.concat].
  change (stringToBytes [] None) with (@nil Z).
  rewrite ?app_nil_r. reflexivity.
Qed.

Lemma packLoop_closed (es : list entry) (st : packing) (clk : Clock)
    (t : nat) :
  packLoop es st clk t
  = Return (packedFrom clk t es st, (t + 2 * List.length es)%nat).
Proof.
  revert st t. induction es as [|e es IH]; intros st t.
  - cbn. unfold ret. do 2 f_equal. lia.
  - cbn [packLoop packedFrom]. unfold bind at 1. unfold packEntry.
    unfold bind at 1. rewrite getLocalFileHeader_now.
    unfold bind at 1. rewrite getCentralDirectoryHeader_now.
    unfold ret at 1. rewrite IH. do 2 f_equal. cbn [List.length]. lia.
Qed.

(** [_pack] returns unless the comment is rejected, having read the
    clock twice per entry. *)
Lemma _pack_closed (z : Zipper) (c : jsval) (clk : Clock) (t : nat) :
  _pack z c clk t =
  match validateComment (orEmpty c) with
  | Throw e => Throw e
  | Return comment =>
      let st := packedFrom clk t (_entries z) (mkPacking [] [] 0 0) in
      Return (parts st ++ cd st
              ++ [getEOCDHeader
                    (mkEocd (len (cd st)) (cdSize st) (offset st) comment)],
              (t + 2 * List.length (_entries z))%nat)
  end.
Proof.
  unfold _pack. unfold bind at 1. unfold lift.
  destruct (validateComment (orEmpty c)) as [comment|e]; [|reflexivity].
  unfold bind. rewrite packLoop_closed. reflexivity.
Qed.

Lemma packedFrom_clock_ext (clk1 clk2 : Clock) (es : list entry) :
  forall (t1 t2 : nat) (st : packing),
  (forall k, (k < 2 * List.length es)%nat ->
             clk1 (t1 + k)%nat = clk2 (t2 + k)%nat) ->
  packedFrom clk1 t1 es st = packedFrom clk2 t2 es st.
Proof.
  induction es as [|e es IH]; intros t1 t2 st H; [reflexivity|].
  cbn [packedFrom List.length] in *.
  pose proof (H 0%nat ltac:(lia)) as H0. rewrite !Nat.add_0_r in H0.
  pose proof (H 1%nat ltac:(lia)) as H1. rewrite !Nat.add_1_r in H1.
  rewrite H0, H1. apply IH. intros k Hk.
  specialize (H (S (S k)) ltac:(lia)).
  replace (S (S t1) + k)%nat with (t1 + S (S k))%nat by lia.
  replace (S (S t2) + k)%nat with (t2 + S (S k))%nat by lia.
  exact H.
Qed.

Lemma validateComment_throw (v : jsval) (e : error) :
  validateComment v = Throw e ->
  e = CommentTooLong /\ len (ToString v) > 0xFFFF.
Proof.
  intros H. unfold validateComment in H.
  assert (G : forall s : jsstring,
             (if len s >? 0xFFFF then Throw CommentTooLong else Return s)
             = Throw e ->
             e = CommentTooLong /\ len s > 0xFFFF).
  { intros s Hs. destruct (Z.gtb_spec (len s) 0xFFFF).
    - inversion Hs. split; [reflexivity | lia].
    - discriminate Hs. }
  destruct v; try discriminate H; apply G in H; exact H.
Qed.

(** C7, as the code has it.  [_pack] stamps every header with the time
    at which it is built, so its output is a function of the entries, the
    comment and the clock readings taken while packing, two per entry.
    Two materializations of the same entries with the same comment that
    read the same times return the same segments; both throw when the
    comment is longer than 65535 characters.  [_pack] only reads the
    entries. *)
Theorem pack_determined_by_clock (z : Zipper) (c : jsval)
    (clk1 clk2 : Clock) (t1 t2 : nat) :
  (forall k, (k < 2 * List.length (_entries z))%nat ->
             clk1 (t1 + k)%nat = clk2 (t2 + k)%nat) ->
  (exists out,
      _pack z c clk1 t1
        = Return (out, (t1 + 2 * List.length (_entries z))%nat) /\
      _pack z c clk2 t2
        = Return (out, (t2 + 2 * List.length (_entries z))%nat)) \/
  (_pack z c clk1 t1 = Throw CommentTooLong /\
   _pack z c clk2 t2 = Throw CommentTooLong /\
   len (ToString c) > 0xFFFF).
Proof.
  intros H. rewrite !_pack_closed.
  rewrite (packedFrom_clock_ext clk1 clk2 (_entries z) t1 t2 _ H).
  destruct (validateComment (orEmpty c)) as [comment|e] eqn:E.
  - left. eexists. split; reflexivity.
  - right. destruct (validateComment_throw _ _ E) as [-> Hl].
    repeat split. unfold orEmpty in Hl.
    destruct (truthy c); [exact Hl | cbn in Hl; lia].
Qed.

Lemma pack_determined_by_clock_witness :
  let z := mkZipper [mkEntry (lit "a.txt") [1; 2; 3]] in
  let clk : Clock := fun _ => mkDate 2024 0 1 12 30 10 in
  (forall k, (k < 2 * List.length (_entries z))%nat ->
             clk (0 + k)%nat = clk (5 + k)%nat) /\
  ((exists out,
       _pack z (VStr (lit "c")) clk 0%nat
         = Return (out, (0 + 2 * List.length (_entries z))%nat) /\
       _pack z (VStr (lit "c")) clk 5%nat
         = Return (out, (5 + 2 * List.length (_entries z))%nat)) \/
   (_pack z (VStr (lit "c")) clk 0%nat = Throw CommentTooLong /\
    _pack z (VStr (lit "c")) clk 5%nat = Throw CommentTooLong /\
    len (ToString (VStr (lit "c"))) > 0xFFFF)).
Proof.
  intros z clk.
  assert (H : forall k, (k < 2 * List.length (_entries z))%nat ->
                        clk (0 + k)%nat = clk (5 + k)%nat)
    by (intros k _; reflexivity).
  split; [exact H|].
  exact (pack_determined_by_clock z (VStr (lit "c")) clk clk 0%nat 5%nat H).
Defined.

(** Two materializations of one entry set with one comment, the second
    two seconds after the first, differ: the claim of C7 as it is worded
    does not hold of [_pack]. *)
Lemma pack_output_varies_with_time :
  let z := mkZipper [mkEntry (lit "a.txt") [1; 2; 3]] in
  let clk : Clock := fun t => mkDate 2024 0 1 12 30 (Z.of_nat t) in
  exists out1 out2,
    _pack z (VStr (lit "c")) clk 0%nat = Return (out1, 2%nat) /\
    _pack z (VStr (lit "c")) clk 2%nat = Return (out2, 4%nat) /\
    out1 <> out2.
Proof.
  intros z clk. rewrite !_pack_closed.
  eexists. eexists. split; [vm_compute; reflexivity|].
  split; [vm_compute; reflexivity|]. discriminate.
Qed.

End PackFacts.

(** ** Archive comments *)

Section CommentFacts.
Import JS Codec.

Lemma map_u8_bytes (l : Uint8Array) : is_bytes l -> map u8 l = l.
Proof.
  induction 1 as [|b l Hb _ IH]; [reflexivity|].
  cbn [map]. rewrite IH. unfold u8. rewrite Z.mod_small by exact Hb.
  reflexivity.
Qed.

Lemma coerceComment_firstn (c : jsval) :
  ZipParts.coerceComment c =
  match c with
  | VStr s => firstn (Z.to_nat 65535) s
  | _ => []
  end.
Proof.
  unfold ZipParts.coerceComment.
  destruct c as [| |b|n|s|b|b|l|l|]; cbn [truthy negb]; try reflexivity.
  - destruct b; reflexivity.
  - destruct (negb (n =? 0)); reflexivity.
  - unfold str_eqb. destruct (list_eq_dec Z.eq_dec s []) as [->|Hs].
    + reflexivity.
    + cbn [negb]. unfold substr0.
      destruct (Z.gtb_spec (len s) 65535) as [Hl|Hl]; [reflexivity|].
      symmetry. apply firstn_all2. unfold len in Hl. lia.
Qed.

Lemma coerceComment_length (c : jsval) :
  len (ZipParts.coerceComment c) <= 65535.
Proof.
  rewrite coerceComment_firstn. unfold len.
  destruct c; cbn [List.length]; try lia.
  rewrite length_firstn. lia.
Qed.

(** The layout of the trailer that [_getEOCD] builds. *)
Lemma _getEOCD_layout (z : ZipParts.Zipper) (c : jsval) :
  exists fixed,
    List.length fixed = 20%nat /\
    ZipParts._getEOCD z c =
    fixed
    ++ numberToBytes (len (ZipParts.coerceComment c)) 2
    ++ ZipParts.stringToBytes (ZipParts.coerceComment c).
Proof.
  unfold ZipParts._getEOCD.
  set (cm := ZipParts.coerceComment c).
  exists ([0x50; 0x4b; 0x05; 0x06; 0x00; 0x00; 0x00; 0x00]
          ++ numberToBytes (len (ZipParts._cd z)) 2
          ++ numberToBytes (len (ZipParts._cd z)) 2
          ++ numberToBytes (totalLength (ZipParts._cd z)) 4
          ++ numberToBytes (totalLength (ZipParts._parts z)) 4).
  split.
  - rewrite !length_app, !numberToBytes_length. reflexivity.
  - rewrite map_u8_bytes.
    + rewrite <- !app_assoc. reflexivity.
    + unfold is_bytes. repeat rewrite Forall_app.
      repeat split; try apply numberToBytes_is_bytes.
      * repeat constructor; unfold is_byte; lia.
      * unfold ZipParts.stringToBytes. apply Forall_forall.
        intros b Hb. apply in_map_iff in Hb. destruct Hb as [x [<- _]].
        unfold is_byte, u8. apply Z.mod_pos_bound. lia.
Qed.

Lemma long_comment_throws (z : ZipJs.Zipper) (s : jsstring) (clk : Clock)
    (t : nat) :
  len s > 0xFFFF -> ZipJs._pack z (VStr s) clk t = ZipJs.Throw ZipJs.CommentTooLong.
Proof.
  intros Hl. rewrite _pack_closed.
  assert (Hs : s <> []) by (intros ->; cbn in Hl; lia).
  unfold ZipJs.orEmpty. cbn [truthy].
  unfold str_eqb. destruct (list_eq_dec Z.eq_dec s []) as [E|_]; [contradiction|].
  cbn [negb ZipJs.validateComment ToString].
  destruct (Z.gtb_spec (len s) 0xFFFF); [reflexivity | lia].
Qed.

(** C6, as the code has it.  [_getEOCD] of src/src/zip.js never rejects
    a comment: a string is cut to its first 65535 characters, anything
    else (and the empty string) becomes the empty comment, the trailer
    carries the length of the result in its two-byte length field and its
    characters, one byte each, after it, and [toUint8Array] appends that
    trailer to the parts and the central directory.  [_pack] of
    src/zip.js, which goes through [validateComment], throws instead when
    the comment is longer than 65535 characters. *)
Theorem comment_truncated_or_rejected (z : ZipParts.Zipper) (c : jsval) :
  ZipParts.coerceComment c =
    match c with
    | VStr s => firstn (Z.to_nat 65535) s
    | _ => []
    end /\
  len (ZipParts.coerceComment c) <= 65535 /\
  (exists fixed,
      List.length fixed = 20%nat /\
      ZipParts._getEOCD z c =
      fixed
      ++ numberToBytes (len (ZipParts.coerceComment c)) 2
      ++ ZipParts.stringToBytes (ZipParts.coerceComment c)) /\
  le_value (numberToBytes (len (ZipParts.coerceComment c)) 2)
    = len (ZipParts.coerceComment c) /\
  ZipParts.toUint8Array z c =
    List.concat (ZipParts._parts z) ++ List.concat (ZipParts._cd z)
    ++ ZipParts._getEOCD z c /\
  (forall zj s clk t,
      len s > 0xFFFF ->
      ZipJs._pack zj (VStr s) clk t = ZipJs.Throw ZipJs.CommentTooLong).
Proof.
  split; [apply coerceComment_firstn|].
  split; [apply coerceComment_length|].
  split; [apply _getEOCD_layout|].
  split.
  { rewrite numberToBytes_2_value. apply Z.mod_small.
    pose proof (coerceComment_length c). unfold len in *. lia. }
  split.
  { unfold ZipParts.toUint8Array. rewrite !concat_app. cbn [List.concat].
    now rewrite app_nil_r. }
  intros zj s clk t. apply long_comment_throws.
Qed.

Lemma comment_truncated_or_rejected_witness :
  len (repeat 97 (Z.to_nat 65536)) > 0xFFFF /\
  ZipJs._pack (ZipJs.mkZipper []) (VStr (repeat 97 (Z.to_nat 65536)))
    (fun _ => mkDate 2024 0 1 0 0 0) 0%nat
  = ZipJs.Throw ZipJs.CommentTooLong.
Proof.
  assert (H : len (repeat 97 (Z.to_nat 65536)) > 0xFFFF)
    by (vm_compute; reflexivity).
  split; [exact H|].
  apply (comment_truncated_or_rejected ZipParts.empty VNull). exact H.
Defined.

(** Batch finalization through [_pack] of src/zip.js fails on a comment
    of 65536 characters and keeps a number as its decimal string: the
    claim of C6 as it is worded does not hold of that builder. *)
Lemma long_comment_rejected_by_pack :
  ZipJs._pack (ZipJs.mkZipper []) (VStr (repeat 97 (Z.to_nat 65536)))
    (fun _ => mkDate 2024 0 1 0 0 0) 0%nat
  = ZipJs.Throw ZipJs.CommentTooLong /\
  ZipJs.validateComment (ZipJs.orEmpty (VNum 7)) = ZipJs.Return (lit "7").
Proof. split; vm_compute; reflexivity. Qed.

End CommentFacts.

(** ** The streaming builder: what the Data Descriptor records *)

Section StreamFacts.
Import JS Codec Stream.

Variable TABLE : list Z.

Lemma foldChunk_folded (value : Uint8Array) (crc i : Z) :
  foldChunk TABLE value crc i (i + len value)
  = Crc.crc_loop TABLE crc
      (map (fun k => index value (i + Z.of_nat k))
           (seq 0 (List.length value))).
Proof.
  unfold foldChunk, Crc.crc_loop.
  replace (Z.to_nat (i + len value - i)) with (List.length value)
    by (unfold len; lia).
  generalize (seq 0 (List.length value)). intros l. revert crc.
  induction l as [|k l IH]; intros crc; [reflexivity|].
  cbn [fold_left map]. apply IH.
Qed.

Lemma crc_loop_app (crc : Z) (a b : list Z) :
  Crc.crc_loop TABLE crc (a ++ b)
  = Crc.crc_loop TABLE (Crc.crc_loop TABLE crc a) b.
Proof. unfold Crc.crc_loop. apply fold_left_app. Qed.

(** The read loop on chunks that stay within the size limit: the length
    is the total, every chunk is forwarded, and the checksum runs over
    [foldedBytes]. *)
Lemma readLoop_folded (chunks : list Uint8Array) :
  forall r,
  i r = fileLength r -> 0 <= fileLength r ->
  fileLength r + len (List.concat chunks) <= 0xFFFFFFFF ->
  readLoop TABLE chunks r =
  mkReading
    (Crc.crc_loop TABLE (crc r) (foldedBytes (i r) chunks))
    (fileLength r + len (List.concat chunks))
    (fileLength r + len (List.concat chunks))
    (fold_left _enqueue chunks (sink r)).
Proof.
  induction chunks as [|value rest IH]; intros r Hi Hn Hle.
  - destruct r as [c fl j sk]. cbn in *. subst j.
    unfold len. cbn. rewrite Z.add_0_r. reflexivity.
  - cbn [readLoop List.concat foldedBytes fold_left] in *.
    rewrite len_app in Hle.
    assert (0 <= len value) by (unfold len; lia).
    assert (0 <= len (List.concat rest)) by (unfold len; lia).
    destruct (Z.gtb_spec (fileLength r + len value) 0xFFFFFFFF) as [Hc|_];
      [lia|].
    rewrite IH; cbn [crc fileLength i sink]; try lia.
    rewrite Hi, foldChunk_folded, crc_loop_app, len_app.
    rewrite Z.max_r by lia. rewrite !Z.add_assoc. reflexivity.
Qed.

Lemma fold_enqueue (chunks : list Uint8Array) (z : ZipperStream) :
  fold_left _enqueue chunks z =
  mkStream (enqueued z ++ chunks)
           (_totalBytes z + len (List.concat chunks))
           (Stream._cd z).
Proof.
  revert z. induction chunks as [|c chunks IH]; intros z.
  - destruct z. cbn. unfold len. cbn. now rewrite app_nil_r, Z.add_0_r.
  - cbn [fold_left List.concat]. rewrite IH. unfold _enqueue.
    cbn [enqueued _totalBytes Stream._cd].
    rewrite len_app, <- app_assoc, Z.add_assoc. reflexivity.
Qed.

End StreamFacts.

Section StreamDescriptor.
Import JS Codec Stream.

Lemma dataDescriptor_fields (checksum size : Z) :
  descriptorCrc (dataDescriptor numberToBytes checksum size)
    = checksum mod 2 ^ 32 /\
  descriptorSize (dataDescriptor numberToBytes checksum size)
    = size mod 2 ^ 32.
Proof.
  unfold descriptorCrc, descriptorSize, dataDescriptor.
  rewrite map_u8_bytes.
  - pose proof (numberToBytes_4_value checksum) as Hc.
    pose proof (numberToBytes_4_value size) as Hs.
    pose proof (numberToBytes_length checksum 4) as Lc.
    pose proof (numberToBytes_length size 4) as Ls.
    destruct (numberToBytes checksum 4) as [|c0 [|c1 [|c2 [|c3 [|? ?]]]]];
      try discriminate Lc.
    destruct (numberToBytes size 4) as [|s0 [|s1 [|s2 [|s3 [|? ?]]]]];
      try discriminate Ls.
    split; [exact Hc | exact Hs].
  - unfold is_bytes. repeat rewrite Forall_app.
    repeat split; try apply numberToBytes_is_bytes.
    repeat constructor; unfold is_byte; lia.
Qed.

(** On chunks within the size limit [addStream] forwards a local header
    and the chunks, then a Data Descriptor whose size is the total
    length and whose checksum runs over [foldedBytes 0 chunks]. *)
Lemma addStream_descriptor (z : ZipperStream) (now : Date) (f : jsstring)
    (chunks : list Uint8Array) :
  len (stripTrailingSlash (stripLeadingSlash (collapseSlashes f))) <> 0 ->
  len (List.concat chunks) <= 0xFFFFFFFF ->
  exists lfh cdh total,
    addStreamWith z now (VStr f) chunks =
    (Some (len (Stream._cd z) + 1),
     mkStream
       (enqueued z ++ [lfh] ++ chunks
        ++ [dataDescriptor numberToBytes
              (Crc.crc_finish
                 (Crc.crc_loop Crc.Zipper_CRC_TABLE (-1)
                    (foldedBytes 0 chunks)))
              (len (List.concat chunks))])
       total
       (Stream._cd z ++ [cdh])).
Proof.
  intros Hf Hle. unfold addStreamWith, addStream.
  destruct (Z.eqb_spec
              (len (stripTrailingSlash (stripLeadingSlash (collapseSlashes f))))
              0) as [E|_]; [contradiction|].
  assert (0 <= len (List.concat chunks)) by (unfold len; lia).
  rewrite readLoop_folded; cbn [crc fileLength i sink]; try lia.
  rewrite Z.add_0_l.
  destruct (Z.gtb_spec (len (List.concat chunks)) 0xFFFFFFFF) as [Hc|_];
    [lia|].
  rewrite fold_enqueue. unfold _enqueue.
  cbn [enqueued _totalBytes Stream._cd].
  do 3 eexists. f_equal.
  - rewrite len_app. reflexivity.
  - rewrite <- !app_assoc. reflexivity.
Qed.

(** C3.  A source delivers the bytes 1..35 in chunks of 10, 20 and 5
    bytes.  The Data Descriptor that [addStream] emits after the three
    chunks has size 35, but its CRC is that of the bytes the loop read
    (the second and third chunk indexed from 10 and from 30, the reads
    past their ends counting as 0), not the CRC of the 35 bytes; the same
    bytes delivered as one chunk give the CRC of the 35 bytes. *)
Theorem stream_descriptor_crc_depends_on_chunking :
  let c1 := map Z.of_nat (seq 1 10) in
  let c2 := map Z.of_nat (seq 11 20) in
  let c3 := map Z.of_nat (seq 31 5) in
  let now := mkDate 2024 0 1 12 30 10 in
  let split3 := snd (addStreamWith empty now (VStr (lit "f.bin")) [c1; c2; c3]) in
  let whole := snd (addStreamWith empty now (VStr (lit "f.bin")) [c1 ++ c2 ++ c3]) in
  exists lfh d d',
    enqueued split3 = [lfh; c1; c2; c3; d] /\
    enqueued whole = [lfh; c1 ++ c2 ++ c3; d'] /\
    descriptorSize d = 35 /\
    descriptorSize d' = 35 /\
    descriptorCrc d' = Crc.Zipper_bytesToCrc32 (c1 ++ c2 ++ c3) /\
    descriptorCrc d' = 0x463FBDB6 /\
    descriptorCrc d = Crc.Zipper_bytesToCrc32 (foldedBytes 0 [c1; c2; c3]) /\
    descriptorCrc d = 0xAAD34460 /\
    foldedBytes 0 [c1; c2; c3]
      = c1 ++ map Z.of_nat (seq 21 10) ++ repeat 0 15 /\
    descriptorCrc d <> Crc.Zipper_bytesToCrc32 (c1 ++ c2 ++ c3).
Proof.
  intros c1 c2 c3 now split3 whole.
  do 3 eexists.
  split; [vm_compute; reflexivity|].
  split; [vm_compute; reflexivity|].
  repeat split; try (vm_compute; reflexivity).
  vm_compute. discriminate.
Qed.

End StreamDescriptor.

(** ** Offsets in the central directory *)

Section OffsetFacts.
Import JS Codec.

Lemma totalLength_from (parts : list Uint8Array) (a : Z) :
  fold_left (fun total part => total + len part) parts a
  = a + totalLength parts.
Proof.
  unfold totalLength. revert a.
  induction parts as [|p parts IH]; intros a; cbn [fold_left].
  - lia.
  - rewrite IH, (IH (0 + len p)). lia.
Qed.

Lemma totalLength_app (a b : list Uint8Array) :
  totalLength (a ++ b) = totalLength a + totalLength b.
Proof.
  unfold totalLength at 1. rewrite fold_left_app.
  fold (totalLength a). apply totalLength_from.
Qed.

Lemma totalLength_nonneg (parts : list Uint8Array) : 0 <= totalLength parts.
Proof.
  induction parts as [|p parts IH] using rev_ind.
  - cbn. lia.
  - rewrite totalLength_app. unfold totalLength at 2. cbn [fold_left].
    unfold len. lia.
Qed.

Lemma skipn_app_exact {A} (a b : list A) (n : nat) :
  List.length a = n -> skipn n (a ++ b) = b.
Proof.
  intros <-. rewrite skipn_app, skipn_all, Nat.sub_diag. reflexivity.
Qed.

Lemma firstn_app_exact {A} (a b : list A) (n : nat) :
  List.length a = n -> firstn n (a ++ b) = a.
Proof.
  intros <-. rewrite firstn_app, firstn_all, Nat.sub_diag.
  cbn [firstn]. now rewrite app_nil_r.
Qed.

(** The field at a known position of a header. *)
Lemma field_at (prefix field rest : Uint8Array) (p n : nat) :
  List.length prefix = p -> List.length field = n ->
  firstn n (skipn p (prefix ++ field ++ rest)) = field.
Proof.
  intros Hp Hn. rewrite (skipn_app_exact _ _ _ Hp).
  apply firstn_app_exact. exact Hn.
Qed.

Lemma dosBytes_length (d : Date) : List.length (ZipJs.dosBytes d) = 4%nat.
Proof. reflexivity. Qed.

Lemma ZipJs_cdOffsetField (d : Date) (e : ZipJs.entry) (off : Z) :
  ZipJs.cdOffsetField (ZipJs.centralDirectoryHeaderAt d e off)
  = off mod 2 ^ 32.
Proof.
  unfold ZipJs.cdOffsetField, ZipJs.centralDirectoryHeaderAt.
  rewrite <- numberToBytes_4_value. reflexivity.
Qed.

Lemma ZipJs_localFileHeaderAt_length (d : Date) (e : ZipJs.entry) :
  len (ZipJs.localFileHeaderAt d e)
  = 30 + len (ZipJs.pathOrUntitled (ZipJs.path e)).
Proof.
  unfold ZipJs.localFileHeaderAt, len.
  repeat rewrite length_app. rewrite !numberToBytes_length, dosBytes_length.
  unfold stringToBytes. rewrite length_map, length_seq.
  cbn [List.length]. lia.
Qed.

(** The state of the loop of [_pack] after a list of entries. *)
Lemma packedFrom_snoc (clk : Clock) (es : list ZipJs.entry) (e : ZipJs.entry) :
  forall (t : nat) (st : ZipJs.packing),
  ZipJs.packedFrom clk t (es ++ [e]) st =
  let st' := ZipJs.packedFrom clk t es st in
  let t' := (t + 2 * List.length es)%nat in
  let localHeader := ZipJs.localFileHeaderAt (clk t') e in
  let cdHeader :=
    ZipJs.centralDirectoryHeaderAt (clk (S t')) e (ZipJs.offset st') in
  ZipJs.mkPacking
    (ZipJs.parts st' ++ [localHeader; ZipJs.data e])
    (ZipJs.cd st' ++ [cdHeader])
    (ZipJs.offset st' + (len localHeader + len (ZipJs.data e)))
    (ZipJs.cdSize st' + len cdHeader).
Proof.
  induction es as [|e0 es IH]; intros t st.
  - cbn. rewrite Nat.add_0_r. reflexivity.
  - cbn [app ZipJs.packedFrom]. rewrite IH. cbn zeta.
    replace (S (S t) + 2 * List.length es)%nat
      with (t + 2 * List.length (e0 :: es))%nat by (cbn [List.length]; lia).
    reflexivity.
Qed.

Lemma packedFrom_shape (clk : Clock) (t : nat) (es : list ZipJs.entry) :
  let st := ZipJs.packedFrom clk t es ZipJs.packing0 in
  List.length (ZipJs.parts st) = (2 * List.length es)%nat /\
  List.length (ZipJs.cd st) = List.length es /\
  ZipJs.offset st = totalLength (ZipJs.parts st) /\
  forall i e, nth_error es i = Some e ->
    nth_error (ZipJs.parts st) (2 * i)
      = Some (ZipJs.localFileHeaderAt (clk (t + 2 * i)%nat) e) /\
    nth_error (ZipJs.parts st) (2 * i + 1) = Some (ZipJs.data e) /\
    nth_error (ZipJs.cd st) i
      = Some (ZipJs.centralDirectoryHeaderAt (clk (S (t + 2 * i))) e
                (totalLength (firstn (2 * i) (ZipJs.parts st)))).
Proof.
  induction es as [|e0 es IH] using rev_ind.
  - cbn. split; [reflexivity|]. split; [reflexivity|]. split; [reflexivity|].
    intros [|i] e H; discriminate H.
  - rewrite packedFrom_snoc. cbn zeta.
    destruct IH as (Lp & Lc & Ho & Hn).
    set (st' := ZipJs.packedFrom clk t es ZipJs.packing0) in *.
    cbn [ZipJs.parts ZipJs.cd ZipJs.offset].
    rewrite !length_app, Lp, Lc. cbn [List.length].
    split; [lia|]. split; [lia|]. split.
    { rewrite totalLength_app, Ho. unfold totalLength at 3.
      cbn [fold_left]. lia. }
    intros i e Hi.
    destruct (Nat.lt_ge_cases i (List.length es)) as [Hlt|Hge].
    + rewrite nth_error_app1 in Hi by exact Hlt.
      destruct (Hn i e Hi) as (H1 & H2 & H3).
      rewrite !nth_error_app1 by lia.
      rewrite firstn_app.
      replace (2 * i - List.length (ZipJs.parts st'))%nat with 0%nat by lia.
      cbn [firstn]. rewrite app_nil_r.
      repeat split; assumption.
    + assert (Ei : i = List.length es).
      { assert (Hs : nth_error (es ++ [e0]) i <> None) by congruence.
        apply nth_error_Some in Hs. rewrite length_app in Hs.
        cbn [List.length] in Hs. lia. }
      subst i. rewrite nth_error_app2, Nat.sub_diag in Hi by lia.
      cbn in Hi. inversion Hi; subst e0.
      rewrite !nth_error_app2 by lia.
      replace (2 * List.length es - List.length (ZipJs.parts st'))%nat
        with 0%nat by lia.
      replace (2 * List.length es + 1 - List.length (ZipJs.parts st'))%nat
        with 1%nat by lia.
      replace (List.length es - List.length (ZipJs.cd st'))%nat
        with 0%nat by lia.
      rewrite firstn_app_exact by lia.
      rewrite <- Ho. repeat split; reflexivity.
Qed.

Lemma ZipParts_cdOffsetField (d : Date) (f : jsstring) (b : Uint8Array)
    (isFolder : bool) (off : Z) :
  ZipParts.cdOffsetField (ZipParts.cdHeader d f b isFolder off)
  = off mod 2 ^ 32.
Proof.
  rewrite <- numberToBytes_4_value.
  rewrite <- (map_u8_bytes (numberToBytes off 4))
    by apply numberToBytes_is_bytes.
  unfold ZipParts.cdOffsetField, ZipParts.cdHeader.
  destruct isFolder; reflexivity.
Qed.

Lemma partsOf_firstn (es : list ZipParts.registered) (i : nat) :
  ZipParts.partsOf (firstn i es) = firstn (2 * i) (ZipParts.partsOf es).
Proof.
  revert i. induction es as [|e es IH]; intros i.
  - now rewrite !firstn_nil.
  - destruct i as [|i]; [reflexivity|].
    replace (2 * S i)%nat with (S (S (2 * i))) by lia.
    cbn [firstn ZipParts.partsOf flat_map app].
    fold (ZipParts.partsOf es). fold (ZipParts.partsOf (firstn i es)).
    now rewrite IH.
Qed.

Lemma cumulative_snoc (es : list ZipParts.registered)
    (e : ZipParts.registered) :
  ZipParts.cumulative es ->
  ZipParts.r_offset e = totalLength (ZipParts.partsOf es) ->
  ZipParts.cumulative (es ++ [e]).
Proof.
  intros Hc He i x Hi.
  destruct (Nat.lt_ge_cases i (List.length es)) as [Hlt|Hge].
  - rewrite nth_error_app1 in Hi by exact Hlt.
    rewrite firstn_app. replace (i - List.length es)%nat with 0%nat by lia.
    cbn [firstn]. rewrite app_nil_r. apply Hc. exact Hi.
  - assert (Ei : i = List.length es).
    { assert (Hs : nth_error (es ++ [e]) i <> None) by congruence.
      apply nth_error_Some in Hs. rewrite length_app in Hs.
      cbn [List.length] in Hs. lia. }
    subst i. rewrite nth_error_app2, Nat.sub_diag in Hi by lia.
    cbn in Hi. inversion Hi; subst x.
    rewrite firstn_app_exact by reflexivity. exact He.
Qed.

Lemma cumulative_removelast (es : list ZipParts.registered) :
  ZipParts.cumulative es -> ZipParts.cumulative (removelast es).
Proof.
  destruct es as [|x es] using rev_ind; [trivial|].
  rewrite removelast_last. intros Hc i e Hi.
  assert (Hlt : (i < List.length es)%nat).
  { apply nth_error_Some. congruence. }
  specialize (Hc i e). rewrite nth_error_app1 in Hc by exact Hlt.
  rewrite (Hc Hi), firstn_app.
  replace (i - List.length es)%nat with 0%nat by lia.
  cbn [firstn]. now rewrite app_nil_r.
Qed.

(** Reachable states hold entries with cumulative offsets. *)
Lemma run_cumulative (cs : list ZipParts.call) :
  exists es, ZipParts.holds (ZipParts.run ZipParts.empty cs) es /\
             ZipParts.cumulative es.
Proof.
  induction cs as [|c cs IH] using rev_ind.
  - exists []. split; [split; reflexivity|].
    intros [|i] e H; discriminate H.
  - destruct IH as [es [Hes Hcum]]. rewrite run_app.
    set (z := ZipParts.run ZipParts.empty cs) in *.
    change (ZipParts.run z [c]) with (snd (ZipParts.run_call z c)).
    assert (Hadd : forall now p d f,
               exists es',
                 ZipParts.holds (snd (ZipParts._addEntry z now p d f)) es' /\
                 ZipParts.cumulative es').
    { intros now p d f.
      destruct (_addEntry_holds z es now p d f Hes)
        as [_ [E | [e (He & _ & _ & Ho & _)]]].
      - exists es. rewrite E. split; assumption.
      - exists (es ++ [e]). split; [exact He|].
        apply cumulative_snoc; [exact Hcum|].
        rewrite Ho. destruct Hes as [-> _]. reflexivity. }
    destruct c as [now p d | now p |]; cbn [ZipParts.run_call].
    + apply Hadd.
    + apply Hadd.
    + exists (removelast es). split.
      * apply pop_holds. exact Hes.
      * apply cumulative_removelast. exact Hcum.
Qed.

(** C2.  In the output of [_pack] (src/zip.js) the segments [2j] and
    [2j+1] are the local file header and the data of entry [j], and the
    offset field of the central directory header of entry [i] holds the
    number of bytes of the segments before [2i], that is the sum over the
    entries before [i] of header length plus data length, written as a
    32-bit field (so reduced modulo 2^32, and the sum itself while the
    sum is below 2^32).  The same holds of the parts and records that any
    sequence of calls of the parts-based builder (src/src/zip.js) leaves
    behind.  The first entry has offset 0.  [_pack] returns whenever the
    comment is at most 65535 characters long. *)
Theorem cd_offsets_cumulative :
  (forall z c clk t,
      len (ToString c) <= 0xFFFF ->
      exists out,
        ZipJs._pack z c clk t
        = ZipJs.Return (out, (t + 2 * List.length (ZipJs._entries z))%nat)) /\
  (forall z c clk t out t',
      ZipJs._pack z c clk t = ZipJs.Return (out, t') ->
      forall i e,
        nth_error (ZipJs._entries z) i = Some e ->
        exists lh h,
          nth_error out (2 * i) = Some lh /\
          nth_error out (2 * i + 1) = Some (ZipJs.data e) /\
          len lh = 30 + len (ZipJs.pathOrUntitled (ZipJs.path e)) /\
          nth_error out (2 * List.length (ZipJs._entries z) + i) = Some h /\
          ZipJs.cdOffsetField h
            = totalLength (firstn (2 * i) out) mod 2 ^ 32 /\
          (totalLength (firstn (2 * i) out) < 2 ^ 32 ->
           ZipJs.cdOffsetField h = totalLength (firstn (2 * i) out))) /\
  (forall cs i h,
      let z := ZipParts.run ZipParts.empty cs in
      nth_error (ZipParts._cd z) i = Some h ->
      ZipParts.cdOffsetField h
        = totalLength (firstn (2 * i) (ZipParts._parts z)) mod 2 ^ 32 /\
      (totalLength (firstn (2 * i) (ZipParts._parts z)) < 2 ^ 32 ->
       ZipParts.cdOffsetField h
         = totalLength (firstn (2 * i) (ZipParts._parts z)))).
Proof.
  split; [|split].
  - intros z c clk t Hc. rewrite _pack_closed.
    destruct (ZipJs.validateComment (ZipJs.orEmpty c)) as [cm|err] eqn:E.
    + eexists. reflexivity.
    + destruct (validateComment_throw _ _ E) as [_ Hl].
      unfold ZipJs.orEmpty in Hl.
      destruct (truthy c); [lia | cbn in Hl; lia].
  - intros z c clk t out t' Hpack i e Hi.
    rewrite _pack_closed in Hpack.
    destruct (ZipJs.validateComment (ZipJs.orEmpty c)) as [cm|err];
      [|discriminate Hpack].
    cbn zeta in Hpack. inversion Hpack as [[Hout Ht]]. clear Hpack Ht.
    destruct (packedFrom_shape clk t (ZipJs._entries z)) as (Lp & Lc & _ & Hn).
    fold ZipJs.packing0 in Hout |- *.
    set (st := ZipJs.packedFrom clk t (ZipJs._entries z) ZipJs.packing0) in *.
    destruct (Hn i e Hi) as (H1 & H2 & H3).
    assert (Hlt : (i < List.length (ZipJs._entries z))%nat).
    { apply nth_error_Some. congruence. }
    assert (Hf : firstn (2 * i) (ZipJs.parts st ++ ZipJs.cd st ++
                   [ZipJs.getEOCDHeader
                      (ZipJs.mkEocd (len (ZipJs.cd st)) (ZipJs.cdSize st)
                         (ZipJs.offset st) cm)])
                 = firstn (2 * i) (ZipJs.parts st)).
    { rewrite firstn_app.
      replace (2 * i - List.length (ZipJs.parts st))%nat with 0%nat by lia.
      cbn [firstn]. now rewrite app_nil_r. }
    rewrite Hf.
    eexists. eexists.
    split; [rewrite nth_error_app1 by lia; exact H1|].
    split; [rewrite nth_error_app1 by lia; exact H2|].
    split; [apply ZipJs_localFileHeaderAt_length|].
    split.
    { rewrite nth_error_app2 by lia. rewrite nth_error_app1 by lia.
      replace (2 * List.length (ZipJs._entries z) + i
               - List.length (ZipJs.parts st))%nat with i by lia.
      exact H3. }
    rewrite ZipJs_cdOffsetField.
    split; [reflexivity|].
    intros Hb. apply Z.mod_small. split; [apply totalLength_nonneg | exact Hb].
  - intros cs i h z Hh.
    destruct (run_cumulative cs) as [es [[Hp Hc] Hcum]]. fold z in Hp, Hc.
    rewrite Hc in Hh. unfold ZipParts.cdOf in Hh.
    rewrite nth_error_map in Hh.
    destruct (nth_error es i) as [e|] eqn:He; [|discriminate Hh].
    cbn [option_map] in Hh. inversion Hh; subst h.
    rewrite ZipParts_cdOffsetField, (Hcum i e He), Hp, partsOf_firstn.
    split; [reflexivity|].
    intros Hb. apply Z.mod_small. split; [apply totalLength_nonneg | exact Hb].
Qed.

Lemma cd_offsets_cumulative_witness :
  let z := ZipJs.mkZipper [ZipJs.mkEntry (lit "a.txt") [1; 2; 3];
                           ZipJs.mkEntry (lit "b.txt") [4; 5]] in
  let clk : Clock := fun _ => mkDate 2024 0 1 12 30 10 in
  match ZipJs._pack z VUndefined clk 0%nat with
  | ZipJs.Return (out, _) =>
      nth_error (ZipJs._entries z) 1 = Some (ZipJs.mkEntry (lit "b.txt") [4; 5]) /\
      exists h, nth_error out 5 = Some h /\ ZipJs.cdOffsetField h = 38
  | ZipJs.Throw _ => False
  end.
Proof.
  intros z clk.
  destruct (ZipJs._pack z VUndefined clk 0%nat) as [[out t']|err] eqn:E;
    [|vm_compute in E; discriminate E].
  split; [reflexivity|].
  destruct (proj1 (proj2 cd_offsets_cumulative) z VUndefined clk 0%nat out t' E
              1%nat (ZipJs.mkEntry (lit "b.txt") [4; 5]) eq_refl)
    as (lh & h & _ & _ & _ & H4 & H5 & _).
  exists h. split; [exact H4|].
  rewrite H5. vm_compute in E. inversion E; subst out. reflexivity.
Defined.

End OffsetFacts.

(** ** Folder and file collisions *)

Section CollisionFacts.
Import JS Codec ZipJs.

Lemma str_eqb_eq (a b : jsstring) : str_eqb a b = true <-> a = b.
Proof.
  unfold str_eqb. destruct (list_eq_dec Z.eq_dec a b); split; intros H;
    congruence.
Qed.

Lemma str_eqb_refl (a : jsstring) : str_eqb a a = true.
Proof. now apply str_eqb_eq. Qed.

Lemma str_eqb_neq (a b : jsstring) : str_eqb a b = false <-> a <> b.
Proof.
  unfold str_eqb. destruct (list_eq_dec Z.eq_dec a b); split; intros H;
    congruence.
Qed.

Lemma startsWith_app (p r : jsstring) : startsWith (p ++ r) p = true.
Proof.
  induction p as [|c p IH]; [destruct r; reflexivity|].
  cbn [app startsWith]. now rewrite Z.eqb_refl, IH.
Qed.

Lemma startsWith_inv (s p : jsstring) :
  startsWith s p = true -> exists r, s = p ++ r.
Proof.
  revert s. induction p as [|c p IH]; intros s H.
  - exists s. reflexivity.
  - destruct s as [|d s]; [discriminate H|]. cbn [startsWith] in H.
    apply andb_prop in H. destruct H as [Hc Hs].
    apply Z.eqb_eq in Hc. subst d.
    destruct (IH s Hs) as [r ->]. exists r. reflexivity.
Qed.

Lemma split_nonempty (s : jsstring) : split s <> [].
Proof.
  destruct s as [|c r]; cbn [split]; [discriminate|].
  destruct (c =? 47); [discriminate|].
  destruct (split r); discriminate.
Qed.

Lemma split_app_sep (f rest : jsstring) :
  split (f ++ 47 :: rest) = split f ++ split rest.
Proof.
  induction f as [|c f IH].
  - reflexivity.
  - cbn [app split]. rewrite IH.
    destruct (c =? 47); [reflexivity|].
    pose proof (split_nonempty f) as Hf.
    destruct (split f) as [|h t]; [contradiction|]. reflexivity.
Qed.

Lemma join_cons_nonempty (x : jsstring) (l : list jsstring) :
  l <> [] -> join [47] (x :: l) = x ++ 47 :: join [47] l.
Proof. destruct l; [contradiction | reflexivity]. Qed.

Lemma join_split (s : jsstring) : join [47] (split s) = s.
Proof.
  induction s as [|c r IH]; [reflexivity|].
  cbn [split]. destruct (Z.eqb_spec c 47) as [->|Hc].
  - rewrite join_cons_nonempty by apply split_nonempty.
    now rewrite IH.
  - pose proof (split_nonempty r) as Hr.
    destruct (split r) as [|h t]; [contradiction|].
    destruct t as [|h' t'].
    + cbn [join] in *. now rewrite IH.
    + rewrite join_cons_nonempty in * by discriminate.
      cbn [app]. now rewrite IH.
Qed.

(** The parents that [getFolderPathsFromPath] lists are the folders the
    path implies. *)
Lemma folder_in_parents (f q : jsstring) :
  isFolderOf f q -> In f (getFolderPathsFromPath q).
Proof.
  intros [rest ->]. unfold getFolderPathsFromPath.
  assert (Hne : str_eqb (f ++ [47] ++ rest) [] = false).
  { apply str_eqb_neq. destruct f; discriminate. }
  rewrite Hne. cbn [app]. rewrite split_app_sep.
  apply in_map_iff. exists (List.length (split f)). split.
  - rewrite firstn_app_exact by reflexivity. apply join_split.
  - apply in_seq. rewrite length_app.
    pose proof (split_nonempty f) as Hf.
    pose proof (split_nonempty rest) as Hr.
    destruct (split f); [contradiction|].
    destruct (split rest); [contradiction|].
    cbn [List.length]. lia.
Qed.

Lemma hasFile_In (z : Zipper) (e : entry) :
  In e (_entries z) -> hasFile z (path e) = true.
Proof.
  intros Hin. unfold hasFile, getFile.
  destruct (find (fun e0 => str_eqb (path e0) (path e)) (_entries z)) eqn:F;
    [reflexivity|].
  pose proof (find_none _ _ F e Hin) as H. cbn in H.
  rewrite str_eqb_refl in H. discriminate H.
Qed.

Lemma hasFile_false (z : Zipper) (p : jsstring) (e : entry) :
  hasFile z p = false -> In e (_entries z) -> path e <> p.
Proof.
  intros H Hin E. subst p. rewrite (hasFile_In z e Hin) in H. discriminate H.
Qed.

Lemma hasFolder_In (z : Zipper) (p : jsstring) (e : entry) :
  In e (_entries z) -> isFolderOf p (path e) -> hasFolder z p = true.
Proof.
  intros Hin [rest Hr]. unfold hasFolder, getFolder.
  destruct (find (fun e0 => startsWith (path e0) (p ++ [47])) (_entries z))
    eqn:F; [reflexivity|].
  pose proof (find_none _ _ F e Hin) as H. cbn in H.
  rewrite Hr, app_assoc, startsWith_app in H. discriminate H.
Qed.

Lemma hasFolder_false (z : Zipper) (p : jsstring) (e : entry) :
  hasFolder z p = false -> In e (_entries z) -> ~ isFolderOf p (path e).
Proof.
  intros H Hin Hf. rewrite (hasFolder_In z p e Hin Hf) in H. discriminate H.
Qed.

(** The state-based form: an entry in conflict is in the archive. *)
Lemma addEntry_collision (z : Zipper) (p d : jsval) (e : entry) :
  len (normalizePath p) <> 0 ->
  len (normalizePath p) <= 0xFFFF ->
  hasFile z (normalizePath p) = false ->
  In e (_entries z) ->
  isFolderOf (normalizePath p) (path e)
  \/ isFolderOf (path e) (normalizePath p) ->
  exists err, addEntry z p d = (Throw err, z) /\ isCollision err.
Proof.
  intros Hne Hle Hnf Hin Hcol. unfold addEntry.
  set (q := normalizePath p) in *.
  destruct (Z.eqb_spec (len q) 0) as [E|_]; [contradiction|].
  destruct (Z.gtb_spec (len q) 0xFFFF) as [E|_]; [lia|].
  rewrite Hnf.
  destruct (hasFolder z q) eqn:Hfo.
  - exists CollidesWithFolder. split; [reflexivity | left; reflexivity].
  - destruct Hcol as [Hc|Hc].
    + rewrite (hasFolder_In z q e Hin Hc) in Hfo. discriminate Hfo.
    + assert (Hex : existsb (hasFile z) (getFolderPathsFromPath q) = true).
      { apply existsb_exists. exists (path e). split.
        - apply folder_in_parents. exact Hc.
        - apply hasFile_In. exact Hin. }
      rewrite Hex.
      exists ParentCollidesWithFile. split; [reflexivity | right; reflexivity].
Qed.

(** What a successful [addEntry] tells. *)
Lemma addEntry_Return (z z1 : Zipper) (p d : jsval) (n : Z) :
  addEntry z p d = (Return n, z1) ->
  pathAccepted z (normalizePath p) = true /\
  exists b, z1 = mkZipper (_entries z ++ [mkEntry (normalizePath p) b]).
Proof.
  unfold addEntry, pathAccepted. set (q := normalizePath p).
  destruct (len q =? 0); [discriminate|].
  destruct (len q >? 0xFFFF); [discriminate|].
  destruct (hasFile z q); [discriminate|].
  destruct (hasFolder z q); [discriminate|].
  destruct (existsb (hasFile z) (getFolderPathsFromPath q)); [discriminate|].
  destruct (coerceData d) as [b|err]; [|discriminate].
  destruct (len b >? 0xFFFFFFFF); [discriminate|].
  intros H. inversion H. split; [reflexivity|]. exists b. reflexivity.
Qed.

Lemma isFolderOf_neq (p q : jsstring) : isFolderOf p q -> p <> q.
Proof.
  intros [rest ->] E. apply (f_equal (@List.length Z)) in E.
  rewrite !length_app in E. cbn in E. lia.
Qed.

Lemma hasFile_snoc (z : Zipper) (e : entry) (p : jsstring) :
  hasFile z p = false -> path e <> p ->
  hasFile (mkZipper (_entries z ++ [e])) p = false.
Proof.
  unfold hasFile, getFile. cbn [_entries]. intros H Hp.
  destruct (find (fun e0 => str_eqb (path e0) p) (_entries z)) eqn:F;
    [discriminate H|].
  destruct (find (fun e0 => str_eqb (path e0) p) (_entries z ++ [e])) eqn:F';
    [|reflexivity].
  apply find_some in F'. destruct F' as [Hin Heq].
  apply str_eqb_eq in Heq. apply in_app_or in Hin.
  destruct Hin as [Hin|[<-|[]]].
  - pose proof (find_none _ _ F _ Hin) as Hx. cbn in Hx.
    rewrite Heq, str_eqb_refl in Hx. discriminate Hx.
  - contradiction.
Qed.

(** The sequence form: the second of two adds in conflict fails. *)
Lemma addEntry_then_collision (z z1 : Zipper) (p1 d1 p2 d2 : jsval) (n : Z) :
  addEntry z p1 d1 = (Return n, z1) ->
  len (normalizePath p2) <> 0 ->
  len (normalizePath p2) <= 0xFFFF ->
  isFolderOf (normalizePath p2) (normalizePath p1)
  \/ isFolderOf (normalizePath p1) (normalizePath p2) ->
  exists err, addEntry z1 p2 d2 = (Throw err, z1) /\ isCollision err.
Proof.
  intros Hadd Hne Hle Hcol.
  destruct (addEntry_Return _ _ _ _ _ Hadd) as [Hacc [b ->]].
  set (q1 := normalizePath p1) in *. set (q2 := normalizePath p2) in *.
  unfold pathAccepted in Hacc.
  repeat (apply andb_prop in Hacc; destruct Hacc as [Hacc ?]).
  repeat match goal with
         | H : negb _ = true |- _ => apply negb_true_iff in H
         end.
  apply (addEntry_collision _ p2 d2 (mkEntry q1 b)); try assumption.
  all: fold q2.
  - apply hasFile_snoc.
    + destruct Hcol as [Hc|Hc].
      * (* q2 is a parent of q1: the parents of q1 were checked *)
        match goal with
        | H : existsb _ _ = false |- _ =>
            destruct (hasFile z q2) eqn:Hq; [|reflexivity];
            assert (Hex : existsb (hasFile z) (getFolderPathsFromPath q1) = true)
              by (apply existsb_exists; exists q2; split;
                  [apply folder_in_parents; exact Hc | exact Hq]);
            congruence
        end.
      * (* q1 is a parent of q2: no entry lies under q1 *)
        destruct (hasFile z q2) eqn:Hq; [|reflexivity].
        unfold hasFile, getFile in Hq.
        destruct (find (fun e0 => str_eqb (path e0) q2) (_entries z)) eqn:F;
          [|discriminate Hq].
        apply find_some in F. destruct F as [Hin Heq].
        apply str_eqb_eq in Heq.
        match goal with
        | H : hasFolder z q1 = false |- _ =>
            exfalso; apply (hasFolder_false z q1 e H Hin); rewrite Heq; exact Hc
        end.
    + cbn [path]. destruct Hcol as [Hc|Hc].
      * intros E. apply (isFolderOf_neq _ _ Hc). symmetry. exact E.
      * apply isFolderOf_neq. exact Hc.
  - cbn [_entries]. apply in_or_app. right. left. reflexivity.
Qed.

(** C4, as the code has it.  In src/zip.js every entry is a file and
    folders exist only as the parents that paths imply.  [addEntry]
    throws one of its two collision errors, and leaves the entries as
    they are, when the normalised path (not empty, at most 65535
    characters, not itself the path of an entry) is a folder that an
    existing entry implies or has an existing entry's path as one of its
    own folders.  So after a successful add of "a/b.txt" an add of "a"
    (or "a/") fails, and after a successful add of "a" an add of
    "a/b.txt" fails. *)
Theorem collision_rejected_by_addEntry :
  (forall z p d e,
      len (normalizePath p) <> 0 ->
      len (normalizePath p) <= 0xFFFF ->
      hasFile z (normalizePath p) = false ->
      In e (_entries z) ->
      isFolderOf (normalizePath p) (path e)
      \/ isFolderOf (path e) (normalizePath p) ->
      exists err, addEntry z p d = (Throw err, z) /\ isCollision err) /\
  (forall z z1 p1 d1 p2 d2 n,
      addEntry z p1 d1 = (Return n, z1) ->
      len (normalizePath p2) <> 0 ->
      len (normalizePath p2) <= 0xFFFF ->
      isFolderOf (normalizePath p2) (normalizePath p1)
      \/ isFolderOf (normalizePath p1) (normalizePath p2) ->
      exists err, addEntry z1 p2 d2 = (Throw err, z1) /\ isCollision err) /\
  (forall z z1 d1 d2 n,
      addEntry z (VStr (lit "a/b.txt")) d1 = (Return n, z1) ->
      (exists err,
          addEntry z1 (VStr (lit "a")) d2 = (Throw err, z1) /\
          isCollision err) /\
      (exists err,
          addEntry z1 (VStr (lit "a/")) d2 = (Throw err, z1) /\
          isCollision err)) /\
  (forall z z1 d1 d2 n,
      addEntry z (VStr (lit "a")) d1 = (Return n, z1) ->
      exists err,
        addEntry z1 (VStr (lit "a/b.txt")) d2 = (Throw err, z1) /\
        isCollision err).
Proof.
  split; [intros; eapply addEntry_collision; eassumption|].
  split; [intros; eapply addEntry_then_collision; eassumption|].
  split.
  - intros z z1 d1 d2 n H. split.
    + apply (addEntry_then_collision z z1 _ d1 (VStr (lit "a")) d2 n H).
      * vm_compute. discriminate.
      * vm_compute. discriminate.
      * left. exists (lit "b.txt"). reflexivity.
    + apply (addEntry_then_collision z z1 _ d1 (VStr (lit "a/")) d2 n H).
      * vm_compute. discriminate.
      * vm_compute. discriminate.
      * left. exists (lit "b.txt"). reflexivity.
  - intros z z1 d1 d2 n H.
    apply (addEntry_then_collision z z1 _ d1 (VStr (lit "a/b.txt")) d2 n H).
    + vm_compute. discriminate.
    + vm_compute. discriminate.
    + right. exists (lit "b.txt"). reflexivity.
Qed.

Lemma collision_rejected_by_addEntry_witness :
  let z1 := mkZipper [mkEntry (lit "a/b.txt") [104; 105]] in
  addEntry (mkZipper []) (VStr (lit "a/b.txt")) (VStr (lit "hi"))
    = (Return 1, z1) /\
  exists err,
    addEntry z1 (VStr (lit "a")) VNull = (Throw err, z1) /\ isCollision err.
Proof.
  intros z1.
  assert (H : addEntry (mkZipper []) (VStr (lit "a/b.txt")) (VStr (lit "hi"))
              = (Return 1, z1)) by (vm_compute; reflexivity).
  split; [exact H|].
  destruct collision_rejected_by_addEntry as (_ & _ & T & _).
  exact (proj1 (T (mkZipper []) z1 (VStr (lit "hi")) VNull 1 H)).
Defined.

(** The parts-based builder of src/src/zip.js, the one with
    [addFolder], looks for an equal name only: a file "a/b.txt" and a
    folder "a" are both registered, in either order, and so are the files
    "a" and "a/b.txt".  The claim of C4 as it is worded does not hold of
    that builder. *)
Lemma file_and_folder_both_registered :
  let now := mkDate 2024 0 1 12 30 10 in
  let hi := VStr (lit "hi") in
  let r1 := ZipParts.addFolder
              (snd (ZipParts.addFile ZipParts.empty now (VStr (lit "a/b.txt")) hi))
              now (VStr (lit "a")) in
  let r2 := ZipParts.addFile
              (snd (ZipParts.addFolder ZipParts.empty now (VStr (lit "a"))))
              now (VStr (lit "a/b.txt")) hi in
  let r3 := ZipParts.addFile
              (snd (ZipParts.addFile ZipParts.empty now (VStr (lit "a")) hi))
              now (VStr (lit "a/b.txt")) hi in
  fst r1 = 2 /\ ZipParts.getNames (snd r1) = [lit "a/b.txt"; lit "a/"] /\
  fst r2 = 2 /\ ZipParts.getNames (snd r2) = [lit "a/"; lit "a/b.txt"] /\
  fst r3 = 2 /\ ZipParts.getNames (snd r3) = [lit "a"; lit "a/b.txt"].
Proof. repeat split; vm_compute; reflexivity. Qed.

End CollisionFacts.

(** ** Further properties of the field codecs *)

Section CodecMore.
Import JS Codec Notions.

(** X1.  [numberToBytes(n, k)] for a field of at most four bytes gives
    [k] bytes that hold [n] reduced modulo 2^(8k), least significant byte
    first: a number that fits the field is stored as it is, a larger or a
    negative one wraps around. *)
Theorem numberToBytes_field (n : Z) (k : nat) :
  (k <= 4)%nat ->
  List.length (numberToBytes n k) = k /\
  is_bytes (numberToBytes n k) /\
  le_value (numberToBytes n k) = n mod 2 ^ (8 * Z.of_nat k) /\
  (0 <= n < 2 ^ (8 * Z.of_nat k) -> le_value (numberToBytes n k) = n).
Proof.
  intros Hk.
  split; [apply numberToBytes_length|].
  split; [apply numberToBytes_is_bytes|].
  assert (E : le_value (numberToBytes n k) = n mod 2 ^ (8 * Z.of_nat k)).
  { rewrite numberToBytes_value. apply ToInt32_mod_pow2. lia. }
  split; [exact E|].
  intros Hn. rewrite E. apply Z.mod_small. exact Hn.
Qed.

Lemma numberToBytes_field_witness :
  (2 <= 4)%nat /\ le_value (numberToBytes 0x1FF44 2) = 0xFF44.
Proof.
  assert (H : (2 <= 4)%nat) by lia.
  split; [exact H|].
  destruct (numberToBytes_field 0x1FF44 2 H) as (_ & _ & E & _).
  rewrite E. reflexivity.
Defined.

Lemma ToInt32_high (x : Z) :
  2 ^ 31 <= x < 2 ^ 32 -> ToInt32 x = x - 2 ^ 32.
Proof.
  intros Hx. unfold ToInt32.
  replace (x + 2 ^ 31) with ((x - 2 ^ 31) + 1 * 2 ^ 32) by lia.
  rewrite Z_mod_plus_full, Z.mod_small; lia.
Qed.

Lemma shl8_small (x : Z) : 0 <= x < 2 ^ 23 -> shl x 8 = x * 256.
Proof. intros Hx. rewrite shl_small; lia. Qed.

Lemma and_0xFF_byte (b : Z) : is_byte b -> and b 0xFF = b.
Proof.
  intros Hb. rewrite and_0xFF. apply Z.mod_small. exact Hb.
Qed.

(** The last step of [bytesToNumber] on four bytes: the shift wraps to a
    signed 32-bit integer. *)
Lemma shl8_add_byte (x b : Z) :
  0 <= x < 2 ^ 24 -> is_byte b -> shl x 8 + b = ToInt32 (x * 256 + b).
Proof.
  unfold is_byte. intros Hx Hb. unfold shl. change (8 mod 32) with 8.
  rewrite (ToInt32_small x), Z.shiftl_mul_pow2 by lia.
  change (2 ^ 8) with 256.
  destruct (Z.lt_ge_cases (x * 256) (2 ^ 31)) as [Hlt|Hge].
  - rewrite !ToInt32_small by lia. reflexivity.
  - rewrite !ToInt32_high by lia. lia.
Qed.

(** X2.  [bytesToNumber] reads a field of up to three bytes as the
    unsigned little-endian number it holds, and a four-byte field as
    that number wrapped to a signed 32-bit integer; so a number written
    by [numberToBytes(n, 4)] is read back as [n] only below 2^31, and as
    [n - 2^32] from 2^31 up to 2^32. *)
Theorem bytesToNumber_reads_field (bytes : Uint8Array) :
  is_bytes bytes -> (List.length bytes <= 4)%nat ->
  ZipParts.bytesToNumber bytes
  = (if (List.length bytes =? 4)%nat then ToInt32 (le_value bytes)
     else le_value bytes) /\
  (forall n, ZipParts.bytesToNumber (numberToBytes n 4) = ToInt32 n).
Proof.
  intros Hb Hl.
  assert (G : forall bs, is_bytes bs -> (List.length bs <= 4)%nat ->
              ZipParts.bytesToNumber bs
              = (if (List.length bs =? 4)%nat then ToInt32 (le_value bs)
                 else le_value bs)).
  { clear. intros bs Hb Hl. unfold is_bytes in Hb.
    destruct bs as [|b0 [|b1 [|b2 [|b3 [|b4 r]]]]];
      cbn [List.length] in Hl; try lia;
      repeat match goal with
             | H : Forall is_byte (_ :: _) |- _ =>
                 let Hx := fresh "Hx" in
                 let Hr := fresh "Hr" in
                 inversion H as [|? ? Hx Hr]; subst; clear H
             end;
      unfold ZipParts.bytesToNumber, le_value; cbn [fold_right List.length Nat.eqb];
      repeat match goal with
             | H : is_byte ?b |- context [and ?b 0xFF] =>
                 rewrite (and_0xFF_byte b H)
             end;
      unfold is_byte in *.
    - reflexivity.
    - rewrite shl8_small by lia. lia.
    - rewrite (shl8_small 0) by lia.
      rewrite shl8_small by lia. lia.
    - rewrite (shl8_small 0) by lia.
      rewrite (shl8_small (0 * 256 + b2)) by lia.
      rewrite shl8_small by lia. lia.
    - rewrite (shl8_small 0) by lia.
      rewrite (shl8_small (0 * 256 + b3)) by lia.
      rewrite (shl8_small ((0 * 256 + b3) * 256 + b2)) by lia.
      rewrite shl8_add_byte by (unfold is_byte; lia).
      f_equal. lia. }
  split; [apply G; assumption|].
  intros n. rewrite G.
  - rewrite numberToBytes_length. cbn [Nat.eqb].
    rewrite numberToBytes_4_value.
    unfold ToInt32. rewrite Zplus_mod_idemp_l. reflexivity.
  - apply numberToBytes_is_bytes.
  - rewrite numberToBytes_length. lia.
Qed.

Lemma bytesToNumber_reads_field_witness :
  is_bytes [0x00; 0x00; 0x00; 0x80] /\
  (List.length [0x00; 0x00; 0x00; 0x80] <= 4)%nat /\
  ZipParts.bytesToNumber [0x00; 0x00; 0x00; 0x80] = - 2 ^ 31.
Proof.
  assert (Hb : is_bytes [0x00; 0x00; 0x00; 0x80])
    by (apply is_bytes_forallb; reflexivity).
  assert (Hl : (List.length [0x00; 0x00; 0x00; 0x80] <= 4)%nat)
    by (cbn; lia).
  split; [exact Hb|]. split; [exact Hl|].
  rewrite (proj1 (bytesToNumber_reads_field _ Hb Hl)). reflexivity.
Defined.

Lemma u8_byte (b : Z) : is_byte b -> u8 b = b.
Proof. intros Hb. apply Z.mod_small. exact Hb. Qed.

Lemma map_u8_fixed (s : jsstring) : map u8 s = s <-> latin1 s.
Proof.
  unfold latin1. induction s as [|c s IH].
  - split; [constructor | reflexivity].
  - cbn [map]. split.
    + intros H. inversion H as [[Hc Hs]]. rewrite Hc, Hs. constructor.
      * unfold is_byte. rewrite <- Hc. apply Z.mod_pos_bound. lia.
      * apply IH. exact Hs.
    + intros H. inversion H as [|? ? Hc Hs]; subst.
      rewrite (u8_byte c Hc). f_equal. apply IH. exact Hs.
Qed.

(** X3.  [stringToBytes] keeps the low byte of every code unit, so
    [bytesToString] gives a string back exactly when all its code units
    are below 256; bytes always survive the trip through a string. *)
Theorem string_bytes_round_trip (s : jsstring) (b : Uint8Array) :
  is_bytes b ->
  ZipParts.bytesToString (ZipParts.stringToBytes s) = map u8 s /\
  (ZipParts.bytesToString (ZipParts.stringToBytes s) = s <-> latin1 s) /\
  ZipParts.stringToBytes (ZipParts.bytesToString b) = b.
Proof.
  intros Hb.
  assert (E : ZipParts.bytesToString (ZipParts.stringToBytes s) = map u8 s).
  { unfold ZipParts.bytesToString, ZipParts.stringToBytes.
    rewrite map_map. apply map_ext. intros c. unfold u8.
    apply Z.mod_small.
    pose proof (Z.mod_pos_bound c 256 ltac:(lia)). lia. }
  split; [exact E|]. split.
  - rewrite E. apply map_u8_fixed.
  - unfold ZipParts.bytesToString, ZipParts.stringToBytes.
    rewrite map_map. induction Hb as [|x l Hx _ IH]; [reflexivity|].
    cbn [map]. rewrite IH. f_equal. unfold is_byte in Hx. unfold u8.
    rewrite (Z.mod_small x (2 ^ 16)) by lia. apply Z.mod_small. exact Hx.
Qed.

Lemma string_bytes_round_trip_witness :
  is_bytes [104; 105] /\
  ZipParts.stringToBytes (ZipParts.bytesToString [104; 105]) = [104; 105] /\
  ZipParts.bytesToString (ZipParts.stringToBytes [0x65E5]) = [0xE5].
Proof.
  assert (Hb : is_bytes [104; 105]) by (apply is_bytes_forallb; reflexivity).
  split; [exact Hb|].
  split.
  - apply (string_bytes_round_trip [] [104; 105] Hb).
  - rewrite (proj1 (string_bytes_round_trip [0x65E5] [104; 105] Hb)).
    reflexivity.
Defined.

Lemma stringToBytes_cons (c : Z) (s : jsstring) (n : nat) :
  stringToBytes (c :: s) (Some (S n)) = u8 c :: stringToBytes s (Some n).
Proof.
  unfold stringToBytes. cbn [seq map nth_error]. f_equal.
  rewrite <- seq_shift, map_map. reflexivity.
Qed.

Lemma stringToBytes_nil (n : nat) : stringToBytes [] (Some n) = zeros n.
Proof.
  unfold stringToBytes, zeros.
  generalize 0%nat. induction n as [|n IH]; intros k; [reflexivity|].
  cbn [seq map repeat]. rewrite IH. destruct k; reflexivity.
Qed.

(** X4.  [stringToBytes(str, len)] never fails on a length that differs
    from the string's: a longer string is cut to its first [len]
    characters and a shorter one is followed by zero bytes; without a
    length every character gives one byte. *)
Theorem stringToBytes_cuts_or_pads (s : jsstring) (n : nat) :
  stringToBytes s (Some n)
    = map u8 (firstn n s) ++ zeros (n - List.length s) /\
  List.length (stringToBytes s (Some n)) = n /\
  stringToBytes s None = map u8 s.
Proof.
  assert (G : forall (s : jsstring) (n : nat),
             stringToBytes s (Some n)
             = map u8 (firstn n s) ++ zeros (n - List.length s)).
  { clear. induction s as [|c s IH]; intros n.
    - rewrite stringToBytes_nil, firstn_nil, Nat.sub_0_r. reflexivity.
    - destruct n as [|n]; [reflexivity|].
      rewrite stringToBytes_cons, IH. reflexivity. }
  split; [apply G|]. split.
  - unfold stringToBytes. now rewrite length_map, length_seq.
  - change (stringToBytes s None) with (stringToBytes s (Some (List.length s))).
    rewrite G, firstn_all, Nat.sub_diag. apply app_nil_r.
Qed.

End CodecMore.

(** ** Further properties of the registry of src/zip.js *)

Section RegistryFacts.
Import JS Codec ZipJs Registry.

Lemma addEntry_Return_full (z z1 : Zipper) (p d : jsval) (n : Z) :
  addEntry z p d = (Return n, z1) ->
  pathAccepted z (normalizePath p) = true /\
  exists b, coerceData d = Return b /\ len b <= 0xFFFFFFFF /\
            n = count z + 1 /\
            z1 = mkZipper (_entries z ++ [mkEntry (normalizePath p) b]).
Proof.
  unfold addEntry, pathAccepted. set (q := normalizePath p).
  destruct (len q =? 0); [discriminate|].
  destruct (len q >? 0xFFFF); [discriminate|].
  destruct (hasFile z q); [discriminate|].
  destruct (hasFolder z q); [discriminate|].
  destruct (existsb (hasFile z) (getFolderPathsFromPath q)); [discriminate|].
  destruct (coerceData d) as [b|err]; [|discriminate].
  destruct (Z.gtb_spec (len b) 0xFFFFFFFF) as [|Hb]; [discriminate|].
  intros H. inversion H. split; [reflexivity|]. exists b.
  repeat split; try reflexivity; try assumption.
  unfold count. cbn [_entries]. apply len_app.
Qed.

Lemma addEntry_Throw (z z1 : Zipper) (p d : jsval) (e : error) :
  addEntry z p d = (Throw e, z1) -> z1 = z.
Proof.
  unfold addEntry. set (q := normalizePath p).
  repeat match goal with
         | |- context [if ?b then _ else _] =>
             destruct b; try (intros H; inversion H; reflexivity)
         | |- context [match coerceData ?x with _ => _ end] =>
             destruct (coerceData x); try (intros H; inversion H; reflexivity)
         end.
Qed.

(** X5.  [addEntry] never registers an entry in part: a call that
    throws leaves the entries exactly as they were, and a call that
    returns has appended one entry (the normalised path with the
    converted data, of at most 0xFFFFFFFF bytes) after the existing ones
    and returns the new count. *)
Theorem addEntry_all_or_nothing (z : Zipper) (p d : jsval) :
  (exists e, addEntry z p d = (Throw e, z)) \/
  (exists b,
      coerceData d = Return b /\ len b <= 0xFFFFFFFF /\
      pathAccepted z (normalizePath p) = true /\
      addEntry z p d =
      (Return (count z + 1),
       mkZipper (_entries z ++ [mkEntry (normalizePath p) b]))).
Proof.
  destruct (addEntry z p d) as [[n|e] z1] eqn:E.
  - right. destruct (addEntry_Return_full _ _ _ _ _ E)
      as (Hacc & b & Hc & Hb & -> & ->).
    exists b. repeat split; assumption || reflexivity.
  - left. exists e. rewrite (addEntry_Throw _ _ _ _ _ E). reflexivity.
Qed.

Lemma hasFile_false_all (z : Zipper) (p : jsstring) :
  hasFile z p = false -> ~ In p (map path (_entries z)).
Proof.
  intros H Hin. apply in_map_iff in Hin. destruct Hin as [e [He Hin]].
  exact (hasFile_false z p e H Hin He).
Qed.

Lemma parents_false (z : Zipper) (q : jsstring) (e : entry) :
  existsb (hasFile z) (getFolderPathsFromPath q) = false ->
  In e (_entries z) -> ~ isFolderOf (path e) q.
Proof.
  intros H Hin Hf.
  assert (Hex : existsb (hasFile z) (getFolderPathsFromPath q) = true).
  { apply existsb_exists. exists (path e). split.
    - apply folder_in_parents. exact Hf.
    - apply hasFile_In. exact Hin. }
  congruence.
Qed.

Lemma addEntry_wellFormed (z : Zipper) (p d : jsval) :
  wellFormed z -> wellFormed (snd (addEntry z p d)).
Proof.
  intros (Hnd & Hb & Hf).
  destruct (addEntry z p d) as [[n|e] z1] eqn:E; cbn [snd].
  - destruct (addEntry_Return_full _ _ _ _ _ E)
      as (Hacc & b & _ & Hlb & _ & ->).
    set (q := normalizePath p) in *.
    unfold pathAccepted in Hacc.
    repeat (apply andb_prop in Hacc; destruct Hacc as [Hacc ?]).
    repeat match goal with
           | H : negb _ = true |- _ => apply negb_true_iff in H
           end.
    assert (Hq0 : 0 < len q) by (apply Z.eqb_neq in Hacc; unfold len in *; lia).
    assert (Hq1 : len q <= 0xFFFF)
      by (match goal with
          | H : (len q >? 0xFFFF) = false |- _ =>
              destruct (Z.gtb_spec (len q) 0xFFFF); [discriminate H | lia]
          end).
    unfold wellFormed. cbn [_entries]. split; [|split].
    + rewrite map_app. cbn [map path]. apply NoDup_app.
      repeat split.
      * exact Hnd.
      * constructor; [intros []| constructor].
      * intros x Hx [<-|[]]. revert Hx. apply hasFile_false_all. assumption.
    + intros e Hin. apply in_app_or in Hin. destruct Hin as [Hin|[<-|[]]].
      * apply Hb. exact Hin.
      * cbn [path data]. lia.
    + intros e1 e2 Hi1 Hi2.
      apply in_app_or in Hi1. apply in_app_or in Hi2.
      destruct Hi1 as [Hi1|[<-|[]]]; destruct Hi2 as [Hi2|[<-|[]]]; cbn [path].
      * apply Hf; assumption.
      * apply (parents_false z q e1); assumption.
      * apply (hasFolder_false z q e2); assumption.
      * intros Hc. exact (isFolderOf_neq _ _ Hc eq_refl).
  - rewrite (addEntry_Throw _ _ _ _ _ E). exact (conj Hnd (conj Hb Hf)).
Qed.

(** X6.  Whatever sequence of [addEntry] calls is made on a new archive,
    the entries keep distinct paths, each of 1 to 65535 characters with
    data of at most 0xFFFFFFFF bytes, and no entry's path is a folder
    that another entry's path implies. *)
Theorem registry_invariant (calls : list (jsval * jsval)) :
  wellFormed (addEntries (mkZipper []) calls).
Proof.
  induction calls as [|c calls IH] using rev_ind.
  - split; [constructor|]. split.
    + intros e [].
    + intros e1 e2 [].
  - unfold addEntries in *. rewrite fold_left_app. cbn [fold_left].
    apply addEntry_wellFormed. exact IH.
Qed.

Lemma headIsSlash_true (s : jsstring) :
  headIsSlash s = true -> exists r, s = 47 :: r.
Proof.
  destruct s as [|c r]; [discriminate|]. cbn. intros H.
  apply Z.eqb_eq in H. subst c. exists r. reflexivity.
Qed.

Lemma doubleSlashb_spec (s : jsstring) :
  doubleSlashb s = true <-> hasDoubleSlash s.
Proof.
  unfold hasDoubleSlash, infix. split.
  - induction s as [|c r IH]; [discriminate|].
    cbn [doubleSlashb]. intros H. apply orb_prop in H. destruct H as [H|H].
    + apply andb_prop in H. destruct H as [Hc Hr].
      apply Z.eqb_eq in Hc. subst c.
      destruct (headIsSlash_true r Hr) as [r' ->].
      exists [], r'. reflexivity.
    + destruct (IH H) as (x & y & ->). exists (c :: x), y. reflexivity.
  - intros (x & y & ->). induction x as [|c x IH].
    + reflexivity.
    + cbn [app doubleSlashb] in *. rewrite IH. apply orb_true_r.
Qed.

Lemma headIsSlash_collapse (s : jsstring) :
  headIsSlash (collapseSlashes s) = headIsSlash s.
Proof.
  induction s as [|c r IH]; [reflexivity|].
  cbn [collapseSlashes].
  destruct ((c =? 47) && headIsSlash r) eqn:E.
  - apply andb_prop in E. destruct E as [Hc Hr].
    rewrite IH, Hr. cbn. now rewrite Hc.
  - reflexivity.
Qed.

Lemma collapseSlashes_single (s : jsstring) :
  doubleSlashb (collapseSlashes s) = false.
Proof.
  induction s as [|c r IH]; [reflexivity|].
  cbn [collapseSlashes].
  destruct ((c =? 47) && headIsSlash r) eqn:E; [exact IH|].
  cbn [doubleSlashb]. rewrite headIsSlash_collapse, E, IH. reflexivity.
Qed.

Lemma infix_refl (s : jsstring) : infix s s.
Proof. exists [], []. now rewrite app_nil_r. Qed.

Lemma infix_trans (a b c : jsstring) : infix a b -> infix b c -> infix a c.
Proof.
  intros (x & y & ->) (x' & y' & ->).
  exists (x' ++ x), (y ++ y'). now rewrite <- !app_assoc.
Qed.

Lemma infix_rev (a b : jsstring) : infix a b -> infix (rev a) (rev b).
Proof.
  intros (x & y & ->). exists (rev y), (rev x).
  now rewrite !rev_app_distr, <- app_assoc.
Qed.

Lemma trimStart_infix (s : jsstring) : infix (trimStart s) s.
Proof.
  induction s as [|c r IH]; [apply infix_refl|].
  cbn [trimStart]. destruct (is_space c); [|apply infix_refl].
  apply (infix_trans _ r); [exact IH|]. exists [c], []. cbn.
  now rewrite app_nil_r.
Qed.

Lemma trim_infix (s : jsstring) : infix (trim s) s.
Proof.
  unfold trim. apply (infix_trans _ (trimStart s)); [|apply trimStart_infix].
  rewrite <- (rev_involutive (trimStart s)) at 2.
  apply infix_rev. apply trimStart_infix.
Qed.

Lemma stripLeadingSlash_infix (s : jsstring) : infix (stripLeadingSlash s) s.
Proof.
  destruct s as [|c r]; [apply infix_refl|]. cbn.
  destruct (c =? 47); [|apply infix_refl].
  exists [c], []. cbn. now rewrite app_nil_r.
Qed.

Lemma stripTrailingSlash_infix (s : jsstring) : infix (stripTrailingSlash s) s.
Proof.
  unfold stripTrailingSlash. rewrite <- (rev_involutive s) at 2.
  apply infix_rev. apply stripLeadingSlash_infix.
Qed.

Lemma stripLeadingSlash_head (s : jsstring) :
  ~ hasDoubleSlash s -> headIsSlash (stripLeadingSlash s) = false.
Proof.
  intros Hn. destruct s as [|c r]; [reflexivity|]. cbn [stripLeadingSlash].
  destruct (Z.eqb_spec c 47) as [->|Hc].
  - destruct (headIsSlash r) eqn:Hr; [|reflexivity].
    destruct (headIsSlash_true r Hr) as [r' ->].
    exfalso. apply Hn. exists [], r'. reflexivity.
  - cbn. now apply Z.eqb_neq.
Qed.

Lemma stripTrailingSlash_cases (t : jsstring) :
  (stripTrailingSlash t = t /\ endsWithSlash t = false) \/
  (exists r, t = r ++ [47] /\ stripTrailingSlash t = r).
Proof.
  unfold stripTrailingSlash, endsWithSlash.
  destruct (rev t) as [|c l] eqn:E.
  - left. assert (t = []) by (rewrite <- (rev_involutive t), E; reflexivity).
    subst t. split; reflexivity.
  - assert (Ht : t = rev l ++ [c])
      by (rewrite <- (rev_involutive t), E; reflexivity).
    cbn [stripLeadingSlash]. destruct (Z.eqb_spec c 47) as [->|Hc].
    + right. exists (rev l). split; [exact Ht | reflexivity].
    + left. split; [|reflexivity]. cbn [rev]. symmetry. exact Ht.
Qed.

Lemma endsWithSlash_true (s : jsstring) :
  endsWithSlash s = true -> exists r, s = r ++ [47].
Proof.
  unfold endsWithSlash. destruct (rev s) as [|c l] eqn:E; [discriminate|].
  intros H. apply Z.eqb_eq in H. subst c. exists (rev l).
  rewrite <- (rev_involutive s), E. reflexivity.
Qed.

(** X7.  The path that [addEntry] stores has no empty segment: it
    neither starts nor ends with a separator and never holds two
    separators in a row, whatever the path argument was. *)
Theorem normalizePath_shape (p : jsval) :
  headIsSlash (normalizePath p) = false /\
  endsWithSlash (normalizePath p) = false /\
  ~ hasDoubleSlash (normalizePath p).
Proof.
  unfold normalizePath.
  set (u := trim (collapseSlashes (removeFirstControl (ToString p)))).
  assert (Hu : ~ hasDoubleSlash u).
  { intros H. unfold u in H.
    assert (Hc : hasDoubleSlash
                   (collapseSlashes (removeFirstControl (ToString p))))
      by (exact (infix_trans _ _ _ H (trim_infix _))).
    apply doubleSlashb_spec in Hc.
    rewrite collapseSlashes_single in Hc. discriminate Hc. }
  set (t := stripLeadingSlash u).
  assert (Ht : ~ hasDoubleSlash t).
  { intros H. apply Hu.
    exact (infix_trans _ _ _ H (stripLeadingSlash_infix u)). }
  assert (Hh : headIsSlash t = false) by (apply stripLeadingSlash_head; exact Hu).
  destruct (stripTrailingSlash_cases t) as [[E He]|[r [Er E]]]; rewrite E.
  - split; [exact Hh|]. split; [exact He | exact Ht].
  - split; [|split].
    + destruct r as [|c r']; [reflexivity|].
      rewrite Er in Hh. exact Hh.
    + destruct (endsWithSlash r) eqn:Hr; [|reflexivity].
      destruct (endsWithSlash_true r Hr) as [r' ->].
      exfalso. apply Ht. exists r', []. rewrite Er, <- app_assoc. reflexivity.
    + intros H. apply Ht. rewrite Er.
      apply (infix_trans _ r); [exact H|]. exists [], [47]. reflexivity.
Qed.

Lemma join_app (a b : list jsstring) :
  a <> [] -> b <> [] ->
  join [47] (a ++ b) = join [47] a ++ 47 :: join [47] b.
Proof.
  intros Ha Hb. induction a as [|x a IH]; [contradiction|].
  destruct a as [|y a].
  - cbn [app]. rewrite join_cons_nonempty by exact Hb. reflexivity.
  - cbn [app] in *. rewrite join_cons_nonempty by discriminate.
    rewrite IH by discriminate.
    rewrite (join_cons_nonempty x (y :: a)) by discriminate.
    rewrite <- app_assoc. reflexivity.
Qed.

Lemma parents_are_folders (f q : jsstring) :
  In f (getFolderPathsFromPath q) -> isFolderOf f q.
Proof.
  unfold getFolderPathsFromPath. intros H.
  destruct (str_eqb q []) eqn:Eq; [destruct H|].
  apply in_map_iff in H. destruct H as [i [Hf Hi]].
  apply in_seq in Hi.
  assert (Hsplit : split q = firstn i (split q) ++ skipn i (split q))
    by (symmetry; apply firstn_skipn).
  exists (join [47] (skipn i (split q))). cbn [app].
  rewrite <- Hf, <- join_app.
  - rewrite <- Hsplit. symmetry. apply join_split.
  - intros E. apply (f_equal (@List.length jsstring)) in E.
    rewrite length_firstn in E. cbn in E. lia.
  - intros E. apply (f_equal (@List.length jsstring)) in E.
    rewrite length_skipn in E. cbn in E. lia.
Qed.

(** X8.  The look-ups of the registry mean what their names say:
    [hasFile] finds a path exactly when an entry has it, [hasFolder]
    exactly when some entry's path continues it after a separator, and
    [getFolderPathsFromPath] lists exactly the folders that a path
    implies. *)
Theorem lookups_spec (z : Zipper) (p q : jsstring) :
  (hasFile z p = true <-> exists e, In e (_entries z) /\ path e = p) /\
  (hasFolder z p = true
   <-> exists e, In e (_entries z) /\ isFolderOf p (path e)) /\
  (In p (getFolderPathsFromPath q) <-> isFolderOf p q).
Proof.
  split; [|split].
  - split.
    + unfold hasFile, getFile. intros H.
      destruct (find (fun e => str_eqb (path e) p) (_entries z)) as [e|] eqn:F;
        [|discriminate H].
      apply find_some in F. destruct F as [Hin He].
      exists e. split; [exact Hin | now apply str_eqb_eq].
    + intros (e & Hin & <-). apply hasFile_In. exact Hin.
  - split.
    + unfold hasFolder, getFolder. intros H.
      destruct (find (fun e => startsWith (path e) (p ++ [47])) (_entries z))
        as [e|] eqn:F; [|discriminate H].
      apply find_some in F. destruct F as [Hin He].
      exists e. split; [exact Hin|].
      destruct (startsWith_inv _ _ He) as [r Hr].
      exists r. rewrite Hr, <- app_assoc. reflexivity.
    + intros (e & Hin & Hf). apply (hasFolder_In z p e); assumption.
  - split; [apply parents_are_folders | apply folder_in_parents].
Qed.

End RegistryFacts.

(** ** Further properties of [_pack] of src/zip.js *)

Section PackMore.
Import JS Codec ZipJs Notions.

(** X9.  [dateToBytes] of src/zip.js writes the MS-DOS time and then
    the MS-DOS date of a calendar value (year 1980-2107), each as two
    bytes with the high byte first; with no date given it reads the clock
    once. *)
Theorem dateToBytes_high_byte_first (date : Date) (clk : Clock) (t : nat) :
  ZipParts.dos_valid date ->
  dateToBytes (Some date) clk t
  = Return ([dosTime date / 256; dosTime date mod 256;
             dosDate date / 256; dosDate date mod 256], t) /\
  (clk t = date ->
   dateToBytes None clk t
   = Return ([dosTime date / 256; dosTime date mod 256;
              dosDate date / 256; dosDate date mod 256], S t)).
Proof.
  intros (Hy & Hm & Hd & Hh & Hmi & Hs).
  assert (E : dosBytes date
              = [dosTime date / 256; dosTime date mod 256;
                 dosDate date / 256; dosDate date mod 256]).
  { unfold dosBytes, dosTime, dosDate.
    set (y := getFullYear date) in *. set (m := getMonth date) in *.
    set (d := getDate date) in *. set (h := getHours date) in *.
    set (mi := getMinutes date) in *. set (sec := getSeconds date) in *.
    clearbody y m d h mi sec.
    rewrite !shl_small by lia. rewrite !shr_small by lia.
    change 0xFF with (Z.ones 8). rewrite !and_ones by lia.
    change (2 ^ 3) with 8. change (2 ^ 5) with 32. change (2 ^ 1) with 2.
    change (2 ^ 8) with 256. cbn [map]. unfold u8.
    f_equal; [|f_equal; [|f_equal; [|f_equal]]];
      Z.div_mod_to_equations; lia. }
  split.
  - unfold dateToBytes, bind, ret. fold (dosBytes date). now rewrite E.
  - intros Hc. unfold dateToBytes, bind, newDate, ret. rewrite Hc.
    fold (dosBytes date). now rewrite E.
Qed.

Lemma dateToBytes_high_byte_first_witness :
  ZipParts.dos_valid (mkDate 2024 1 29 23 59 59) /\
  dateToBytes (Some (mkDate 2024 1 29 23 59 59))
    (fun _ => mkDate 2024 0 1 0 0 0) 0%nat
  = Return ([0xBF; 0x7D; 0x58; 0x5D], 0%nat).
Proof.
  assert (H : ZipParts.dos_valid (mkDate 2024 1 29 23 59 59))
    by (unfold ZipParts.dos_valid; cbn; lia).
  split; [exact H|].
  exact (proj1 (dateToBytes_high_byte_first (mkDate 2024 1 29 23 59 59)
                  (fun _ => mkDate 2024 0 1 0 0 0) 0%nat H)).
Defined.

Lemma totalLength_concat (l : list Uint8Array) :
  totalLength l = len (List.concat l).
Proof.
  induction l as [|x l IH] using rev_ind; [reflexivity|].
  rewrite totalLength_app, concat_app, len_app, IH.
  unfold totalLength. cbn [fold_left List.concat]. rewrite app_nil_r. lia.
Qed.

Lemma packedFrom_cdSize (clk : Clock) (t : nat) (es : list entry) :
  cdSize (packedFrom clk t es packing0)
  = totalLength (cd (packedFrom clk t es packing0)).
Proof.
  induction es as [|e es IH] using rev_ind; [reflexivity|].
  rewrite packedFrom_snoc. cbn zeta. cbn [cdSize cd].
  rewrite totalLength_app, IH. unfold totalLength at 3. cbn [fold_left]. lia.
Qed.

Lemma bytesToCrc32_range (b : Uint8Array) : 0 <= Crc.bytesToCrc32 b < 2 ^ 32.
Proof.
  unfold Crc.bytesToCrc32, Crc.crc_finish, ushr. change (0 mod 32) with 0.
  rewrite Z.shiftr_0_r. apply Z.mod_pos_bound. lia.
Qed.

(** What [_pack] returns, in terms of the loop's closed form. *)
Lemma _pack_Return (z : Zipper) (c : jsval) (clk : Clock) (t : nat)
    (out : list Uint8Array) (t' : nat) :
  _pack z c clk t = Return (out, t') ->
  exists cm,
    validateComment (orEmpty c) = Return cm /\ len cm <= 0xFFFF /\
    let st := packedFrom clk t (_entries z) packing0 in
    out = parts st ++ cd st
          ++ [getEOCDHeader
                (mkEocd (len (cd st)) (cdSize st) (offset st) cm)].
Proof.
  rewrite _pack_closed.
  destruct (validateComment (orEmpty c)) as [cm|err] eqn:E; [|discriminate].
  cbn zeta. intros H. inversion H as [[Hout Ht]]. exists cm.
  split; [reflexivity|]. split; [|reflexivity].
  unfold validateComment in E.
  destruct (orEmpty c) eqn:Ec; inversion E; subst; try (cbn; lia);
    match goal with
    | H : (if ?b then _ else _) = _ |- _ =>
        destruct b eqn:Hb; [discriminate H|];
        inversion H; subst;
        match type of Hb with
        | (?x >? ?y) = false =>
            destruct (Z.gtb_spec x y); [discriminate Hb | lia]
        end
    end.
Qed.

(** X10.  The output of [_pack] is two segments per entry, then one
    central directory header per entry, then the trailer.  The trailer
    starts with 50 4B 05 06 and records, as 16- and 32-bit fields, the
    number of entries (twice), the byte size of the central directory,
    the byte size of all that precedes it, and the length of the comment,
    followed by the comment one byte per character. *)
Theorem pack_trailer_fields (z : Zipper) (c : jsval) (clk : Clock) (t : nat)
    (out : list Uint8Array) (t' : nat) :
  _pack z c clk t = Return (out, t') ->
  let n := List.length (_entries z) in
  List.length out = (3 * n + 1)%nat /\
  exists eocd cm,
    nth_error out (3 * n) = Some eocd /\
    validateComment (orEmpty c) = Return cm /\
    firstn 4 eocd = [0x50; 0x4b; 0x05; 0x06] /\
    fieldAt eocd 8 2 = Z.of_nat n mod 2 ^ 16 /\
    fieldAt eocd 10 2 = Z.of_nat n mod 2 ^ 16 /\
    fieldAt eocd 12 4 = totalLength (firstn n (skipn (2 * n) out)) mod 2 ^ 32 /\
    fieldAt eocd 16 4 = totalLength (firstn (2 * n) out) mod 2 ^ 32 /\
    fieldAt eocd 20 2 = len cm /\
    skipn 22 eocd = stringToBytes cm None.
Proof.
  intros Hpack n.
  destruct (_pack_Return _ _ _ _ _ _ Hpack) as (cm & Hv & Hl & Hout).
  cbn zeta in Hout.
  destruct (packedFrom_shape clk t (_entries z)) as (Lp & Lc & Ho & _).
  pose proof (packedFrom_cdSize clk t (_entries z)) as Hs.
  set (st := packedFrom clk t (_entries z) packing0) in *.
  fold n in Lp, Lc.
  split.
  { rewrite Hout, !length_app, Lp, Lc. cbn [List.length]. lia. }
  eexists. exists cm.
  split.
  { rewrite Hout. rewrite nth_error_app2 by lia.
    rewrite nth_error_app2 by lia.
    replace (3 * n - List.length (parts st) - List.length (cd st))%nat
      with 0%nat by lia.
    reflexivity. }
  split; [exact Hv|].
  assert (Hparts : firstn (2 * n) out = parts st).
  { rewrite Hout. apply firstn_app_exact. exact Lp. }
  assert (Hcd : firstn n (skipn (2 * n) out) = cd st).
  { rewrite Hout. rewrite (skipn_app_exact _ _ _ Lp).
    apply firstn_app_exact. exact Lc. }
  rewrite Hparts, Hcd, <- Ho, <- Hs.
  unfold fieldAt, getEOCDHeader, concatArrays.
  cbn [eocd_entries eocd_cdSize eocd_cdOffset eocd_comment].
  split; [reflexivity|].
  split.
  { change (le_value (numberToBytes (len (cd st)) 2) = Z.of_nat n mod 2 ^ 16).
    rewrite numberToBytes_2_value. unfold len. now rewrite Lc. }
  split.
  { change (le_value (numberToBytes (len (cd st)) 2) = Z.of_nat n mod 2 ^ 16).
    rewrite numberToBytes_2_value. unfold len. now rewrite Lc. }
  split.
  { change (le_value (numberToBytes (cdSize st) 4) = cdSize st mod 2 ^ 32).
    apply numberToBytes_4_value. }
  split.
  { change (le_value (numberToBytes (offset st) 4) = offset st mod 2 ^ 32).
    apply numberToBytes_4_value. }
  split.
  { change (le_value (numberToBytes (len cm) 2) = len cm).
    rewrite numberToBytes_2_value. apply Z.mod_small. unfold len in *. lia. }
  cbn [List.concat]. rewrite app_nil_r. reflexivity.
Qed.

Lemma pack_trailer_fields_witness :
  let z := mkZipper [mkEntry (lit "hello.txt") [104; 105]] in
  let clk : Clock := fun _ => mkDate 2024 0 1 12 30 10 in
  match _pack z (VStr (lit "c")) clk 0%nat with
  | Return (out, _) =>
      exists eocd, nth_error out 3 = Some eocd /\
                   fieldAt eocd 8 2 = 1 /\ skipn 22 eocd = [99]
  | Throw _ => False
  end.
Proof.
  intros z clk.
  destruct (_pack z (VStr (lit "c")) clk 0%nat) as [[out t']|err] eqn:E;
    [|vm_compute in E; discriminate E].
  destruct (pack_trailer_fields z (VStr (lit "c")) clk 0%nat out t' E)
    as (_ & eocd & cm & H1 & Hv & _ & H8 & _ & _ & _ & _ & Hc).
  exists eocd. split; [exact H1|]. split; [exact H8|].
  rewrite Hc. vm_compute in Hv. inversion Hv. reflexivity.
Defined.

(** The segments of entry [i] in the output of [_pack]. *)
Lemma pack_entry_segments (z : Zipper) (c : jsval) (clk : Clock) (t : nat)
    (out : list Uint8Array) (t' : nat) (i : nat) (e : entry) :
  _pack z c clk t = Return (out, t') ->
  nth_error (_entries z) i = Some e ->
  exists d1 d2,
    nth_error out (2 * i) = Some (localFileHeaderAt d1 e) /\
    nth_error out (2 * i + 1) = Some (data e) /\
    nth_error out (2 * List.length (_entries z) + i)
      = Some (centralDirectoryHeaderAt d2 e
                (totalLength (firstn (2 * i) out))).
Proof.
  intros Hpack Hi.
  destruct (_pack_Return _ _ _ _ _ _ Hpack) as (cm & _ & _ & Hout).
  cbn zeta in Hout.
  destruct (packedFrom_shape clk t (_entries z)) as (Lp & Lc & _ & Hn).
  set (st := packedFrom clk t (_entries z) packing0) in *.
  destruct (Hn i e Hi) as (H1 & H2 & H3).
  assert (Hlt : (i < List.length (_entries z))%nat).
  { apply nth_error_Some. congruence. }
  assert (Hf : firstn (2 * i) out = firstn (2 * i) (parts st)).
  { rewrite Hout, firstn_app.
    replace (2 * i - List.length (parts st))%nat with 0%nat by lia.
    cbn [firstn]. now rewrite app_nil_r. }
  rewrite Hf, Hout. do 2 eexists.
  split; [rewrite nth_error_app1 by lia; exact H1|].
  split; [rewrite nth_error_app1 by lia; exact H2|].
  rewrite nth_error_app2 by lia. rewrite nth_error_app1 by lia.
  replace (2 * List.length (_entries z) + i - List.length (parts st))%nat
    with i by lia.
  exact H3.
Qed.

(** X11.  In the output of [_pack] the local header and the central
    directory header of every entry start with their signatures and
    record the CRC-32 of the entry's data, its length (twice, as 32-bit
    fields) and the length of its path, followed by the path one byte per
    character; the two headers agree on all of these. *)
Theorem pack_headers_describe_entry (z : Zipper) (c : jsval) (clk : Clock)
    (t : nat) (out : list Uint8Array) (t' : nat) (i : nat) (e : entry) :
  _pack z c clk t = Return (out, t') ->
  nth_error (_entries z) i = Some e ->
  exists lh h,
    nth_error out (2 * i) = Some lh /\
    nth_error out (2 * List.length (_entries z) + i) = Some h /\
    firstn 4 lh = [0x50; 0x4b; 0x03; 0x04] /\
    firstn 4 h = [0x50; 0x4b; 0x01; 0x02] /\
    fieldAt lh 14 4 = Crc.bytesToCrc32 (data e) /\
    fieldAt h 16 4 = Crc.bytesToCrc32 (data e) /\
    fieldAt lh 18 4 = len (data e) mod 2 ^ 32 /\
    fieldAt lh 22 4 = len (data e) mod 2 ^ 32 /\
    fieldAt h 20 4 = len (data e) mod 2 ^ 32 /\
    fieldAt h 24 4 = len (data e) mod 2 ^ 32 /\
    fieldAt lh 26 2 = len (pathOrUntitled (path e)) mod 2 ^ 16 /\
    fieldAt h 28 2 = len (pathOrUntitled (path e)) mod 2 ^ 16 /\
    skipn 30 lh = stringToBytes (pathOrUntitled (path e)) None /\
    skipn 46 h = stringToBytes (pathOrUntitled (path e)) None.
Proof.
  intros Hpack Hi.
  destruct (pack_entry_segments _ _ _ _ _ _ _ _ Hpack Hi)
    as (d1 & d2 & H1 & _ & H3).
  do 2 eexists. split; [exact H1|]. split; [exact H3|].
  unfold fieldAt.
  split; [reflexivity|]. split; [reflexivity|].
  split.
  { change (le_value (numberToBytes (Crc.bytesToCrc32 (data e)) 4)
            = Crc.bytesToCrc32 (data e)).
    rewrite numberToBytes_4_value. apply Z.mod_small. apply bytesToCrc32_range. }
  split.
  { change (le_value (numberToBytes (Crc.bytesToCrc32 (data e)) 4)
            = Crc.bytesToCrc32 (data e)).
    rewrite numberToBytes_4_value. apply Z.mod_small. apply bytesToCrc32_range. }
  repeat (split;
          [first [ change (le_value (numberToBytes (len (data e)) 4)
                           = len (data e) mod 2 ^ 32);
                   apply numberToBytes_4_value
                 | change (le_value
                             (numberToBytes (len (pathOrUntitled (path e))) 2)
                           = len (pathOrUntitled (path e)) mod 2 ^ 16);
                   apply numberToBytes_2_value ]|]).
  split; reflexivity.
Qed.

Lemma pack_headers_describe_entry_witness :
  let z := mkZipper [mkEntry (lit "hello.txt") [104; 105]] in
  let clk : Clock := fun _ => mkDate 2024 0 1 12 30 10 in
  match _pack z VUndefined clk 0%nat with
  | Return (out, _) =>
      nth_error (_entries z) 0 = Some (mkEntry (lit "hello.txt") [104; 105]) /\
      exists lh, nth_error out 0 = Some lh /\
                 fieldAt lh 18 4 = 2 /\ fieldAt lh 26 2 = 9
  | Throw _ => False
  end.
Proof.
  intros z clk.
  destruct (_pack z VUndefined clk 0%nat) as [[out t']|err] eqn:E;
    [|vm_compute in E; discriminate E].
  split; [reflexivity|].
  destruct (pack_headers_describe_entry z VUndefined clk 0%nat out t' 0%nat
              (mkEntry (lit "hello.txt") [104; 105]) E eq_refl)
    as (lh & h & H1 & _ & _ & _ & _ & _ & H18 & _ & _ & _ & H26 & _).
  exists lh. split; [exact H1|]. split; [exact H18 | exact H26].
Defined.

Lemma nth_error_split3 {A} (l : list A) (i : nat) (x : A) :
  nth_error l i = Some x -> l = firstn i l ++ x :: skipn (S i) l.
Proof.
  revert i. induction l as [|y l IH]; intros [|i] H; try discriminate H.
  - inversion H. reflexivity.
  - cbn [firstn skipn app]. f_equal. apply IH. exact H.
Qed.

(** X12.  The offsets in the central directory locate the local
    headers: when the segments before entry [i] are less than 2^32 bytes
    together, the bytes of the concatenated output that start at the
    offset recorded for entry [i] are that entry's local header followed
    by its data. *)
Theorem pack_offset_locates_header (z : Zipper) (c : jsval) (clk : Clock)
    (t : nat) (out : list Uint8Array) (t' : nat) (i : nat) (e : entry) :
  _pack z c clk t = Return (out, t') ->
  nth_error (_entries z) i = Some e ->
  totalLength (firstn (2 * i) out) < 2 ^ 32 ->
  exists lh h,
    nth_error out (2 * i) = Some lh /\
    nth_error out (2 * List.length (_entries z) + i) = Some h /\
    firstn (List.length lh + List.length (data e))
      (skipn (Z.to_nat (cdOffsetField h)) (List.concat out))
    = lh ++ data e.
Proof.
  intros Hpack Hi Hb.
  destruct (pack_entry_segments _ _ _ _ _ _ _ _ Hpack Hi)
    as (d1 & d2 & H1 & H2 & H3).
  do 2 eexists. split; [exact H1|]. split; [exact H3|].
  rewrite ZipJs_cdOffsetField.
  rewrite Z.mod_small by (split; [apply totalLength_nonneg | exact Hb]).
  rewrite totalLength_concat. unfold len. rewrite Nat2Z.id.
  pose proof (nth_error_split3 out (2 * i) _ H1) as S1.
  assert (S2 : skipn (S (2 * i)) out
               = data e :: skipn (S (S (2 * i))) out).
  { replace (2 * i + 1)%nat with (S (2 * i)) in H2 by lia.
    pose proof (nth_error_split3 out (S (2 * i)) _ H2) as S2.
    rewrite S2 at 1.
    rewrite skipn_app, firstn_length_le.
    - rewrite Nat.sub_diag, skipn_all2 by (rewrite length_firstn; lia).
      reflexivity.
    - apply Nat.lt_le_incl. apply nth_error_Some. congruence. }
  rewrite S2 in S1.
  rewrite S1 at 2.
  rewrite concat_app. cbn [List.concat].
  rewrite skipn_app_exact by reflexivity.
  rewrite !app_assoc.
  apply firstn_app_exact. now rewrite length_app.
Qed.

Lemma pack_offset_locates_header_witness :
  let z := mkZipper [mkEntry (lit "a.txt") [1; 2; 3];
                     mkEntry (lit "b.txt") [4; 5]] in
  let clk : Clock := fun _ => mkDate 2024 0 1 12 30 10 in
  match _pack z VUndefined clk 0%nat with
  | Return (out, _) =>
      nth_error (_entries z) 1 = Some (mkEntry (lit "b.txt") [4; 5]) /\
      totalLength (firstn 2 out) < 2 ^ 32 /\
      exists lh h,
        nth_error out 2 = Some lh /\ nth_error out 5 = Some h /\
        firstn (List.length lh + 2)
          (skipn (Z.to_nat (cdOffsetField h)) (List.concat out))
        = lh ++ [4; 5]
  | Throw _ => False
  end.
Proof.
  intros z clk.
  destruct (_pack z VUndefined clk 0%nat) as [[out t']|err] eqn:E;
    [|vm_compute in E; discriminate E].
  assert (Hb : totalLength (firstn 2 out) < 2 ^ 32).
  { pose proof E as E'. vm_compute in E'. inversion E'. reflexivity. }
  split; [reflexivity|]. split; [exact Hb|].
  exact (pack_offset_locates_header z VUndefined clk 0%nat out t' 1%nat
           (mkEntry (lit "b.txt") [4; 5]) E eq_refl Hb).
Defined.

End PackMore.

(** ** Further properties of the parts-based builder *)

Section PartsMore.
Import JS Codec ZipParts Notions PartsRun.

(** What a call of [_addEntry] does, case by case. *)
Lemma _addEntry_cases (z : Zipper) (now : Date) (p d : jsval) (f : bool) :
  _addEntry z now p d f = (count z, z) \/
  exists s b,
    p = VStr s /\
    len (normalizeFilename s) <> 0 /\
    len (storedName s f) <= 0xFF /\
    existsb (str_eqb (storedName s f)) (getNames z) = false /\
    coerceData d = Some b /\ len b <= 0xFFFFFFFF /\
    _addEntry z now p d f =
    (count z + 1,
     mkZipper
       (_parts z ++ [localHeader now (storedName s f) b; b])
       (_cd z ++ [cdHeader now (storedName s f) b f (totalLength (_parts z))])).
Proof.
  unfold _addEntry, count, storedName.
  destruct p as [| | | |s| | | | |]; try (left; reflexivity).
  set (n := normalizeFilename s).
  destruct (Z.eqb_spec (len n) 0) as [|Hn]; [left; reflexivity|].
  set (fn := if f && negb (endsWithSlash n) then n ++ [47] else n).
  destruct (Z.gtb_spec (len fn) 0xFF) as [|Hl]; [left; reflexivity|].
  destruct (existsb (str_eqb fn) (getNames z)) eqn:Hx; [left; reflexivity|].
  destruct (coerceData d) as [b|] eqn:Hc; [|left; reflexivity].
  destruct (Z.gtb_spec (len b) 0xFFFFFFFF) as [|Hb]; [left; reflexivity|].
  right. exists s, b. cbn [_cd _parts].
  repeat split; try assumption; try reflexivity.
  rewrite len_app. reflexivity.
Qed.

(** X13.  [pop] undoes an accepted add: when [_addEntry] returns a
    count one above the previous one, a [pop] right after it gives back
    the state before the add, and the previous count.  On the empty
    archive [pop] returns 0 and changes nothing. *)
Theorem pop_undoes_add (z : Zipper) (now : Date) (p d : jsval) (f : bool) :
  fst (_addEntry z now p d f) = count z + 1 ->
  pop (snd (_addEntry z now p d f)) = (count z, z) /\
  pop empty = (0, empty).
Proof.
  intros H. split; [|reflexivity].
  destruct (_addEntry_cases z now p d f) as [E|(s & b & _ & _ & _ & _ & _ & _ & E)];
    rewrite E in *; cbn [fst snd] in *.
  - lia.
  - unfold pop. cbn [_cd _parts].
    rewrite removelast_snoc2, removelast_last.
    destruct z. reflexivity.
Qed.

Lemma pop_undoes_add_witness :
  let now := mkDate 2024 0 1 12 30 10 in
  fst (_addEntry empty now (VStr (lit "a.txt")) (VStr (lit "hi")) false)
    = count empty + 1 /\
  pop (snd (_addEntry empty now (VStr (lit "a.txt")) (VStr (lit "hi")) false))
    = (0, empty).
Proof.
  intros now.
  assert (H : fst (_addEntry empty now (VStr (lit "a.txt"))
                     (VStr (lit "hi")) false) = count empty + 1)
    by (vm_compute; reflexivity).
  split; [exact H|].
  exact (proj1 (pop_undoes_add empty now (VStr (lit "a.txt"))
                  (VStr (lit "hi")) false H)).
Defined.

Lemma cdHeader_nameLength (d : Date) (f : jsstring) (b : Uint8Array)
    (isF : bool) (off : Z) :
  subarray (cdHeader d f b isF off) 28 30 = numberToBytes (len f) 2.
Proof.
  rewrite <- (map_u8_bytes (numberToBytes (len f) 2))
    by apply numberToBytes_is_bytes.
  destruct isF; reflexivity.
Qed.

Lemma cdHeader_name (d : Date) (f : jsstring) (b : Uint8Array)
    (isF : bool) (off : Z) :
  skipn 46 (cdHeader d f b isF off) = map u8 f.
Proof.
  transitivity (map u8 (stringToBytes f ++ [] ++ [])).
  - destruct isF; reflexivity.
  - rewrite !app_nil_r. unfold stringToBytes. rewrite map_map.
    apply map_ext. intros c. unfold u8. apply Z.mod_mod. lia.
Qed.

Lemma u8_mod_2_16 (c : Z) : u8 c mod 2 ^ 16 = u8 c.
Proof.
  unfold u8. apply Z.mod_small.
  pose proof (Z.mod_pos_bound c 256 ltac:(lia)). lia.
Qed.

(** The name that [getNames] decodes from a record. *)
Lemma getNames_record (d : Date) (f : jsstring) (b : Uint8Array)
    (isF : bool) (off : Z) :
  len f <= 0xFF ->
  bytesToString
    (subarray (cdHeader d f b isF off) 46
       (Z.to_nat (46 + bytesToNumber (subarray (cdHeader d f b isF off) 28 30))))
  = map u8 f.
Proof.
  intros Hl. rewrite cdHeader_nameLength.
  rewrite bytesToNumber_numberToBytes_2 by (unfold len in *; lia).
  unfold subarray. rewrite cdHeader_name.
  replace (Z.to_nat (46 + len f) - 46)%nat with (List.length (map u8 f))
    by (rewrite length_map; unfold len; lia).
  rewrite firstn_all. unfold bytesToString. rewrite map_map.
  apply map_ext. intros c. apply u8_mod_2_16.
Qed.

Lemma getNames_holds (z : Zipper) (es : list registered) :
  holds z es ->
  Forall (fun e => len (r_filename e) <= 0xFF) es ->
  getNames z = map (map u8) (namesOf es).
Proof.
  intros [_ Hc] Hl. unfold getNames, namesOf. rewrite Hc. unfold cdOf.
  rewrite !map_map. apply map_ext_in. intros e He.
  rewrite Forall_forall in Hl. apply getNames_record. apply Hl. exact He.
Qed.

Lemma Forall_collapseSlashes (P : Z -> Prop) (s : jsstring) :
  Forall P s -> Forall P (collapseSlashes s).
Proof.
  induction 1 as [|c r Hc Hr IH]; [constructor|].
  cbn [collapseSlashes].
  destruct ((c =? 47) && headIsSlash r); [exact IH | constructor; assumption].
Qed.

Lemma Forall_stripLeadingSlash (P : Z -> Prop) (s : jsstring) :
  Forall P s -> Forall P (stripLeadingSlash s).
Proof.
  intros H. destruct H as [|c r Hc Hr]; [constructor|]. cbn.
  destruct (c =? 47); [exact Hr | constructor; assumption].
Qed.

Lemma Forall_stripTrailingSlash (P : Z -> Prop) (s : jsstring) :
  Forall P s -> Forall P (stripTrailingSlash s).
Proof.
  intros H. unfold stripTrailingSlash. apply Forall_rev.
  apply Forall_stripLeadingSlash. apply Forall_rev. exact H.
Qed.

Lemma storedName_latin1 (s : jsstring) (f : bool) :
  latin1 s -> latin1 (storedName s f).
Proof.
  intros H. unfold storedName, normalizeFilename, latin1 in *.
  assert (Hn : Forall is_byte
                 (stripTrailingSlash (stripLeadingSlash (collapseSlashes s)))).
  { apply Forall_stripTrailingSlash, Forall_stripLeadingSlash,
      Forall_collapseSlashes. exact H. }
  destruct (f && negb _); [|exact Hn].
  apply Forall_app. split; [exact Hn|].
  constructor; [unfold is_byte; lia | constructor].
Qed.

Lemma storedName_nonempty (s : jsstring) (f : bool) :
  len (normalizeFilename s) <> 0 -> 0 < len (storedName s f).
Proof.
  intros H. unfold storedName.
  assert (0 < len (normalizeFilename s)) by (unfold len in *; lia).
  destruct (f && negb _); [rewrite len_app; unfold len in *; lia | assumption].
Qed.

Lemma getNames_snoc (parts : list Uint8Array) (cd : list Uint8Array)
    (d : Date) (f : jsstring) (b : Uint8Array) (isF : bool) (off : Z) :
  len f <= 0xFF ->
  getNames (mkZipper parts (cd ++ [cdHeader d f b isF off]))
  = getNames (mkZipper parts cd) ++ [map u8 f].
Proof.
  intros Hl. unfold getNames. cbn [_cd]. rewrite map_app. cbn [map].
  rewrite getNames_record by exact Hl. reflexivity.
Qed.

Lemma map_removelast {A B} (g : A -> B) (l : list A) :
  map g (removelast l) = removelast (map g l).
Proof.
  destruct l as [|x l] using rev_ind; [reflexivity|].
  rewrite removelast_last, map_app. cbn [map]. now rewrite removelast_last.
Qed.

Lemma getNames_add (z : Zipper) (now : Date) (p d : jsval) (f : bool) :
  _addEntry z now p d f = (count z, z) \/
  exists s,
    p = VStr s /\
    fst (_addEntry z now p d f) = count z + 1 /\
    0 < len (storedName s f) <= 0xFF /\
    ~ In (storedName s f) (getNames z) /\
    getNames (snd (_addEntry z now p d f))
    = getNames z ++ [map u8 (storedName s f)].
Proof.
  destruct (_addEntry_cases z now p d f)
    as [E|(s & b & Hp & Hn & Hl & Hx & _ & _ & E)]; [left; exact E|].
  right. exists s. rewrite E. cbn [fst snd].
  split; [exact Hp|]. split; [reflexivity|].
  split; [split; [apply storedName_nonempty; exact Hn | exact Hl]|].
  split.
  - intros Hin.
    assert (Hex : existsb (str_eqb (storedName s f)) (getNames z) = true).
    { apply existsb_exists. exists (storedName s f).
      split; [exact Hin | apply str_eqb_refl]. }
    congruence.
  - rewrite getNames_snoc by exact Hl. destruct z. reflexivity.
Qed.

Lemma getNames_pop (z : Zipper) :
  getNames (snd (pop z)) = removelast (getNames z).
Proof. unfold pop, getNames. cbn [snd _cd]. apply map_removelast. Qed.

(** X14.  [getNames] follows the calls: a rejected add leaves the names
    as they were, an accepted add appends the stored name (the
    normalised filename, with a trailing separator for a folder), each
    code unit reduced modulo 256, and [pop] drops the last name. *)
Theorem getNames_follows_calls (z : Zipper) (now : Date) (p d : jsval)
    (f : bool) :
  (_addEntry z now p d f = (count z, z) \/
   exists s,
     p = VStr s /\
     fst (_addEntry z now p d f) = count z + 1 /\
     0 < len (storedName s f) <= 0xFF /\
     ~ In (storedName s f) (getNames z) /\
     getNames (snd (_addEntry z now p d f))
     = getNames z ++ [map u8 (storedName s f)]) /\
  getNames (snd (pop z)) = removelast (getNames z).
Proof. split; [apply getNames_add | apply getNames_pop]. Qed.

Lemma NoDup_removelast {A} (l : list A) : NoDup l -> NoDup (removelast l).
Proof.
  destruct l as [|x l] using rev_ind; [trivial|].
  rewrite removelast_last. apply NoDup_app_remove_r.
Qed.

Lemma Forall_removelast {A} (P : A -> Prop) (l : list A) :
  Forall P l -> Forall P (removelast l).
Proof.
  destruct l as [|x l] using rev_ind; [trivial|].
  rewrite removelast_last. intros H. apply Forall_app in H. apply H.
Qed.

Lemma NoDup_snoc {A} (l : list A) (x : A) :
  NoDup l -> ~ In x l -> NoDup (l ++ [x]).
Proof.
  intros Hl Hx. apply NoDup_app. repeat split.
  - exact Hl.
  - constructor; [intros [] | constructor].
  - intros y Hy [<-|[]]. exact (Hx Hy).
Qed.

(** X15.  When every filename passed to [addFile] and [addFolder] has
    only code units below 256, the names that [getNames] lists stay
    pairwise distinct through any sequence of adds and pops, each has 1
    to 255 characters, and there are as many as [count] says. *)
Theorem names_stay_distinct (cs : list call) :
  Forall latin1Call cs ->
  NoDup (getNames (run empty cs)) /\
  Forall (fun n => 0 < len n <= 0xFF /\ latin1 n) (getNames (run empty cs)) /\
  len (getNames (run empty cs)) = count (run empty cs).
Proof.
  intros Hl. split; [|split].
  2: { clear. induction cs as [|c cs IH] using rev_ind.
       - constructor.
       - rewrite run_app.
         set (z := run empty cs) in *.
         change (run z [c]) with (snd (run_call z c)).
         assert (Hadd : forall now p d f,
                    Forall (fun n => 0 < len n <= 0xFF /\ latin1 n)
                      (getNames (snd (_addEntry z now p d f)))).
         { intros now p d f.
           destruct (getNames_add z now p d f)
             as [E|(s & _ & _ & Hb & _ & E)].
           - rewrite E. exact IH.
           - rewrite E. apply Forall_app. split; [exact IH|].
             constructor; [|constructor]. split.
             + unfold len in *. rewrite length_map. exact Hb.
             + unfold latin1. apply Forall_forall. intros x Hx.
               apply in_map_iff in Hx. destruct Hx as [y [<- _]].
               unfold is_byte, u8. apply Z.mod_pos_bound. lia. }
         destruct c as [now p d | now p |]; cbn [run_call].
         + apply Hadd.
         + apply Hadd.
         + rewrite getNames_pop.
           apply Forall_removelast. exact IH. }
  2: { unfold getNames, count, len. now rewrite length_map. }
  induction cs as [|c cs IH] using rev_ind; [constructor|].
  apply Forall_app in Hl. destruct Hl as [Hcs Hc].
  inversion Hc as [|? ? Hc1 _]; subst.
  specialize (IH Hcs). rewrite run_app.
  set (z := run empty cs) in *.
  change (run z [c]) with (snd (run_call z c)).
  assert (Hadd : forall now p d f,
             (forall s, p = VStr s -> latin1 s) ->
             NoDup (getNames (snd (_addEntry z now p d f)))).
  { intros now p d f Hp.
    destruct (getNames_add z now p d f)
      as [E|(s & Es & _ & _ & Hnin & E)].
    - rewrite E. exact IH.
    - rewrite E.
      assert (Hm : map u8 (storedName s f) = storedName s f).
      { apply map_u8_fixed. apply storedName_latin1. apply Hp. exact Es. }
      rewrite Hm. apply NoDup_snoc; assumption. }
  destruct c as [now p d | now p |]; cbn [run_call].
  - apply Hadd. intros s ->. exact Hc1.
  - apply Hadd. intros s ->. exact Hc1.
  - rewrite getNames_pop.
    apply NoDup_removelast. exact IH.
Qed.

Lemma names_stay_distinct_witness :
  let now := mkDate 2024 0 1 12 30 10 in
  let cs := [AddFolder now (VStr (lit "docs"));
             AddFile now (VStr (lit "docs/a.txt")) (VStr (lit "hi"));
             AddFile now (VStr (lit "/docs//a.txt")) VNull] in
  Forall latin1Call cs /\
  NoDup (getNames (run empty cs)) /\
  getNames (run empty cs) = [lit "docs/"; lit "docs/a.txt"].
Proof.
  intros now cs.
  assert (H : Forall latin1Call cs).
  { constructor; [|constructor; [|constructor; [|constructor]]];
      apply is_bytes_forallb; reflexivity. }
  split; [exact H|].
  split; [exact (proj1 (names_stay_distinct cs H)) | vm_compute; reflexivity].
Defined.

Lemma map_u8_stringToBytes (str : jsstring) :
  map u8 (stringToBytes str) = map u8 str.
Proof.
  unfold stringToBytes. rewrite map_map. apply map_ext. intros x.
  unfold u8. apply Z.mod_mod. lia.
Qed.

(** X16.  The trailer that [_getEOCD] builds starts with 50 4B 05 06
    and records the number of entries (twice, as 16-bit fields), the byte
    size of the central directory and the byte size of the parts before
    it (as 32-bit fields) and the length of the coerced comment, followed
    by the comment one byte per character; [toUint8Array] is as long as
    the parts, the central directory and this trailer together. *)
Theorem eocd_records_directory (z : Zipper) (c : jsval) :
  let eocd := _getEOCD z c in
  let cm := coerceComment c in
  firstn 4 eocd = [0x50; 0x4b; 0x05; 0x06] /\
  fieldAt eocd 8 2 = count z mod 2 ^ 16 /\
  fieldAt eocd 10 2 = count z mod 2 ^ 16 /\
  fieldAt eocd 12 4 = totalLength (_cd z) mod 2 ^ 32 /\
  fieldAt eocd 16 4 = totalLength (_parts z) mod 2 ^ 32 /\
  fieldAt eocd 20 2 = len cm /\
  skipn 22 eocd = map u8 cm /\
  len (toUint8Array z c)
  = totalLength (_parts z) + totalLength (_cd z) + 22 + len cm.
Proof.
  intros eocd cm.
  assert (Hcm : len cm <= 65535) by apply coerceComment_length.
  assert (E : eocd =
              [0x50; 0x4b; 0x05; 0x06; 0x00; 0x00; 0x00; 0x00]
              ++ numberToBytes (len (_cd z)) 2
              ++ numberToBytes (len (_cd z)) 2
              ++ numberToBytes (totalLength (_cd z)) 4
              ++ numberToBytes (totalLength (_parts z)) 4
              ++ numberToBytes (len cm) 2
              ++ map u8 cm).
  { unfold eocd, _getEOCD. fold cm.
    rewrite !map_app.
    rewrite !(map_u8_bytes (numberToBytes _ _)) by apply numberToBytes_is_bytes.
    rewrite map_u8_stringToBytes. reflexivity. }
  rewrite E. unfold fieldAt, count.
  split; [reflexivity|].
  split; [apply numberToBytes_2_value|].
  split; [apply numberToBytes_2_value|].
  split; [apply numberToBytes_4_value|].
  split; [apply numberToBytes_4_value|].
  split.
  { change (le_value (numberToBytes (len cm) 2) = len cm).
    rewrite numberToBytes_2_value. apply Z.mod_small. unfold len in *. lia. }
  split; [reflexivity|].
  unfold toUint8Array. fold eocd. rewrite !concat_app. cbn [List.concat].
  rewrite app_nil_r, !len_app, <- !totalLength_concat, E.
  unfold len. repeat rewrite length_app. rewrite !numberToBytes_length, length_map.
  cbn [List.length]. lia.
Qed.

Lemma partsOf_nth (es : list registered) (i : nat) (e : registered) :
  nth_error es i = Some e ->
  nth_error (partsOf es) (2 * i)
    = Some (localHeader (r_date e) (r_filename e) (r_data e)) /\
  nth_error (partsOf es) (S (2 * i)) = Some (r_data e).
Proof.
  revert i. induction es as [|x es IH]; intros [|i] H; try discriminate H.
  - inversion H. subst. split; reflexivity.
  - replace (2 * S i)%nat with (S (S (2 * i))) by lia.
    cbn [partsOf flat_map app nth_error]. apply IH. exact H.
Qed.

(** Two consecutive segments are found in the concatenation at the byte
    count of the segments before them. *)
Lemma locate_in_concat (segs : list Uint8Array) (k : nat)
    (a b tail : Uint8Array) :
  nth_error segs k = Some a -> nth_error segs (S k) = Some b ->
  firstn (List.length a + List.length b)
    (skipn (Z.to_nat (totalLength (firstn k segs)))
       (List.concat segs ++ tail))
  = a ++ b.
Proof.
  intros Ha Hb.
  rewrite totalLength_concat. unfold len. rewrite Nat2Z.id.
  pose proof (nth_error_split3 segs k _ Ha) as S1.
  assert (S2 : skipn (S k) segs = b :: skipn (S (S k)) segs).
  { pose proof (nth_error_split3 segs (S k) _ Hb) as S2.
    rewrite S2 at 1.
    rewrite skipn_app, firstn_length_le.
    - rewrite Nat.sub_diag, skipn_all2 by (rewrite length_firstn; lia).
      reflexivity.
    - apply Nat.lt_le_incl. apply nth_error_Some. congruence. }
  rewrite S2 in S1. rewrite S1 at 2.
  rewrite concat_app. cbn [List.concat]. rewrite <- !app_assoc.
  rewrite skipn_app_exact by reflexivity.
  rewrite !app_assoc. rewrite <- (app_assoc (a ++ b)).
  apply firstn_app_exact. now rewrite length_app.
Qed.

(** X17.  In every state that a sequence of calls reaches, the offsets
    in the central directory locate the local headers: when the parts
    before entry [i] are less than 2^32 bytes together, the bytes of
    [toUint8Array] that start at the offset recorded in record [i] are
    the local header of entry [i], which starts with 50 4B 03 04,
    followed by its data. *)
Theorem offset_locates_local_header (cs : list call) (c : jsval) (i : nat)
    (h : Uint8Array) :
  let z := run empty cs in
  nth_error (_cd z) i = Some h ->
  totalLength (firstn (2 * i) (_parts z)) < 2 ^ 32 ->
  exists lh d,
    nth_error (_parts z) (2 * i) = Some lh /\
    nth_error (_parts z) (2 * i + 1) = Some d /\
    firstn 4 lh = [0x50; 0x4b; 0x03; 0x04] /\
    firstn (List.length lh + List.length d)
      (skipn (Z.to_nat (cdOffsetField h)) (toUint8Array z c))
    = lh ++ d.
Proof.
  intros z Hh Hb.
  destruct (run_cumulative cs) as [es [[Hp Hc] Hcum]]. fold z in Hp, Hc.
  rewrite Hc in Hh. unfold cdOf in Hh. rewrite nth_error_map in Hh.
  destruct (nth_error es i) as [e|] eqn:He; [|discriminate Hh].
  cbn [option_map] in Hh. inversion Hh; subst h. clear Hh.
  destruct (partsOf_nth es i e He) as [H1 H2].
  rewrite <- Hp in H1, H2.
  do 2 eexists. split; [exact H1|].
  split; [replace (2 * i + 1)%nat with (S (2 * i)) by lia; exact H2|].
  split; [reflexivity|].
  rewrite ZipParts_cdOffsetField, (Hcum i e He), partsOf_firstn, <- Hp.
  rewrite Z.mod_small by (split; [apply totalLength_nonneg | exact Hb]).
  unfold toUint8Array. rewrite concat_app.
  apply locate_in_concat; assumption.
Qed.

Lemma offset_locates_local_header_witness :
  let now := mkDate 2024 0 1 12 30 10 in
  let cs := [AddFile now (VStr (lit "a.txt")) (VStr (lit "one"));
             AddFile now (VStr (lit "b.txt")) (VStr (lit "two"))] in
  let z := run empty cs in
  exists h,
    nth_error (_cd z) 1 = Some h /\
    totalLength (firstn 2 (_parts z)) < 2 ^ 32 /\
    exists lh,
      nth_error (_parts z) 2 = Some lh /\
      firstn (List.length lh + 3)
        (skipn (Z.to_nat (cdOffsetField h)) (toUint8Array z VNull))
      = lh ++ [116; 119; 111].
Proof.
  intros now cs z.
  destruct (nth_error (_cd z) 1) as [h|] eqn:Eh;
    [|vm_compute in Eh; discriminate Eh].
  exists h. split; [reflexivity|].
  assert (Hb : totalLength (firstn (2 * 1) (_parts z)) < 2 ^ 32)
    by (vm_compute; reflexivity).
  split; [exact Hb|].
  destruct (offset_locates_local_header cs VNull 1 h Eh Hb)
    as (lh & d & H1 & H2 & _ & H4).
  exists lh. split; [exact H1|].
  assert (Ed : d = [116; 119; 111]).
  { vm_compute in H2. inversion H2. reflexivity. }
  subst d. exact H4.
Defined.

Lemma crc_finish_range (x : Z) : 0 <= Crc.crc_finish x < 2 ^ 32.
Proof.
  unfold Crc.crc_finish, ushr. change (0 mod 32) with 0.
  rewrite Z.shiftr_0_r. apply Z.mod_pos_bound. lia.
Qed.

Lemma localHeader_layout (now : Date) (fn : jsstring) (b : Uint8Array) :
  localHeader now fn b =
  [0x50; 0x4b; 0x03; 0x04; 0x0a; 0x00; 0x00; 0x00; 0x00; 0x00]
  ++ timeToBytes now
  ++ dateToBytes now
  ++ numberToBytes (Crc.Zipper_bytesToCrc32 b) 4
  ++ numberToBytes (len b) 4
  ++ numberToBytes (len b) 4
  ++ numberToBytes (len fn) 2
  ++ numberToBytes 0 2
  ++ map u8 fn.
Proof.
  unfold localHeader, timeToBytes, dateToBytes.
  rewrite !map_app.
  rewrite !(map_u8_bytes (numberToBytes _ _)) by apply numberToBytes_is_bytes.
  rewrite map_u8_stringToBytes. cbn [stringToBytes map].
  rewrite app_nil_r. reflexivity.
Qed.

Lemma cdHeader_layout (now : Date) (fn : jsstring) (b : Uint8Array)
    (f : bool) (off : Z) :
  cdHeader now fn b f off =
  [0x50; 0x4b; 0x01; 0x02; 0x1e; 0x03; 0x0a; 0x00; 0x00; 0x00; 0x00; 0x00]
  ++ timeToBytes now
  ++ dateToBytes now
  ++ numberToBytes (Crc.Zipper_bytesToCrc32 b) 4
  ++ numberToBytes (len b) 4
  ++ numberToBytes (len b) 4
  ++ numberToBytes (len fn) 2
  ++ numberToBytes 0 2
  ++ numberToBytes 0 2
  ++ numberToBytes 0 2
  ++ [0x00; 0x00]
  ++ (if f then [0x10; 0x00; 0xed; 0x41] else [0x00; 0x00; 0xa4; 0x81])
  ++ numberToBytes off 4
  ++ map u8 fn.
Proof.
  unfold cdHeader, timeToBytes, dateToBytes.
  rewrite !map_app.
  rewrite !(map_u8_bytes (numberToBytes _ _)) by apply numberToBytes_is_bytes.
  rewrite map_u8_stringToBytes. cbn [stringToBytes map].
  rewrite app_nil_r. destruct f; reflexivity.
Qed.

(** X18.  The two headers that an accepted add stores describe the
    entry and agree with each other: both carry the CRC-32 of the
    converted data, its length (twice) and the length of the stored name,
    then the name one byte per character; the central header repeats the
    time, date, CRC, sizes and name of the local one and marks a folder
    with the attribute bytes 10 00 ED 41 and a file with 00 00 A4 81; for
    a clock reading in 1980-2107 the time and date fields are its MS-DOS
    time and date. *)
Theorem added_headers_describe_entry (z : Zipper) (now : Date) (p d : jsval)
    (f : bool) :
  fst (_addEntry z now p d f) = count z + 1 ->
  exists s b lh h,
    p = VStr s /\ coerceData d = Some b /\
    _parts (snd (_addEntry z now p d f)) = _parts z ++ [lh; b] /\
    _cd (snd (_addEntry z now p d f)) = _cd z ++ [h] /\
    firstn 4 lh = [0x50; 0x4b; 0x03; 0x04] /\
    firstn 4 h = [0x50; 0x4b; 0x01; 0x02] /\
    fieldAt lh 14 4 = Crc.Zipper_bytesToCrc32 b /\
    fieldAt lh 18 4 = len b /\
    fieldAt lh 22 4 = len b /\
    fieldAt lh 26 2 = len (storedName s f) /\
    skipn 30 lh = map u8 (storedName s f) /\
    firstn 20 (skipn 12 h) = firstn 20 (skipn 10 lh) /\
    skipn 46 h = skipn 30 lh /\
    firstn 4 (skipn 38 h)
      = (if f then [0x10; 0x00; 0xed; 0x41] else [0x00; 0x00; 0xa4; 0x81]) /\
    (dos_valid now ->
     fieldAt lh 10 2 = dosTime now /\ fieldAt lh 12 2 = dosDate now).
Proof.
  intros H.
  destruct (_addEntry_cases z now p d f)
    as [E|(s & b & Hp & Hn & Hl & _ & Hc & Hb & E)].
  { rewrite E in H. cbn [fst] in H. lia. }
  rewrite E. cbn [snd _parts _cd].
  exists s, b. do 2 eexists.
  split; [exact Hp|]. split; [exact Hc|].
  split; [reflexivity|]. split; [reflexivity|].
  rewrite localHeader_layout, cdHeader_layout.
  set (fn := storedName s f) in *.
  assert (Hfn : 0 <= len fn < 2 ^ 16) by (unfold len in *; lia).
  assert (Hlb : 0 <= len b < 2 ^ 32) by (unfold len in *; lia).
  unfold fieldAt, timeToBytes, dateToBytes.
  split; [reflexivity|]. split; [reflexivity|].
  split.
  { change (le_value (numberToBytes (Crc.Zipper_bytesToCrc32 b) 4)
            = Crc.Zipper_bytesToCrc32 b).
    rewrite numberToBytes_4_value. apply Z.mod_small. apply crc_finish_range. }
  split.
  { change (le_value (numberToBytes (len b) 4) = len b).
    rewrite numberToBytes_4_value. apply Z.mod_small. exact Hlb. }
  split.
  { change (le_value (numberToBytes (len b) 4) = len b).
    rewrite numberToBytes_4_value. apply Z.mod_small. exact Hlb. }
  split.
  { change (le_value (numberToBytes (len fn) 2) = len fn).
    rewrite numberToBytes_2_value. apply Z.mod_small. exact Hfn. }
  split; [reflexivity|]. split; [reflexivity|].
  split; [destruct f; reflexivity|].
  split; [destruct f; reflexivity|].
  intros Hv.
  pose proof (timeToBytes_number now Hv) as Et.
  pose proof (dateToBytes_number now Hv) as Ed.
  unfold timeToBytes in Et. unfold dateToBytes in Ed.
  destruct Hv as (Hy & Hm & Hd & Hh & Hmi & Hs).
  assert (Hs2 : 0 <= getSeconds now / 2 <= 29)
    by (Z.div_mod_to_equations; lia).
  split.
  - change (le_value
              (numberToBytes
                 (shl (getHours now) 11 + shl (getMinutes now) 5
                  + getSeconds now / 2) 2) = dosTime now).
    rewrite Et, numberToBytes_2_value. apply Z.mod_small.
    unfold dosTime. lia.
  - change (le_value
              (numberToBytes
                 (shl (getFullYear now - 1980) 9
                  + shl (getMonth now + 1) 5 + getDate now) 2)
            = dosDate now).
    rewrite Ed, numberToBytes_2_value. apply Z.mod_small.
    unfold dosDate. lia.
Qed.

Lemma added_headers_describe_entry_witness :
  let now := mkDate 2024 1 29 23 59 59 in
  let r := _addEntry empty now (VStr (lit "docs")) VNull true in
  fst r = count empty + 1 /\
  exists lh h,
    _parts (snd r) = [lh; []] /\ _cd (snd r) = [h] /\
    skipn 30 lh = lit "docs/" /\
    firstn 4 (skipn 38 h) = [0x10; 0x00; 0xed; 0x41].
Proof.
  intros now r.
  assert (H : fst r = count empty + 1) by (vm_compute; reflexivity).
  split; [exact H|].
  destruct (added_headers_describe_entry empty now (VStr (lit "docs"))
              VNull true H)
    as (s & b & lh & h & Hp & Hc & H1 & H2 & _ & _ & _ & _ & _ & _ & Hn
        & _ & _ & Hx & _).
  inversion Hp; subst s. inversion Hc; subst b.
  exists lh, h. split; [exact H1|]. split; [exact H2|].
  split; [rewrite Hn; reflexivity | exact Hx].
Defined.

End PartsMore.

(** ** Further properties of the TAR builder *)

Section TarMore.
Import JS Codec Tar TarFields.

Lemma packFrom_app (clock : nat -> Z) (fs1 fs2 : list file) (t : nat) :
  packFrom clock t (fs1 ++ fs2)
  = packFrom clock t fs1 ++ packFrom clock (t + List.length fs1) fs2.
Proof.
  revert t. induction fs1 as [|f fs1 IH]; intros t.
  - cbn. now rewrite Nat.add_0_r.
  - cbn [app packFrom List.length]. rewrite IH, <- app_assoc.
    do 2 f_equal. f_equal. lia.
Qed.

Lemma packFile_shape (seconds : Z) (f : file) :
  packFile seconds f
  = [getTarHeader (path f) (len (data f)) seconds; data f;
     zeros (Z.to_nat (512 - len (data f) mod 512))].
Proof.
  unfold packFile. pose proof (tar_pad_positive (len (data f))) as Hp.
  destruct (Z.gtb_spec (512 - len (data f) mod 512) 0); [reflexivity | lia].
Qed.

Lemma packFrom_length (clock : nat -> Z) (fs : list file) (t : nat) :
  List.length (packFrom clock t fs) = (3 * List.length fs)%nat.
Proof.
  revert t. induction fs as [|f fs IH]; intros t; [reflexivity|].
  cbn [packFrom]. rewrite packFile_shape, length_app, IH.
  cbn [List.length]. lia.
Qed.

Lemma packFrom_nth (clock : nat -> Z) (fs : list file) :
  forall (t i : nat) (f : file),
  nth_error fs i = Some f ->
  nth_error (packFrom clock t fs) (3 * i)
    = Some (getTarHeader (path f) (len (data f)) (clock (t + i)%nat)) /\
  nth_error (packFrom clock t fs) (3 * i + 1) = Some (data f) /\
  nth_error (packFrom clock t fs) (3 * i + 2)
    = Some (zeros (Z.to_nat (512 - len (data f) mod 512))).
Proof.
  induction fs as [|x fs IH]; intros t [|i] f H; try discriminate H.
  - inversion H; subst. cbn [packFrom]. rewrite packFile_shape.
    rewrite Nat.add_0_r. repeat split; reflexivity.
  - cbn [packFrom]. rewrite packFile_shape.
    replace (3 * S i)%nat with (S (S (S (3 * i)))) by lia.
    cbn [app nth_error Nat.add].
    replace (t + S i)%nat with (S t + i)%nat by lia.
    apply IH. exact H.
Qed.

Lemma packFrom_bytes (clock : nat -> Z) (fs : list file) (t : nat) :
  len (List.concat (packFrom clock t fs))
  = fold_right (fun f acc => 1024 + 512 * (len (data f) / 512) + acc) 0 fs.
Proof.
  revert t. induction fs as [|f fs IH]; intros t; [reflexivity|].
  cbn [packFrom fold_right]. rewrite packFile_shape.
  cbn [app List.concat]. rewrite !len_app, IH, len_zeros.
  pose proof (tar_pad_positive (len (data f))).
  rewrite Z2Nat.id by lia.
  unfold len at 1. rewrite getTarHeader_length.
  pose proof (Z.div_mod (len (data f)) 512 ltac:(lia)). lia.
Qed.

(** X19.  [_pack] of the TAR builder emits three segments per file, in
    the order of the files: the 512-byte header (each header reads the
    clock once), the data as it is, and between 1 and 512 zero bytes.
    The output is a whole number of 512-byte blocks, 1024 bytes plus the
    data length rounded down to a block for each file, and nothing
    follows the last file. *)
Theorem tar_pack_shape (clock : nat -> Z) (z : Zipper) :
  List.length (_pack clock z) = (3 * List.length (_files z))%nat /\
  len (List.concat (_pack clock z))
  = fold_right (fun f acc => 1024 + 512 * (len (data f) / 512) + acc) 0
      (_files z) /\
  len (List.concat (_pack clock z)) mod 512 = 0 /\
  forall i f,
    nth_error (_files z) i = Some f ->
    nth_error (_pack clock z) (3 * i)
      = Some (getTarHeader (path f) (len (data f)) (clock i)) /\
    nth_error (_pack clock z) (3 * i + 1) = Some (data f) /\
    nth_error (_pack clock z) (3 * i + 2)
      = Some (zeros (Z.to_nat (512 - len (data f) mod 512))).
Proof.
  unfold _pack. split; [apply packFrom_length|].
  split; [apply packFrom_bytes|]. split.
  - rewrite packFrom_bytes. induction (_files z) as [|f fs IH]; [reflexivity|].
    cbn [fold_right].
    replace (1024 + 512 * (len (data f) / 512)
             + fold_right (fun f acc => 1024 + 512 * (len (data f) / 512) + acc)
                 0 fs)
      with (fold_right (fun f acc => 1024 + 512 * (len (data f) / 512) + acc)
              0 fs + (2 + len (data f) / 512) * 512) by lia.
    rewrite Z_mod_plus_full. exact IH.
  - intros i f H. apply (packFrom_nth clock (_files z) 0 i f H).
Qed.

(** *** Digit strings *)

Lemma digits_acc (radix : Z) (fuel : nat) :
  forall n acc, digits fuel radix n acc = digits fuel radix n [] ++ acc.
Proof.
  induction fuel as [|fuel IH]; intros n acc; [reflexivity|].
  cbn [digits]. destruct (n / radix =? 0); [reflexivity|].
  rewrite IH, (IH _ [digit (n mod radix)]), <- app_assoc. reflexivity.
Qed.

Lemma digitsValue_snoc (radix : Z) (l : list Z) (c : Z) :
  digitsValue radix (l ++ [c]) = digitsValue radix l * radix + (c - 48).
Proof. unfold digitsValue. rewrite fold_left_app. reflexivity. Qed.

Lemma digitsValue_zeros (radix : Z) (k : nat) (l : list Z) :
  digitsValue radix (repeat 48 k ++ l) = digitsValue radix l.
Proof.
  unfold digitsValue. rewrite fold_left_app. f_equal.
  induction k as [|k IH]; [reflexivity|].
  cbn [repeat fold_left].
  replace (0 * radix + (48 - 48)) with 0 by lia. exact IH.
Qed.

Lemma digit_value (d : Z) : 0 <= d < 10 -> digit d - 48 = d.
Proof.
  intros H. unfold digit. destruct (Z.ltb_spec d 10); lia.
Qed.

Lemma digits_value (radix : Z) (fuel : nat) :
  2 <= radix <= 10 ->
  forall n, 0 <= n < 2 ^ Z.of_nat fuel ->
  digitsValue radix (digits fuel radix n []) = n.
Proof.
  intros Hr. induction fuel as [|fuel IH]; intros n Hn.
  - cbn in Hn. assert (n = 0) by lia. subst n. reflexivity.
  - cbn [digits].
    pose proof (Z.div_mod n radix ltac:(lia)) as Hdm.
    pose proof (Z.mod_pos_bound n radix ltac:(lia)) as Hm.
    destruct (Z.eqb_spec (n / radix) 0) as [E|E].
    + unfold digitsValue. cbn [fold_left].
      rewrite digit_value by lia. rewrite E in Hdm. lia.
    + rewrite digits_acc, digitsValue_snoc, digit_value by lia.
      rewrite IH; [lia|].
      rewrite Nat2Z.inj_succ, Z.pow_succ_r in Hn by lia.
      split; [apply Z.div_pos; lia|].
      apply Z.div_lt_upper_bound; [lia|].
      assert (0 < 2 ^ Z.of_nat fuel) by (apply Z.pow_pos_nonneg; lia).
      nia.
Qed.

Lemma digits_length (radix : Z) (fuel : nat) :
  2 <= radix ->
  forall n k, 0 <= n < radix ^ k -> 1 <= k ->
  Z.of_nat (List.length (digits fuel radix n [])) <= k.
Proof.
  intros Hr. induction fuel as [|fuel IH]; intros n k Hn Hk.
  - cbn. lia.
  - cbn [digits].
    destruct (Z.eqb_spec (n / radix) 0) as [E|E]; [cbn; lia|].
    rewrite digits_acc, length_app. cbn [List.length].
    assert (Hge : radix <= n).
    { destruct (Z.lt_ge_cases n radix) as [Hlt|]; [|assumption].
      rewrite Z.div_small in E by lia. contradiction. }
    assert (Hk2 : 2 <= k).
    { destruct (Z.eq_dec k 1) as [->|]; [|lia].
      rewrite Z.pow_1_r in Hn. lia. }
    specialize (IH (n / radix) (k - 1)).
    assert (Hq : 0 <= n / radix < radix ^ (k - 1)).
    { split; [apply Z.div_pos; lia|].
      apply Z.div_lt_upper_bound; [lia|].
      rewrite <- Z.pow_succ_r by lia.
      replace (Z.succ (k - 1)) with k by lia. lia. }
    specialize (IH Hq ltac:(lia)). lia.
Qed.

Lemma digits_is_bytes (radix : Z) (fuel : nat) :
  2 <= radix <= 10 ->
  forall n, 0 <= n -> Forall is_byte (digits fuel radix n []).
Proof.
  intros Hr. induction fuel as [|fuel IH]; intros n Hn; [constructor|].
  cbn [digits].
  pose proof (Z.mod_pos_bound n radix ltac:(lia)) as Hm.
  assert (Hd : is_byte (digit (n mod radix))).
  { unfold is_byte, digit. destruct (Z.ltb_spec (n mod radix) 10); lia. }
  destruct (n / radix =? 0); [constructor; [exact Hd | constructor]|].
  rewrite digits_acc. apply Forall_app. split.
  - apply IH. apply Z.div_pos; lia.
  - constructor; [exact Hd | constructor].
Qed.

(** [n.toString(radix)] of a number from 0 up: digit characters that
    denote [n], no more of them than [n] needs. *)
Lemma toStringRadix_spec (radix n k : Z) :
  2 <= radix <= 10 -> 0 <= n < radix ^ k -> 1 <= k ->
  digitsValue radix (toStringRadix radix n) = n /\
  Z.of_nat (List.length (toStringRadix radix n)) <= k /\
  Forall is_byte (toStringRadix radix n).
Proof.
  intros Hr Hn Hk. unfold toStringRadix.
  destruct (Z.ltb_spec n 0) as [|_]; [lia|].
  split; [|split].
  - apply digits_value; [exact Hr|].
    rewrite Nat2Z.inj_succ, Z2Nat.id by apply Z.log2_nonneg.
    split; [lia|]. destruct (Z.eq_dec n 0) as [->|]; [reflexivity|].
    apply Z.log2_spec. lia.
  - apply digits_length; [lia | exact Hn | exact Hk].
  - apply digits_is_bytes; [exact Hr | lia].
Qed.

(** A zero-padded field: the last [k] characters of [k] zeros followed
    by at most [k] digits. *)
Lemma lastChars_padded (k : nat) (ds tail : jsstring) :
  (List.length ds <= k)%nat ->
  lastChars (k + List.length tail) (repeat 48 k ++ ds ++ tail)
  = repeat 48 (k - List.length ds) ++ ds ++ tail.
Proof.
  intros Hl. unfold lastChars.
  rewrite !length_app, repeat_length.
  replace (k + (List.length ds + List.length tail)
           - (k + List.length tail))%nat with (List.length ds) by lia.
  rewrite skipn_app, repeat_length.
  replace (List.length ds - k)%nat with 0%nat by lia.
  cbn [skipn]. f_equal.
  replace k with (List.length ds + (k - List.length ds))%nat at 1 by lia.
  rewrite repeat_app, skipn_app_exact by apply repeat_length. reflexivity.
Qed.

Lemma stringToBytes_Some (s : jsstring) (n : nat) :
  stringToBytes s (Some n)
  = map u8 (firstn n s) ++ zeros (n - List.length s).
Proof.
  revert n. induction s as [|c s IH]; intros n.
  - rewrite stringToBytes_nil, firstn_nil, Nat.sub_0_r. reflexivity.
  - destruct n as [|n]; [reflexivity|].
    rewrite stringToBytes_cons, IH. reflexivity.
Qed.

Lemma stringToBytes_exact (s : jsstring) (n : nat) :
  List.length s = n -> Forall is_byte s -> stringToBytes s (Some n) = s.
Proof.
  intros <- Hb. rewrite stringToBytes_Some, firstn_all, Nat.sub_diag.
  cbn [zeros repeat]. rewrite app_nil_r. apply map_u8_fixed. exact Hb.
Qed.

Lemma stringToBytes_is_bytes (s : jsstring) (n : option nat) :
  Forall is_byte (stringToBytes s n).
Proof.
  unfold stringToBytes. apply Forall_forall. intros b Hb.
  apply in_map_iff in Hb. destruct Hb as (i & <- & _).
  destruct (nth_error s i); unfold is_byte, u8;
    [apply Z.mod_pos_bound|]; lia.
Qed.

(** A numeric field of the header: the digits of the number after as
    many zeros as fill [k] characters, then the end of the field. *)
Lemma tar_number_field (radix n : Z) (k : nat) (tail : jsstring) :
  2 <= radix <= 10 -> 0 <= n < radix ^ Z.of_nat k -> (1 <= k)%nat ->
  exists field,
    lastChars (k + List.length tail)
              (repeat 48 k ++ toStringRadix radix n ++ tail)
    = field ++ tail /\
    List.length field = k /\ Forall is_byte field /\
    digitsValue radix field = n.
Proof.
  intros Hr Hn Hk.
  destruct (toStringRadix_spec radix n (Z.of_nat k) Hr Hn ltac:(lia))
    as (Hv & Hl & Hb).
  exists (repeat 48 (k - List.length (toStringRadix radix n))
          ++ toStringRadix radix n).
  split; [|split; [|split]].
  - rewrite lastChars_padded by lia. now rewrite app_assoc.
  - rewrite length_app, repeat_length. lia.
  - apply Forall_app. split; [|exact Hb].
    apply Forall_forall. intros x Hx. apply repeat_spec in Hx. subst x.
    unfold is_byte. lia.
  - rewrite digitsValue_zeros. exact Hv.
Qed.

Lemma sumBytes_acc (l : Uint8Array) (a : Z) :
  fold_left Z.add l a = a + sumBytes l.
Proof.
  unfold sumBytes. revert a. induction l as [|b l IH]; intros a.
  - cbn. lia.
  - cbn [fold_left]. rewrite IH, (IH (0 + b)). lia.
Qed.

Lemma sumBytes_app (a b : Uint8Array) :
  sumBytes (a ++ b) = sumBytes a + sumBytes b.
Proof.
  unfold sumBytes at 1. rewrite fold_left_app, sumBytes_acc. reflexivity.
Qed.

Lemma sumOfArrays_concat (args : list Uint8Array) :
  sumOfArrays args = sumBytes (List.concat args).
Proof.
  unfold sumOfArrays.
  enough (G : forall a, fold_left (fun sum arr => fold_left Z.add arr sum)
                                  args a
                        = a + sumBytes (List.concat args))
    by (rewrite G; lia).
  induction args as [|x args IH]; intros a.
  - cbn. lia.
  - cbn [fold_left List.concat]. rewrite IH, sumBytes_acc, sumBytes_app. lia.
Qed.

Lemma sumBytes_bound (l : Uint8Array) :
  Forall is_byte l -> 0 <= sumBytes l <= 255 * Z.of_nat (List.length l).
Proof.
  induction 1 as [|b l Hb _ IH].
  - cbn. lia.
  - change (b :: l) with ([b] ++ l). rewrite sumBytes_app.
    cbn [List.length app]. unfold is_byte in Hb.
    change (sumBytes [b]) with (0 + b). lia.
Qed.

Lemma sumBytes_zeros (n : nat) : sumBytes (zeros n) = 0.
Proof.
  induction n as [|n IH]; [reflexivity|].
  change (zeros (S n)) with ([0] ++ zeros n).
  rewrite sumBytes_app, IH. reflexivity.
Qed.

(** Where the fields of a header lie. *)
Lemma tar_layout
    (pathB modeB ownerB groupB fS fD fC linkB rest : Uint8Array) :
  List.length pathB = 100%nat -> List.length modeB = 8%nat ->
  List.length ownerB = 8%nat -> List.length groupB = 8%nat ->
  List.length fS = 11%nat -> List.length fD = 11%nat ->
  List.length fC = 6%nat ->
  let h := pathB ++ modeB ++ ownerB ++ groupB ++ (fS ++ [32])
           ++ (fD ++ [32]) ++ (fC ++ [0; 32]) ++ linkB ++ rest in
  firstn 100 h = pathB /\
  firstn 11 (skipn 124 h) = fS /\
  firstn 11 (skipn 136 h) = fD /\
  firstn 6 (skipn 148 h) = fC /\
  firstn 2 (skipn 154 h) = [0; 32] /\
  firstn 148 h
  = pathB ++ modeB ++ ownerB ++ groupB ++ (fS ++ [32]) ++ (fD ++ [32]) /\
  skipn 156 h = linkB ++ rest.
Proof.
  intros Hp Hm Ho Hg HS HD HC h.
  repeat split.
  - subst h. apply firstn_app_exact. exact Hp.
  - replace h with ((pathB ++ modeB ++ ownerB ++ groupB) ++ fS ++
                    ([32] ++ (fD ++ [32]) ++ (fC ++ [0; 32]) ++ linkB ++ rest))
      by (subst h; repeat rewrite <- app_assoc; reflexivity).
    apply field_at; [rewrite !length_app; lia | exact HS].
  - replace h with ((pathB ++ modeB ++ ownerB ++ groupB ++ fS ++ [32])
                    ++ fD ++ ([32] ++ (fC ++ [0; 32]) ++ linkB ++ rest))
      by (subst h; repeat rewrite <- app_assoc; reflexivity).
    apply field_at; [rewrite !length_app; cbn [List.length]; lia | exact HD].
  - replace h with ((pathB ++ modeB ++ ownerB ++ groupB ++ (fS ++ [32])
                     ++ fD ++ [32])
                    ++ fC ++ ([0; 32] ++ linkB ++ rest))
      by (subst h; repeat rewrite <- app_assoc; reflexivity).
    apply field_at; [rewrite !length_app; cbn [List.length]; lia | exact HC].
  - replace h with ((pathB ++ modeB ++ ownerB ++ groupB ++ (fS ++ [32])
                     ++ (fD ++ [32]) ++ fC)
                    ++ [0; 32] ++ (linkB ++ rest))
      by (subst h; repeat rewrite <- app_assoc; reflexivity).
    apply field_at; [rewrite !length_app; cbn [List.length]; lia | reflexivity].
  - replace h with ((pathB ++ modeB ++ ownerB ++ groupB ++ (fS ++ [32])
                     ++ (fD ++ [32]))
                    ++ ((fC ++ [0; 32]) ++ linkB ++ rest))
      by (subst h; repeat rewrite <- app_assoc; reflexivity).
    apply firstn_app_exact. rewrite !length_app; cbn [List.length]; lia.
  - replace h with ((pathB ++ modeB ++ ownerB ++ groupB ++ (fS ++ [32])
                     ++ (fD ++ [32]) ++ (fC ++ [0; 32]))
                    ++ (linkB ++ rest))
      by (subst h; repeat rewrite <- app_assoc; reflexivity).
    apply skipn_app_exact. rewrite !length_app; cbn [List.length]; lia.
Qed.

(** X20.  The fields of a TAR header, for a size below 10^11 and a clock
    reading below 8^11 seconds: the name is the path cut or padded with
    zero bytes to 100 bytes; the size field holds the size in decimal
    digits and the time field the seconds in octal digits, each padded
    with zeros to eleven characters; the checksum field holds, in six
    octal digits followed by a zero byte and a space, the sum of all
    bytes of the header with the checksum field itself counted as eight
    spaces. *)
Theorem tar_header_fields (p : jsstring) (size seconds : Z) :
  0 <= size < 10 ^ 11 -> 0 <= seconds < 8 ^ 11 ->
  let h := getTarHeader p size seconds in
  firstn 100 h = map u8 (firstn 100 p) ++ zeros (100 - List.length p) /\
  digitsValue 10 (firstn 11 (skipn 124 h)) = size /\
  digitsValue 8 (firstn 11 (skipn 136 h)) = seconds /\
  digitsValue 8 (firstn 6 (skipn 148 h))
  = sumBytes (firstn 148 h) + 8 * 32 + sumBytes (skipn 156 h) /\
  firstn 2 (skipn 154 h) = [0; 32].
Proof.
  intros Hsize Hsecs h.
  destruct (tar_number_field 10 size 11 [32])
    as (fS & ES & LS & BS & VS); [lia | exact Hsize | lia |].
  destruct (tar_number_field 8 seconds 11 [32])
    as (fD & ED & LD & BD & VD); [lia | exact Hsecs | lia |].
  change (11 + List.length [32%Z])%nat with 12%nat in ES, ED.
  subst h. unfold getTarHeader. cbv zeta.
  change (lit "00000000000") with (repeat 48 11).
  change (lit " ") with [32].
  rewrite ES, ED.
  assert (B32 : Forall is_byte [32])
    by (constructor; [unfold is_byte; lia | constructor]).
  rewrite (stringToBytes_exact (fS ++ [32]) 12),
          (stringToBytes_exact (fD ++ [32]) 12);
    try (rewrite length_app; cbn [List.length]; lia);
    try (apply Forall_app; split; assumption).
  set (pathB := stringToBytes p (Some 100%nat)).
  set (modeB := stringToBytes (lit "000644 ") (Some 8%nat)).
  set (idB := stringToBytes (lit "000000 ") (Some 8%nat)).
  set (linkB := stringToBytes (lit "0") None).
  set (linkPathB := stringToBytes [] (Some 100%nat)).
  set (sum := sumOfArrays _).
  assert (Hsum : sum
                 = sumBytes (pathB ++ modeB ++ idB ++ idB ++ (fS ++ [32])
                             ++ (fD ++ [32]))
                   + 8 * 32 + sumBytes (linkB ++ linkPathB ++ zeros 255)).
  { subst sum. rewrite sumOfArrays_concat. cbn [List.concat].
    rewrite app_nil_r, !sumBytes_app, sumBytes_zeros.
    change (sumBytes [32; 32; 32; 32; 32; 32; 32; 32]) with 256. lia. }
  assert (Hrange : 0 <= sum < 8 ^ Z.of_nat 6).
  { subst sum. rewrite sumOfArrays_concat.
    match goal with |- _ <= sumBytes ?l < _ =>
      pose proof (sumBytes_bound l) as Hb;
      assert (Hlen : List.length l = 257%nat)
    end.
    { cbn [List.concat]. rewrite !length_app.
      subst pathB modeB idB linkPathB. rewrite !stringToBytes_length.
      rewrite LS, LD. reflexivity. }
    rewrite Hlen in Hb. change (255 * Z.of_nat 257) with 65535 in Hb.
    assert (8 ^ Z.of_nat 6 = 262144) as -> by reflexivity.
    enough (0 <= sumBytes
                   (List.concat
                      [pathB; modeB; idB; idB; fS ++ [32]; fD ++ [32];
                       [32; 32; 32; 32; 32; 32; 32; 32]; linkB; linkPathB])
            <= 65535) as [Hlo Hhi].
    { split; [exact Hlo | eapply Z.le_lt_trans; [exact Hhi | reflexivity]]. }
    apply Hb. cbn [List.concat].
    repeat (apply Forall_app; split);
      try apply stringToBytes_is_bytes; try assumption;
      try constructor.
    all: try (unfold is_byte; lia).
    all: apply is_bytes_forallb; reflexivity. }
  destruct (tar_number_field 8 sum 6 [])
    as (fC & EC & LC & BC & VC); [lia | exact Hrange | lia |].
  rewrite !app_nil_r in EC.
  change (6 + List.length (@nil Z))%nat with 6%nat in EC.
  change (lit "000000") with (repeat 48 6). rewrite EC.
  change (stringToBytes fC None)
    with (stringToBytes fC (Some (List.length fC))).
  rewrite (stringToBytes_exact fC _ eq_refl BC).
  cbn [List.concat]. rewrite !app_nil_r.
  pose proof (tar_layout pathB modeB idB idB fS fD fC linkB
                (linkPathB ++ zeros 255)
                (stringToBytes_length _ _) (stringToBytes_length _ _)
                (stringToBytes_length _ _) (stringToBytes_length _ _)
                LS LD LC) as HL.
  cbv zeta in HL.
  destruct HL as (H1 & H2 & H3 & H4 & H5 & H6 & H7).
  rewrite H1, H2, H3, H4, H5, H6, H7.
  repeat split.
  - apply stringToBytes_Some.
  - exact VS.
  - exact VD.
  - rewrite VC. exact Hsum.
Qed.

Lemma tar_header_fields_witness :
  (0 <= 5 < 10 ^ 11 /\ 0 <= 1000 < 8 ^ 11) /\
  let h := getTarHeader (lit "a.txt") 5 1000 in
  firstn 100 h = map u8 (firstn 100 (lit "a.txt"))
                 ++ zeros (100 - List.length (lit "a.txt")) /\
  digitsValue 10 (firstn 11 (skipn 124 h)) = 5 /\
  digitsValue 8 (firstn 11 (skipn 136 h)) = 1000 /\
  digitsValue 8 (firstn 6 (skipn 148 h))
  = sumBytes (firstn 148 h) + 8 * 32 + sumBytes (skipn 156 h) /\
  firstn 2 (skipn 154 h) = [0; 32].
Proof.
  split; [lia|]. apply (tar_header_fields (lit "a.txt") 5 1000); lia.
Defined.

End TarMore.

(** ** Further properties of the streaming builder *)

Section StreamMore.
Import JS Codec Stream Notions.

Lemma accounted_fold (chunks : list Uint8Array) (z : ZipperStream) :
  accounted z -> accounted (fold_left _enqueue chunks z).
Proof.
  unfold accounted. intros Hz. rewrite fold_enqueue.
  cbn [enqueued _totalBytes]. rewrite concat_app, len_app, Hz. reflexivity.
Qed.

Lemma accounted_enqueue (chunk : Uint8Array) (z : ZipperStream) :
  accounted z -> accounted (_enqueue z chunk).
Proof. apply (accounted_fold [chunk]). Qed.

(** The read loop either takes every chunk, or stops at the first chunk
    that brings the length past 0xFFFFFFFF and forwards the ones before
    it. *)
Lemma readLoop_cases (T : list Z) (chunks : list Uint8Array) :
  forall r,
  0 <= fileLength r <= 0xFFFFFFFF ->
  (fileLength r + len (List.concat chunks) <= 0xFFFFFFFF /\
   sink (readLoop T chunks r) = fold_left _enqueue chunks (sink r) /\
   fileLength (readLoop T chunks r)
   = fileLength r + len (List.concat chunks)) \/
  (exists k, (k < List.length chunks)%nat /\
     0xFFFFFFFF < fileLength r + len (List.concat (firstn (S k) chunks)) /\
     fileLength r + len (List.concat (firstn k chunks)) <= 0xFFFFFFFF /\
     sink (readLoop T chunks r)
     = fold_left _enqueue (firstn k chunks) (sink r) /\
     0xFFFFFFFF < fileLength (readLoop T chunks r)).
Proof.
  induction chunks as [|value rest IH]; intros r Hr.
  - left. cbn. unfold len. cbn. repeat split; lia.
  - cbn [readLoop].
    assert (0 <= len value) by (unfold len; lia).
    destruct (Z.gtb_spec (fileLength r + len value) 0xFFFFFFFF) as [Hc|Hc].
    + right. exists 0%nat. cbn [firstn List.concat List.length fold_left
                                 sink fileLength].
      rewrite app_nil_r. unfold len at 2. cbn [List.length].
      repeat split; lia.
    + specialize (IH (mkReading
                        (foldChunk T value (crc r) (i r)
                           (fileLength r + len value))
                        (fileLength r + len value)
                        (Z.max (i r) (fileLength r + len value))
                        (_enqueue (sink r) value))).
      cbn [fileLength sink] in IH.
      destruct IH as [(Hle & Hs & Hf) | (k & Hk & Hgt & Hle & Hs & Hf)];
        [lia | |].
      * left. cbn [List.concat fold_left]. rewrite len_app.
        repeat split; [lia | exact Hs | lia].
      * right. exists (S k).
        cbn [firstn List.concat List.length fold_left] in *.
        rewrite !len_app.
        repeat split; [lia | lia | lia | exact Hs | exact Hf].
Qed.

(** X21.  What one [addStream] does to the stream, whatever the helper
    functions are.  The byte counter keeps agreeing with what was
    enqueued.  A call that returns a count has enqueued a local header,
    every chunk and a descriptor, and has added one directory record;
    the count is the new number of records.  A call that returns none
    has added no record: it either left the stream as it was (the name
    was rejected), or the source went past 0xFFFFFFFF bytes and the
    local header and the chunks before the limit stay in the stream
    without a descriptor. *)
Theorem addStream_accounting
    (T : list Z) (n2b : Z -> nat -> Uint8Array) (s2b : jsstring -> Uint8Array)
    (t2b d2b : Date -> Uint8Array)
    (z : ZipperStream) (now : Date) (filename : jsval)
    (chunks : list Uint8Array) :
  accounted z ->
  let r := addStream T n2b s2b t2b d2b z now filename chunks in
  accounted (snd r) /\
  match fst r with
  | Some n =>
      n = len (Stream._cd z) + 1 /\
      len (List.concat chunks) <= 0xFFFFFFFF /\
      exists lfh d cdh,
        enqueued (snd r) = enqueued z ++ [lfh] ++ chunks ++ [d] /\
        Stream._cd (snd r) = Stream._cd z ++ [cdh]
  | None =>
      Stream._cd (snd r) = Stream._cd z /\
      (snd r = z \/
       exists lfh k,
         (k < List.length chunks)%nat /\
         0xFFFFFFFF < len (List.concat (firstn (S k) chunks)) /\
         enqueued (snd r) = enqueued z ++ [lfh] ++ firstn k chunks)
  end.
Proof.
  intros Hz r. subst r. unfold addStream.
  destruct filename as [| | | |f| | | | |];
    try (cbn [fst snd]; split; [exact Hz | split; [reflexivity | now left]]).
  destruct (len (stripTrailingSlash (stripLeadingSlash (collapseSlashes f)))
            =? 0);
    [cbn [fst snd]; split; [exact Hz | split; [reflexivity | now left]]|].
  cbv zeta.
  match goal with
  | |- context [readLoop T chunks (mkReading (-1) 0 0 (_enqueue z ?h))] =>
      set (lfh := h)
  end.
  pose proof (accounted_enqueue lfh z Hz) as Hz1.
  destruct (readLoop_cases T chunks (mkReading (-1) 0 0 (_enqueue z lfh)))
    as [(Hle & Hs & Hf) | (k & Hk & Hgt & Hle & Hs & Hf)];
    [cbn [fileLength]; lia | |]; cbn [fileLength sink] in *.
  - rewrite Hf, Hs.
    destruct (Z.gtb_spec (0 + len (List.concat chunks)) 0xFFFFFFFF) as [Hc|_];
      [lia|].
    cbn [fst snd]. rewrite fold_enqueue.
    unfold _enqueue; cbn [enqueued _totalBytes Stream._cd].
    split.
    + unfold accounted in *. cbn [enqueued _totalBytes] in *.
      rewrite !concat_app, !len_app. cbn [List.concat].
      rewrite !app_nil_r.
      rewrite Hz. lia.
    + split; [rewrite len_app; reflexivity|]. split; [lia|].
      do 3 eexists. split; [|reflexivity].
      rewrite <- !app_assoc. reflexivity.
  - rewrite Hs.
    destruct (Z.gtb_spec (fileLength
                            (readLoop T chunks
                               (mkReading (-1) 0 0 (_enqueue z lfh))))
                         0xFFFFFFFF) as [_|Hc]; [|lia].
    cbn [fst snd]. split; [apply accounted_fold; exact Hz1|].
    rewrite fold_enqueue. cbn [enqueued _totalBytes Stream._cd _enqueue].
    split; [reflexivity|]. right. exists lfh, k.
    split; [exact Hk|]. split; [lia|].
    rewrite <- app_assoc. reflexivity.
Qed.

Lemma addStream_accounting_witness :
  accounted empty /\
  let r := addStreamWith empty (mkDate 2024 0 1 12 30 10)
             (VStr (lit "a.txt")) [[1; 2; 3]; [4; 5]] in
  accounted (snd r) /\
  match fst r with
  | Some n =>
      n = len (Stream._cd empty) + 1 /\
      len (List.concat [[1; 2; 3]; [4; 5]]) <= 0xFFFFFFFF /\
      exists lfh d cdh,
        enqueued (snd r)
        = enqueued empty ++ [lfh] ++ [[1; 2; 3]; [4; 5]] ++ [d] /\
        Stream._cd (snd r) = Stream._cd empty ++ [cdh]
  | None =>
      Stream._cd (snd r) = Stream._cd empty /\
      (snd r = empty \/
       exists lfh k,
         (k < List.length [[1; 2; 3]; [4; 5]])%nat /\
         0xFFFFFFFF
         < len (List.concat (firstn (S k) [[1; 2; 3]; [4; 5]])) /\
         enqueued (snd r)
         = enqueued empty ++ [lfh] ++ firstn k [[1; 2; 3]; [4; 5]])
  end.
Proof.
  split; [reflexivity|].
  apply (addStream_accounting Crc.Zipper_CRC_TABLE Codec.numberToBytes
           ZipParts.stringToBytes ZipParts.timeToBytes ZipParts.dateToBytes
           empty (mkDate 2024 0 1 12 30 10) (VStr (lit "a.txt"))
           [[1; 2; 3]; [4; 5]]).
  reflexivity.
Defined.

(** An accepted call on a source within the size limit, spelled out. *)
Lemma addStreamWith_accepted (z : ZipperStream) (now : Date) (f : jsstring)
    (chunks : list Uint8Array) :
  let name := stripTrailingSlash (stripLeadingSlash (collapseSlashes f)) in
  let data := List.concat chunks in
  let checksum :=
    Crc.crc_finish
      (Crc.crc_loop Crc.Zipper_CRC_TABLE (-1) (foldedBytes 0 chunks)) in
  let lfh :=
    [0x50; 0x4b; 0x03; 0x04; 0x14; 0x00; 0x08; 0x00; 0x00; 0x00]
    ++ ZipParts.timeToBytes now
    ++ ZipParts.dateToBytes now
    ++ [0x00; 0x00; 0x00; 0x00; 0x00; 0x00; 0x00; 0x00;
        0x00; 0x00; 0x00; 0x00]
    ++ numberToBytes (len name) 2
    ++ numberToBytes 0 2
    ++ map u8 name in
  let d :=
    [0x50; 0x4b; 0x07; 0x08]
    ++ numberToBytes checksum 4
    ++ numberToBytes (len data) 4
    ++ numberToBytes (len data) 4 in
  let cdh :=
    [0x50; 0x4b; 0x01; 0x02; 0x2d; 0x03; 0x14; 0x00; 0x08; 0x00; 0x00; 0x00]
    ++ ZipParts.timeToBytes now
    ++ ZipParts.dateToBytes now
    ++ numberToBytes checksum 4
    ++ numberToBytes (len data) 4
    ++ numberToBytes (len data) 4
    ++ numberToBytes (len name) 2
    ++ numberToBytes 0 2
    ++ numberToBytes 0 2
    ++ numberToBytes 0 2
    ++ [0x00; 0x00]
    ++ [0x00; 0x00; 0xa4; 0x81]
    ++ numberToBytes (_totalBytes z) 4
    ++ map u8 name in
  len name <> 0 -> len data <= 0xFFFFFFFF ->
  addStreamWith z now (VStr f) chunks =
  (Some (len (Stream._cd z) + 1),
   mkStream (enqueued z ++ [lfh] ++ chunks ++ [d])
            (_totalBytes z + len lfh + len data + len d)
            (Stream._cd z ++ [cdh])).
Proof.
  intros name data checksum lfh d cdh Hf Hle.
  unfold addStreamWith, addStream. fold name.
  destruct (Z.eqb_spec (len name) 0) as [E|_]; [contradiction|].
  assert (0 <= len data) by (unfold len; lia).
  rewrite readLoop_folded; cbn [crc fileLength i sink]; fold data; try lia.
  rewrite Z.add_0_l.
  destruct (Z.gtb_spec (len data) 0xFFFFFFFF) as [Hc|_]; [lia|].
  rewrite fold_enqueue. unfold _enqueue.
  cbn [enqueued _totalBytes Stream._cd]. fold data. fold checksum.
  match goal with
  | |- (_, mkStream (((_ ++ [?l]) ++ _) ++ [?dd]) _ (_ ++ [?c])) = _ =>
      assert (El : l = lfh); [|assert (Ed : dd = d); [|assert (Ec : c = cdh)]]
  end.
  - unfold ZipParts.timeToBytes, ZipParts.dateToBytes, lfh.
    rewrite !map_app.
    rewrite !(map_u8_bytes (numberToBytes _ _))
      by apply numberToBytes_is_bytes.
    rewrite map_u8_stringToBytes. cbn [ZipParts.stringToBytes map].
    rewrite app_nil_r. reflexivity.
  - unfold dataDescriptor, d. rewrite !map_app.
    rewrite !(map_u8_bytes (numberToBytes _ _))
      by apply numberToBytes_is_bytes.
    reflexivity.
  - unfold ZipParts.timeToBytes, ZipParts.dateToBytes, cdh.
    rewrite !map_app.
    rewrite !(map_u8_bytes (numberToBytes _ _))
      by apply numberToBytes_is_bytes.
    rewrite map_u8_stringToBytes. cbn [ZipParts.stringToBytes map].
    rewrite !app_nil_r. reflexivity.
  - rewrite El, Ed, Ec, len_app, <- !app_assoc. reflexivity.
Qed.

Lemma foldedBytes_single (c : Uint8Array) : foldedBytes 0 [c] = c.
Proof.
  cbn [foldedBytes]. rewrite app_nil_r.
  rewrite (map_ext _ (fun k => nth k c 0)).
  - induction c as [|a c IH]; [reflexivity|].
    cbn [List.length seq map nth]. f_equal.
    rewrite <- seq_shift, map_map. exact IH.
  - intros k. unfold index. rewrite Z.add_0_l.
    destruct (Z.ltb_spec (Z.of_nat k) 0); [lia|].
    now rewrite Nat2Z.id.
Qed.

(** X22.  What an accepted [addStream] writes for a source of at most
    0xFFFFFFFF bytes, with the helpers of src/src/zip.js.  The local
    header sets the data-descriptor flag and leaves the CRC and both
    sizes zero; the descriptor that follows the chunks starts with
    50 4B 07 08 and carries the total length and the checksum of the
    bytes the read loop folded, which for a source delivered as one
    chunk is the CRC-32 of the data; the directory record repeats the
    descriptor's CRC and size, the time and date of the local header and
    the name, and holds the byte count of the stream before the call as
    the offset of the local header. *)
Theorem stream_entry_records (z : ZipperStream) (now : Date) (f : jsstring)
    (chunks : list Uint8Array) :
  let name := stripTrailingSlash (stripLeadingSlash (collapseSlashes f)) in
  let data := List.concat chunks in
  len name <> 0 -> len data <= 0xFFFFFFFF ->
  exists lfh d cdh,
    addStreamWith z now (VStr f) chunks =
    (Some (len (Stream._cd z) + 1),
     mkStream (enqueued z ++ [lfh] ++ chunks ++ [d])
              (_totalBytes z + len lfh + len data + len d)
              (Stream._cd z ++ [cdh])) /\
    firstn 10 lfh
    = [0x50; 0x4b; 0x03; 0x04; 0x14; 0x00; 0x08; 0x00; 0x00; 0x00] /\
    firstn 12 (skipn 14 lfh) = zeros 12 /\
    fieldAt lfh 26 2 = len name mod 2 ^ 16 /\
    skipn 30 lfh = map u8 name /\
    firstn 4 d = [0x50; 0x4b; 0x07; 0x08] /\
    List.length d = 16%nat /\
    descriptorSize d = len data /\
    fieldAt d 12 4 = len data /\
    descriptorCrc d = Crc.Zipper_bytesToCrc32 (foldedBytes 0 chunks) /\
    (forall c, chunks = [c] -> descriptorCrc d = Crc.Zipper_bytesToCrc32 c) /\
    firstn 4 cdh = [0x50; 0x4b; 0x01; 0x02] /\
    firstn 4 (skipn 12 cdh) = firstn 4 (skipn 10 lfh) /\
    fieldAt cdh 16 4 = descriptorCrc d /\
    fieldAt cdh 20 4 = len data /\
    fieldAt cdh 24 4 = len data /\
    fieldAt cdh 42 4 = _totalBytes z mod 2 ^ 32 /\
    skipn 46 cdh = map u8 name.
Proof.
  intros name data Hf Hle.
  pose proof (addStreamWith_accepted z now f chunks) as A.
  cbv zeta in A. specialize (A Hf Hle).
  do 3 eexists. split; [exact A|].
  assert (Hd : 0 <= len data < 2 ^ 32) by (unfold len in *; lia).
  set (checksum := Crc.crc_finish _).
  assert (Hc : 0 <= checksum < 2 ^ 32) by apply crc_finish_range.
  assert (Ed : le_value (numberToBytes (len data) 4) = len data)
    by (rewrite numberToBytes_4_value; apply Z.mod_small; exact Hd).
  assert (Ec : le_value (numberToBytes checksum 4) = checksum)
    by (rewrite numberToBytes_4_value; apply Z.mod_small; exact Hc).
  unfold fieldAt, descriptorSize, descriptorCrc,
    ZipParts.timeToBytes, ZipParts.dateToBytes.
  split; [reflexivity|]. split; [reflexivity|].
  split; [apply numberToBytes_2_value|].
  split; [reflexivity|]. split; [reflexivity|]. split; [reflexivity|].
  split; [exact Ed|]. split; [exact Ed|].
  split; [exact Ec|].
  split.
  { intros c ->. subst checksum. rewrite foldedBytes_single in *. exact Ec. }
  split; [reflexivity|]. split; [reflexivity|].
  split; [exact (eq_trans Ec (eq_sym Ec))|].
  split; [exact Ed|]. split; [exact Ed|].
  split; [apply numberToBytes_4_value|].
  reflexivity.
Qed.

Lemma stream_entry_records_witness :
  let now := mkDate 2024 0 1 12 30 10 in
  let r := addStreamWith empty now (VStr (lit "/a.txt")) [[1; 2; 3]] in
  (len (stripTrailingSlash
          (stripLeadingSlash (collapseSlashes (lit "/a.txt")))) <> 0 /\
   len (List.concat [[1; 2; 3]]) <= 0xFFFFFFFF) /\
  exists lfh d cdh,
    enqueued (snd r) = [lfh; [1; 2; 3]; d] /\
    Stream._cd (snd r) = [cdh] /\
    skipn 30 lfh = lit "a.txt" /\
    descriptorSize d = 3 /\
    descriptorCrc d = Crc.Zipper_bytesToCrc32 [1; 2; 3] /\
    fieldAt cdh 42 4 = 0.
Proof.
  intros now r.
  assert (H1 : len (stripTrailingSlash
                      (stripLeadingSlash (collapseSlashes (lit "/a.txt"))))
               <> 0) by (vm_compute; discriminate).
  assert (H2 : len (List.concat [[1; 2; 3]]) <= 0xFFFFFFFF)
    by (vm_compute; discriminate).
  split; [exact (conj H1 H2)|].
  destruct (stream_entry_records empty now (lit "/a.txt") [[1; 2; 3]] H1 H2)
    as (lfh & d & cdh & A & _ & _ & _ & Hn & _ & _ & Hs & _ & _ & Hc & _ & _
        & _ & _ & _ & Ho & _).
  exists lfh, d, cdh. subst r. rewrite A. cbn [snd enqueued Stream._cd].
  split; [reflexivity|]. split; [reflexivity|].
  split; [rewrite Hn; reflexivity|].
  split; [exact Hs|].
  split; [apply Hc; reflexivity | exact Ho].
Defined.

Lemma finalise_loop (cd : list Uint8Array) (z : ZipperStream) (n : Z) :
  fold_left
    (fun '(z, cdSize) data => (_enqueue z data, cdSize + len data))
    cd (z, n)
  = (fold_left _enqueue cd z, n + len (List.concat cd)).
Proof.
  revert z n. induction cd as [|c cd IH]; intros z n.
  - cbn. unfold len. cbn. now rewrite Z.add_0_r.
  - cbn [fold_left List.concat]. rewrite IH, len_app, Z.add_assoc.
    reflexivity.
Qed.

Lemma finaliseComment_cases (comment : jsval) :
  len (finaliseComment comment) <= 65535 /\
  (forall s, comment = VStr s ->
             finaliseComment comment = firstn (Z.to_nat 65535) s) /\
  ((forall s, comment <> VStr s) -> finaliseComment comment = []).
Proof.
  unfold finaliseComment.
  destruct comment as [| |b|n|s|a|a|a|a|]; cbn [truthy negb];
    try destruct b; try destruct (n =? 0); cbn [negb];
    try (split; [unfold len; cbn; lia|]; split;
         [intros s' E; discriminate E|]; intros _; reflexivity).
  destruct s as [|c s].
  - cbn. split; [unfold len; cbn; lia|]. split.
    + intros s' E. inversion E. now rewrite firstn_nil.
    + intros H. reflexivity.
  - change (negb (negb (str_eqb (c :: s) []))) with false. cbv iota.
    destruct (Z.gtb_spec (len (c :: s)) 65535) as [Hl|Hl].
    + split; [unfold len in *; rewrite length_firstn; lia|]. split.
      * intros s' E. inversion E. reflexivity.
      * intros H. exfalso. apply (H (c :: s)). reflexivity.
    + split; [exact Hl|]. split.
      * intros s' E. inversion E. subst s'.
        rewrite firstn_all2; [reflexivity|]. unfold len in Hl. lia.
      * intros H. exfalso. apply (H (c :: s)). reflexivity.
Qed.

(** X23.  [finalise(comment)] enqueues the directory records in the
    order of [_cd] and then one trailer; it keeps the byte counter in
    agreement with the stream.  The trailer starts with 50 4B 05 06 and
    records the number of directory records (twice, modulo 2^16), the
    number of bytes of the records and the byte count of the stream
    before the call as the offset of the directory (both modulo 2^32).
    A comment that is not a string counts as none, and a string of more
    than 65535 characters is cut to its first 65535, never rejected. *)
Theorem finalise_trailer (z : ZipperStream) (comment : jsval) :
  let z' := finaliseWith z comment in
  let cm := finaliseComment comment in
  exists eocd,
    enqueued z' = enqueued z ++ Stream._cd z ++ [eocd] /\
    Stream._cd z' = Stream._cd z /\
    (accounted z -> accounted z') /\
    firstn 8 eocd = [0x50; 0x4b; 0x05; 0x06; 0x00; 0x00; 0x00; 0x00] /\
    fieldAt eocd 8 2 = len (Stream._cd z) mod 2 ^ 16 /\
    fieldAt eocd 10 2 = len (Stream._cd z) mod 2 ^ 16 /\
    fieldAt eocd 12 4 = len (List.concat (Stream._cd z)) mod 2 ^ 32 /\
    fieldAt eocd 16 4 = _totalBytes z mod 2 ^ 32 /\
    fieldAt eocd 20 2 = len cm /\
    skipn 22 eocd = map u8 cm /\
    len cm <= 65535 /\
    (forall s, comment = VStr s -> cm = firstn (Z.to_nat 65535) s) /\
    ((forall s, comment <> VStr s) -> cm = []).
Proof.
  intros z' cm.
  destruct (finaliseComment_cases comment) as (Hl & Hs & Hn).
  fold cm in Hl, Hs, Hn.
  exists ([0x50; 0x4b; 0x05; 0x06; 0x00; 0x00; 0x00; 0x00]
          ++ numberToBytes (len (Stream._cd z)) 2
          ++ numberToBytes (len (Stream._cd z)) 2
          ++ numberToBytes (len (List.concat (Stream._cd z))) 4
          ++ numberToBytes (_totalBytes z) 4
          ++ numberToBytes (len cm) 2
          ++ map u8 cm).
  assert (E : z' = fold_left _enqueue
                     (Stream._cd z ++
                      [[0x50; 0x4b; 0x05; 0x06; 0x00; 0x00; 0x00; 0x00]
                       ++ numberToBytes (len (Stream._cd z)) 2
                       ++ numberToBytes (len (Stream._cd z)) 2
                       ++ numberToBytes (len (List.concat (Stream._cd z))) 4
                       ++ numberToBytes (_totalBytes z) 4
                       ++ numberToBytes (len cm) 2
                       ++ map u8 cm]) z).
  { unfold z', finaliseWith, finalise. rewrite finalise_loop. fold cm.
    rewrite fold_left_app. cbn [fold_left]. f_equal.
    rewrite !map_app.
    rewrite !(map_u8_bytes (numberToBytes _ _))
      by apply numberToBytes_is_bytes.
    rewrite map_u8_stringToBytes. reflexivity. }
  split; [rewrite E, fold_enqueue; reflexivity|].
  split; [rewrite E, fold_enqueue; reflexivity|].
  split; [intros Hz; rewrite E; apply accounted_fold; exact Hz|].
  unfold fieldAt.
  split; [reflexivity|].
  split; [apply numberToBytes_2_value|].
  split; [apply numberToBytes_2_value|].
  split; [apply numberToBytes_4_value|].
  split; [apply numberToBytes_4_value|].
  split.
  { change (le_value (numberToBytes (len cm) 2) = len cm).
    rewrite numberToBytes_2_value. apply Z.mod_small. unfold len in *. lia. }
  split; [reflexivity|].
  split; [exact Hl|]. split; [exact Hs | exact Hn].
Qed.

End StreamMore.

(** ** The folder listing *)

Section FolderFacts.
Import JS ZipJs Folders.

Lemma hasKey_In (keys : list jsstring) (k : jsstring) :
  hasKey keys k = true <-> In k keys.
Proof.
  unfold hasKey. rewrite existsb_exists. split.
  - intros (x & Hx & E). apply str_eqb_eq in E. now subst x.
  - intros H. exists k. split; [exact H | apply str_eqb_refl].
Qed.

Lemma setKey_In (keys : list jsstring) (k p : jsstring) :
  In p (setKey keys k)
  <-> In p keys \/ (p = k /\ k <> lit "__proto__").
Proof.
  unfold setKey.
  destruct (str_eqb k (lit "__proto__")) eqn:Ep.
  - apply str_eqb_eq in Ep. split; [now left|].
    intros [H|[_ H]]; [exact H | contradiction].
  - apply str_eqb_neq in Ep.
    destruct (hasKey keys k) eqn:Eh.
    + apply hasKey_In in Eh. split; [now left|].
      intros [H|[-> _]]; assumption.
    + rewrite in_app_iff. cbn [In]. split.
      * intros [H|[<-|[]]]; [now left | right; now split].
      * intros [H|[-> _]]; [now left | right; now left].
Qed.

Lemma setKey_NoDup (keys : list jsstring) (k : jsstring) :
  NoDup keys -> NoDup (setKey keys k).
Proof.
  intros Hn. unfold setKey.
  destruct (str_eqb k (lit "__proto__")); [exact Hn|].
  destruct (hasKey keys k) eqn:Eh; [exact Hn|].
  apply NoDup_snoc; [exact Hn|].
  intros Hin. apply hasKey_In in Hin. congruence.
Qed.

Lemma setKeys_In (ks keys : list jsstring) (p : jsstring) :
  In p (fold_left setKey ks keys)
  <-> In p keys \/ (In p ks /\ p <> lit "__proto__").
Proof.
  revert keys. induction ks as [|k ks IH]; intros keys.
  - cbn. split; [now left | intros [H|[[] _]]; exact H].
  - cbn [fold_left In]. rewrite IH, setKey_In. split.
    + intros [[H|[-> Hk]]|[H Hp]].
      * now left.
      * right. split; [now left | exact Hk].
      * right. split; [now right | exact Hp].
    + intros [H|[[<-|H] Hp]].
      * left. now left.
      * left. right. now split.
      * right. now split.
Qed.

Lemma setKeys_NoDup (ks keys : list jsstring) :
  NoDup keys -> NoDup (fold_left setKey ks keys).
Proof.
  revert keys. induction ks as [|k ks IH]; intros keys Hn; [exact Hn|].
  cbn [fold_left]. apply IH, setKey_NoDup, Hn.
Qed.

Lemma names_In (es : list entry) (keys : list jsstring) (p : jsstring) :
  In p (fold_left
          (fun names file =>
             fold_left setKey (getFolderPathsFromPath (path file)) names)
          es keys)
  <-> In p keys \/
      ((exists e, In e es /\ In p (getFolderPathsFromPath (path e)))
       /\ p <> lit "__proto__").
Proof.
  revert keys. induction es as [|e es IH]; intros keys.
  - cbn. split; [now left | intros [H|[(e & [] & _) _]]; exact H].
  - cbn [fold_left]. rewrite IH, setKeys_In. split.
    + intros [[H|[H Hp]]|[(e' & He' & H) Hp]].
      * now left.
      * right. split; [|exact Hp]. exists e. split; [now left | exact H].
      * right. split; [|exact Hp]. exists e'. split; [now right | exact H].
    + intros [H|[(e' & [<-|He'] & H) Hp]].
      * left. now left.
      * left. right. now split.
      * right. split; [|exact Hp]. exists e'. now split.
Qed.

Lemma names_NoDup (es : list entry) (keys : list jsstring) :
  NoDup keys ->
  NoDup (fold_left
           (fun names file =>
              fold_left setKey (getFolderPathsFromPath (path file)) names)
           es keys).
Proof.
  revert keys. induction es as [|e es IH]; intros keys Hn; [exact Hn|].
  cbn [fold_left]. apply IH, setKeys_NoDup, Hn.
Qed.

Lemma insertIndex_perm (k : Z * jsstring) (l : list (Z * jsstring)) :
  Permutation (insertIndex k l) (k :: l).
Proof.
  induction l as [|h t IH]; [reflexivity|].
  cbn [insertIndex]. destruct (fst k <=? fst h); [reflexivity|].
  rewrite IH. apply perm_swap.
Qed.

Lemma sortIndex_perm (l : list (Z * jsstring)) :
  Permutation (fold_right insertIndex [] l) l.
Proof.
  induction l as [|k l IH]; [reflexivity|].
  cbn [fold_right]. rewrite insertIndex_perm. now apply perm_skip.
Qed.

(** [Object.keys] lists every key once. *)
Lemma objectKeys_perm (keys : list jsstring) :
  Permutation (objectKeys keys) keys.
Proof.
  unfold objectKeys. rewrite sortIndex_perm.
  induction keys as [|k keys IH]; [reflexivity|].
  cbn [flat_map filter]. destruct (arrayIndex k) as [n|].
  - cbn [app map snd]. now apply perm_skip.
  - symmetry. apply Permutation_cons_app. symmetry. exact IH.
Qed.

Lemma hasFolder_true (z : Zipper) (p : jsstring) :
  hasFolder z p = true ->
  exists e, In e (_entries z) /\ isFolderOf p (path e).
Proof.
  unfold hasFolder, getFolder. intros H.
  destruct (find (fun e => startsWith (path e) (p ++ [47])) (_entries z))
    as [e|] eqn:F; [|discriminate H].
  apply find_some in F. destruct F as [Hin He].
  exists e. split; [exact Hin|].
  destruct (startsWith_inv _ _ He) as [r Hr].
  exists r. rewrite Hr, <- app_assoc. reflexivity.
Qed.

(** X24.  [getFolders()] lists every folder once, and a path is listed
    exactly when [hasFolder] accepts it, with one exception: a folder
    whose whole path is [__proto__] is never listed, because the
    assignment that should record it goes to the prototype accessor of
    the collecting object. *)
Theorem getFolders_lists_folders (z : Zipper) (p : jsstring) :
  (In p (getFolders z)
   <-> hasFolder z p = true /\ p <> lit "__proto__") /\
  NoDup (getFolders z).
Proof.
  unfold getFolders. split.
  - split.
    + intros H.
      apply (Permutation_in _ (objectKeys_perm (folderNames z))) in H.
      apply names_In in H. destruct H as [[]|[(e & He & Hp) Hn]].
      split; [|exact Hn].
      apply (hasFolder_In z p e He). apply parents_are_folders. exact Hp.
    + intros [H Hn]. destruct (hasFolder_true z p H) as (e & He & Hf).
      apply (Permutation_in _ (Permutation_sym
                                 (objectKeys_perm (folderNames z)))).
      apply names_In. right. split; [|exact Hn].
      exists e. split; [exact He | apply folder_in_parents; exact Hf].
  - apply (Permutation_NoDup (Permutation_sym
                                (objectKeys_perm (folderNames z)))).
    apply names_NoDup. constructor.
Qed.

End FolderFacts.
